(** * The jsc shell driver (Source/JavaScriptCore/jsc.cpp)

    A shallow embedding of the command-line harness around the JavaScriptCore
    engine: the source loader, the command-line parser, the batch driver, the
    natives that load files, the interactive loop and [jscmain].

    The engine itself (parser, interpreter, heap, values, VM options) is not
    part of the file; it enters the development as the operations of the
    class [Engine] below. *)

From Stdlib Require Import ZArith Lia Ascii String.
From stdpp Require Import base list strings pretty gmap.

Local Open Scope string_scope.
Local Open Scope list_scope.

(** ** Characters and buffers *)

(** [Vector<char>]: the elements in index order; [length] is [size()]. *)
Abbreviation Vector := (list ascii).

Definition NUL : ascii := Ascii.zero.

(** A run that leaves the defined behaviour of the C++ program, or a run
    that does not come to an end: a loop of the model that was not given
    enough steps, or a script that runs for ever. *)
Inductive Abnormal : Type :=
| UndefinedBehaviour
| NoTermination.

(** [Vector::resize(n)] on a [Vector<char>]: shrinking keeps the first [n]
    elements; growing keeps every element and adds elements that are not
    initialised ([char] needs no initialisation), here the bytes
    [uninitialised i] for each new index [i]. *)
Definition Vector_resize (uninitialised : nat -> ascii) (n : nat) (v : Vector) : Vector :=
  take n v ++ map uninitialised (seq (length v) (n - length v)).

(** [v[i] = c] through [Vector::operator[]], defined for [i < size()] only. *)
Definition store (i : nat) (c : ascii) (v : Vector) : option Vector :=
  if decide (i < length v) then Some (<[i:=c]> v) else None.

(** The bytes [fillBufferWithContentsOfFile] makes of the bytes of a file:
    a leading ["#!"] becomes ["//"]. *)
Definition neutraliseShebang (bytes : list ascii) : list ascii :=
  match bytes with
  | c0 :: c1 :: rest =>
    if Ascii.eqb c0 "#" && Ascii.eqb c1 "!" then "/"%char :: "/"%char :: rest
    else bytes
  | _ => bytes
  end.

(** Text search, for messages. *)
Definition toLower (c : ascii) : ascii :=
  let n := nat_of_ascii c in
  if (65 <=? n)%nat && (n <=? 90)%nat then ascii_of_nat (n + 32) else c.

Fixpoint lowercase (s : string) : string :=
  match s with
  | EmptyString => EmptyString
  | String c rest => String (toLower c) (lowercase rest)
  end.

Fixpoint occursIn (needle text : string) : bool :=
  String.prefix needle text ||
  match text with
  | EmptyString => false
  | String _ rest => occursIn needle rest
  end.

(** [text] contains [needle], letter case apart. *)
Definition mentions (needle text : string) : bool :=
  occursIn (lowercase needle) (lowercase text).

(** ** Files and streams *)

(** A file as [fopen(name, "r")] and [fread] see it: the bytes the text-mode
    stream delivers, and whether the device fails once they are delivered
    (a read error instead of the end of the file). *)
Record File : Type := {
  contents : list ascii;
  failing : bool
}.

(** [FILE*]: what is left to read and the two indicators. *)
Record FILE : Type := {
  unread : list ascii;
  device_fails : bool;
  end_of_file : bool;
  error : bool
}.

Definition fopen_stream (file : File) : FILE :=
  {| unread := contents file; device_fails := failing file;
     end_of_file := false; error := false |}.

Definition feof (f : FILE) : bool := end_of_file f.
Definition ferror (f : FILE) : bool := error f.

(** [fread(ptr, 1, n, f)]: the bytes stored through [ptr] and the stream
    afterwards. A short count happens only at the end of the file or on an
    error, and sets the matching indicator. *)
Definition fread (n : nat) (f : FILE) : list ascii * FILE :=
  if decide (n <= length (unread f)) then
    (take n (unread f),
     {| unread := drop n (unread f); device_fails := device_fails f;
        end_of_file := end_of_file f; error := error f |})
  else
    (unread f,
     {| unread := []; device_fails := device_fails f;
        end_of_file := negb (device_fails f); error := device_fails f |}).

(** ** fillBufferWithContentsOfFile: the part after [fopen] succeeded

    [size_t] counts are natural numbers here: [bufferCapacity] is the length
    of a buffer that exists, and [capacity_bound] below shows that it never
    exceeds [max 1024 (2 * length of the file)], so the model and the machine
    arithmetic agree as long as twice the file fits in a [size_t]. *)

Record ReadState : Type := {
  rs_file : FILE;
  rs_buffer : Vector;
  rs_bufferSize : nat;
  rs_bufferCapacity : nat
}.

Section Loader.

Variable uninitialised : nat -> ascii.

(** The [while (!feof(f) && !ferror(f))] loop. [fuel] bounds the number of
    iterations of the model. The region handed to [fread] starts at
    [buffer.data() + bufferSize] and is [bufferCapacity - bufferSize] long;
    it has to lie inside the buffer. *)
Fixpoint readLoop (fuel : nat) (f : FILE) (buffer : Vector)
    (bufferSize bufferCapacity : nat) : Abnormal + ReadState :=
  if negb (feof f) && negb (ferror f) then
    match fuel with
    | O => inl NoTermination
    | S fuel' =>
      let n := bufferCapacity - bufferSize in
      if decide (bufferSize + n <= length buffer) then
        let '(bytes, f') := fread n f in
        let buffer' :=
          take bufferSize buffer ++ bytes ++ drop (bufferSize + length bytes) buffer in
        let bufferSize' := bufferSize + length bytes in
        if (bufferSize' =? bufferCapacity)%nat then
          (* guarantees space for trailing '\0' *)
          let bufferCapacity' := bufferCapacity * 2 in
          readLoop fuel' f' (Vector_resize uninitialised bufferCapacity' buffer')
            bufferSize' bufferCapacity'
        else readLoop fuel' f' buffer' bufferSize' bufferCapacity
      else inl UndefinedBehaviour
    end
  else
    inr {| rs_file := f; rs_buffer := buffer;
           rs_bufferSize := bufferSize; rs_bufferCapacity := bufferCapacity |}.

(** The statements after the loop: the terminator and the shebang. The
    second byte is read only when the first one is ['#']. *)
Definition terminateAndPatch (st : ReadState) : Abnormal + Vector :=
  match store (rs_bufferSize st) NUL (rs_buffer st) with
  | None => inl UndefinedBehaviour
  | Some buffer =>
    match buffer !! 0 with
    | None => inl UndefinedBehaviour
    | Some c0 =>
      if Ascii.eqb c0 "#" then
        match buffer !! 1 with
        | None => inl UndefinedBehaviour
        | Some c1 =>
          if Ascii.eqb c1 "!" then
            (* buffer[0] = buffer[1] = '/' *)
            match store 1 "/" buffer with
            | None => inl UndefinedBehaviour
            | Some buffer1 =>
              match store 0 "/" buffer1 with
              | None => inl UndefinedBehaviour
              | Some buffer0 => inr buffer0
              end
            end
          else inr buffer
        end
      else inr buffer
    end
  end.

(** One more step than the stream has bytes is enough for the loop: every
    iteration but the last one consumes at least one byte ([readLoop_spec]),
    and more steps change nothing ([readLoop_more_fuel]). *)
Definition readIntoBuffer (f : FILE) (buffer : Vector) : Abnormal + Vector :=
  let bufferSize := 0 in
  let bufferCapacity := 1024 in
  let buffer := Vector_resize uninitialised bufferCapacity buffer in
  match readLoop (S (length (unread f))) f buffer bufferSize bufferCapacity with
  | inl a => inl a
  | inr st => terminateAndPatch st
  end.

End Loader.

(** ** Scripts and the command line *)

Record Script : Type := {
  isFile : bool;
  argument : string
}.

Record CommandLine : Type := {
  m_interactive : bool;
  m_dump : bool;
  m_exitCode : bool;
  m_scripts : list Script;
  m_arguments : list string;
  m_profile : bool;
  m_profilerOutput : string
}.

(** What [makeSource(text, filename)] is given. *)
Record SourceCode : Type := {
  source_text : string;
  source_url : string
}.

Definition EXIT_SUCCESS : Z := 0.
Definition EXIT_FAILURE : Z := 1.

Definition newline : string := String (ascii_of_nat 10) "".
Definition interactivePrompt : string := "> ".

(** ** The process and its environment *)

(** The state a run of the process works on. [exception] is the pending
    exception of the [JSGlobalData] ([exec->hadException()] is [Some]);
    [heap] is the rest of the [JSGlobalData]; [fresh_memory i] is the byte
    a [Vector<char>] that grows finds at its new index [i]. *)
Record World (JSValue Heap VMOptions : Type) : Type := {
  files : string -> option File;
  stdin : list ascii;
  stdout : string;
  stderr : string;
  heap : Heap;
  exception : option JSValue;
  vm_options : VMOptions;
  dumpGeneratedBytecodes : bool;
  fresh_memory : nat -> ascii
}.

Arguments files {_ _ _} _.
Arguments stdin {_ _ _} _.
Arguments stdout {_ _ _} _.
Arguments stderr {_ _ _} _.
Arguments heap {_ _ _} _.
Arguments exception {_ _ _} _.
Arguments vm_options {_ _ _} _.
Arguments dumpGeneratedBytecodes {_ _ _} _.
Arguments fresh_memory {_ _ _} _.

(** How the interpreter leaves a program: with a result, with an uncaught
    exception, or inside the host function [quit] that the program called;
    or it does not leave it at all: the program runs for ever. *)
Inductive Completion (JSValue : Type) : Type :=
| Normal (result : JSValue)
| Threw (thrown : JSValue)
| CalledQuit
| NeverReturns.

Arguments Normal {_} _.
Arguments Threw {_} _.
Arguments CalledQuit {_}.
Arguments NeverReturns {_}.

(** How a pass through a loop body ends: at the end of the body, or in a
    [return b;] of the enclosing function. *)
Inductive Flow (A : Type) : Type :=
| Next (a : A)
| Return (b : bool).

Arguments Next {_} _.
Arguments Return {_} _.

(** The engine and the WTF library, as far as jsc.cpp calls them. *)
Class Engine : Type := {
  JSValue : Type;
  Heap : Type;
  VMOptions : Type;
  GlobalObject : Type;
  double : Type;
  (* values *)
  jsUndefined : JSValue;
  jsNumber : Z -> JSValue;
  isUndefinedOrNull : JSValue -> bool;
  (* [v.toString(exec)->value(exec)], also as [printf("%s")] shows it *)
  toWTFString : Heap -> JSValue -> string;
  (* [v.get(exec, Identifier(exec, name))] *)
  getProperty : Heap -> JSValue -> string -> JSValue;
  createError : string -> Heap -> Heap * JSValue;
  fromUTF8WithLatin1Fallback : list ascii -> string;
  (* [GlobalObject::create(globalData, structure, arguments)] *)
  createGlobalObject : list string -> Heap -> Heap * GlobalObject;
  (* the interpreter run inside [JSC::evaluate] *)
  interpret : GlobalObject -> SourceCode ->
              World JSValue Heap VMOptions ->
              World JSValue Heap VMOptions * Completion JSValue;
  (* [JSC::checkSyntax]: [None] when the program parses *)
  parseOnly : GlobalObject -> SourceCode -> Heap -> Heap * option JSValue;
  (* [JSC::Options::setOption]: [None] is [false] *)
  setOption : string -> VMOptions -> option VMOptions;
  dumpAllOptions : VMOptions -> string;
  startSampling : Heap -> Heap;
  stopSampling : Heap -> Heap;
  dumpSampleData : Heap -> Heap;
  createProfilerDatabase : Heap -> Heap;
  saveProfilerDatabase : string -> World JSValue Heap VMOptions ->
                         World JSValue Heap VMOptions * bool;
  (* [WTF::currentTime()] and the arithmetic of [StopWatch::getElapsedMS] *)
  currentTime : World JSValue Heap VMOptions -> double;
  double_sub : double -> double -> double;
  double_mul : double -> double -> double;
  double_of_int : Z -> double;
  double_to_long : double -> Z;
  (* build configuration: [HAVE(SIGNAL_H)] *)
  HAVE_SIGNAL_H : bool
}.

(** The state of a process that runs on the engine [E]. *)
Abbreviation state := (World JSValue Heap VMOptions).

Section Host.

Context {E : Engine}.

(** *** The monad of the process: state, [exit] and undefined behaviour *)

Inductive Result (A : Type) : Type :=
| Ret (a : A) (w : state)
| Exit (status : Z) (w : state)
| Fault (a : Abnormal) (w : state).

Arguments Ret {_} _ _.
Arguments Exit {_} _ _.
Arguments Fault {_} _ _.

Definition M (A : Type) : Type := state -> Result A.

Definition ret {A : Type} (a : A) : M A := fun w => Ret a w.

Definition bind {A B : Type} (m : M A) (k : A -> M B) : M B :=
  fun w =>
    match m w with
    | Ret a w' => k a w'
    | Exit status w' => Exit status w'
    | Fault a w' => Fault a w'
    end.

(** [exit(status)] *)
Definition exit {A : Type} (status : Z) : M A := fun w => Exit status w.

Definition undefined {A : Type} (a : Abnormal) : M A := fun w => Fault a w.

Definition modify (f : state -> state) : M unit := fun w => Ret tt (f w).

Definition gets {A : Type} (f : state -> A) : M A := fun w => Ret (f w) w.

(** The state a step of the process ends in. *)
Definition finalState {A : Type} (r : Result A) : state :=
  match r with
  | Ret _ w => w
  | Exit _ w => w
  | Fault _ w => w
  end.

(** A step of the process ends with the process going on or in [exit(0)]:
    it neither leaves the defined behaviour nor runs for ever. *)
Definition returnsOrQuits {A : Type} (r : Result A) : Prop :=
  (exists a w, r = Ret a w) \/ (exists w, r = Exit EXIT_SUCCESS w).

End Host.

Arguments Ret {_ _} _ _.
Arguments Exit {_ _} _ _.
Arguments Fault {_ _} _ _.
Arguments finalState {_ _} _.
Arguments returnsOrQuits {_ _} _.

Notation "x <- m ;; k" := (bind m (fun x => k))
  (at level 100, m at next level, right associativity).
Notation "m ;; k" := (bind m (fun _ => k))
  (at level 100, right associativity).

Section Program.

Context {E : Engine}.

(** *** Field updates *)

Definition with_stdout (s : string) (w : state) : state :=
  {| files := files w; stdin := stdin w; stdout := s; stderr := stderr w;
     heap := heap w; exception := exception w; vm_options := vm_options w;
     dumpGeneratedBytecodes := dumpGeneratedBytecodes w;
     fresh_memory := fresh_memory w |}.

Definition with_stderr (s : string) (w : state) : state :=
  {| files := files w; stdin := stdin w; stdout := stdout w; stderr := s;
     heap := heap w; exception := exception w; vm_options := vm_options w;
     dumpGeneratedBytecodes := dumpGeneratedBytecodes w;
     fresh_memory := fresh_memory w |}.

Definition with_stdin (s : list ascii) (w : state) : state :=
  {| files := files w; stdin := s; stdout := stdout w; stderr := stderr w;
     heap := heap w; exception := exception w; vm_options := vm_options w;
     dumpGeneratedBytecodes := dumpGeneratedBytecodes w;
     fresh_memory := fresh_memory w |}.

Definition with_heap (h : Heap) (w : state) : state :=
  {| files := files w; stdin := stdin w; stdout := stdout w; stderr := stderr w;
     heap := h; exception := exception w; vm_options := vm_options w;
     dumpGeneratedBytecodes := dumpGeneratedBytecodes w;
     fresh_memory := fresh_memory w |}.

Definition with_exception (e : option JSValue) (w : state) : state :=
  {| files := files w; stdin := stdin w; stdout := stdout w; stderr := stderr w;
     heap := heap w; exception := e; vm_options := vm_options w;
     dumpGeneratedBytecodes := dumpGeneratedBytecodes w;
     fresh_memory := fresh_memory w |}.

Definition with_vm_options (o : VMOptions) (w : state) : state :=
  {| files := files w; stdin := stdin w; stdout := stdout w; stderr := stderr w;
     heap := heap w; exception := exception w; vm_options := o;
     dumpGeneratedBytecodes := dumpGeneratedBytecodes w;
     fresh_memory := fresh_memory w |}.

Definition with_dumpGeneratedBytecodes (b : bool) (w : state) : state :=
  {| files := files w; stdin := stdin w; stdout := stdout w; stderr := stderr w;
     heap := heap w; exception := exception w; vm_options := vm_options w;
     dumpGeneratedBytecodes := b;
     fresh_memory := fresh_memory w |}.

(** *** The C library and the engine, as commands *)

(** [printf] and [fprintf(stderr, ...)] with the text already formatted. *)
Definition printf (text : string) : M unit :=
  modify (fun w => with_stdout (stdout w +:+ text) w).

Definition fprintf_stderr (text : string) : M unit :=
  modify (fun w => with_stderr (stderr w +:+ text) w).

Definition onHeap (f : Heap -> Heap) : M unit :=
  modify (fun w => with_heap (f (heap w)) w).

Definition allocating {A : Type} (f : Heap -> Heap * A) : M A :=
  fun w => let '(h, a) := f (heap w) in Ret a (with_heap h w).

(** [exec->clearException()] *)
Definition clearException : M unit := modify (with_exception None).

(** [throwError(exec, error)]: the error becomes the pending exception of
    the calling script and is the value of the call. *)
Definition throwError (error : JSValue) : M JSValue :=
  modify (with_exception (Some error)) ;; ret error.

(** *** StopWatch *)

Record StopWatch : Type := {
  m_startTime : double;
  m_stopTime : double
}.

(** [StopWatch stopWatch;]: the two fields hold nothing yet; they are set by
    [start] and [stop] before [getElapsedMS] reads them. *)
Definition newStopWatch : StopWatch :=
  {| m_startTime := double_of_int 0; m_stopTime := double_of_int 0 |}.

Definition StopWatch_start (s : StopWatch) : M StopWatch :=
  now <- gets currentTime ;;
  ret {| m_startTime := now; m_stopTime := m_stopTime s |}.

Definition StopWatch_stop (s : StopWatch) : M StopWatch :=
  now <- gets currentTime ;;
  ret {| m_startTime := m_startTime s; m_stopTime := now |}.

Definition getElapsedMS (s : StopWatch) : Z :=
  double_to_long
    (double_mul (double_sub (m_stopTime s) (m_startTime s)) (double_of_int 1000)).

(** *** fillBufferWithContentsOfFile *)

Definition fillBufferWithContentsOfFile (fileName : string) (buffer : Vector)
    : M (bool * Vector) :=
  fun w =>
    match files w fileName with
    | None =>
      (fprintf_stderr ("Could not open file: " +:+ fileName +:+ newline) ;;
       ret (false, buffer)) w
    | Some file =>
      match readIntoBuffer (fresh_memory w) (fopen_stream file) buffer with
      | inl a => Fault a w
      | inr buffer' => Ret (true, buffer') w
      end
    end.

(** *** jscSource *)

(** [const char*]: the bytes in memory from the pointer on. A command-line
    argument is followed by its terminator. *)
Definition c_str (s : string) : Vector := list_ascii_of_string s ++ [NUL].

(** The test [0 < *pos] on a (signed) [char]. *)
Definition positive_char (c : ascii) : bool :=
  (0 <? nat_of_ascii c)%nat && (nat_of_ascii c <? 128)%nat.

(** The loop that advances [pos] while the test holds, as the number of
    steps taken. *)
Fixpoint asciiLength (utf8 : Vector) : nat :=
  match utf8 with
  | c :: rest => if positive_char c then S (asciiLength rest) else 0
  | [] => 0
  end.

Fixpoint strlen (p : Vector) : option nat :=
  match p with
  | c :: rest => if Ascii.eqb c NUL then Some 0 else S <$> strlen rest
  | [] => None
  end.

Definition jscSource (utf8 : Vector) (filename : string) : Abnormal + SourceCode :=
  let n := asciiLength utf8 in
  match utf8 !! n with
  | None => inl UndefinedBehaviour
  | Some c =>
    if Ascii.eqb c NUL then
      (* Fast case - string is all ascii. *)
      inr {| source_text := string_of_list_ascii (take n utf8);
             source_url := filename |}
    else
      (* Slow case - contains non-ascii characters. *)
      match strlen (drop n utf8) with
      | None => inl UndefinedBehaviour
      | Some rest =>
        inr {| source_text := fromUTF8WithLatin1Fallback (take (n + rest) utf8);
               source_url := filename |}
      end
  end.

Definition jscSource_ (utf8 : Vector) (filename : string) : M SourceCode :=
  match jscSource utf8 filename with
  | inl a => undefined a
  | inr source => ret source
  end.

(** *** Natives *)

Record ExecState : Type := {
  arguments : list JSValue;
  lexicalGlobalObject : GlobalObject
}.

(** [exec->argument(i)] *)
Definition exec_argument (exec : ExecState) (i : nat) : JSValue :=
  nth i (arguments exec) jsUndefined.

(** [functionQuit]: [exit(EXIT_SUCCESS)]; its argument is not used. *)
Definition functionQuit : M JSValue :=
  exit EXIT_SUCCESS.

(** [JSC::evaluate(exec, source, JSValue(), &exception)]: the value returned
    and what [exception] holds afterwards ([None]: empty). A program that
    calls [quit] ends in [functionQuit]; a program that runs for ever keeps
    the process inside [evaluate]. *)
Definition evaluate (globalObject : GlobalObject) (source : SourceCode)
    : M (JSValue * option JSValue) :=
  fun w =>
    match interpret globalObject source w with
    | (w', Normal result) => Ret (result, None) w'
    | (w', Threw thrown) => Ret (jsUndefined, Some thrown) w'
    | (w', CalledQuit) =>
      (* the call of [quit] does not come back *)
      (functionQuit ;; undefined UndefinedBehaviour) w'
    | (w', NeverReturns) =>
      (* neither does the call of [evaluate] *)
      undefined NoTermination w'
    end.

(** [JSC::checkSyntax(exec, source, &exception)] *)
Definition checkSyntax (globalObject : GlobalObject) (source : SourceCode)
    : M (bool * option JSValue) :=
  r <- allocating (parseOnly globalObject source) ;;
  match r with
  | None => ret (true, None)
  | Some syntaxException => ret (false, Some syntaxException)
  end.

Definition argumentFileName (exec : ExecState) : M string :=
  gets (fun w => toWTFString (heap w) (exec_argument exec 0)).

Definition couldNotOpenFile : string := "Could not open file.".

Definition functionRun (exec : ExecState) : M JSValue :=
  fileName <- argumentFileName exec ;;
  r <- fillBufferWithContentsOfFile fileName [] ;; let '(opened, script) := r in
  if negb opened then
    error <- allocating (createError couldNotOpenFile) ;;
    throwError error
  else
    globalObject <- allocating (createGlobalObject []) ;;
    stopWatch <- StopWatch_start newStopWatch ;;
    source <- jscSource_ script fileName ;;
    r <- evaluate globalObject source ;; let '(_, exception) := r in
    stopWatch <- StopWatch_stop stopWatch ;;
    match exception with
    | Some e => throwError e ;; ret jsUndefined
    | None => ret (jsNumber (getElapsedMS stopWatch))
    end.

Definition functionLoad (exec : ExecState) : M JSValue :=
  fileName <- argumentFileName exec ;;
  r <- fillBufferWithContentsOfFile fileName [] ;; let '(opened, script) := r in
  if negb opened then
    error <- allocating (createError couldNotOpenFile) ;;
    throwError error
  else
    let globalObject := lexicalGlobalObject exec in
    source <- jscSource_ script fileName ;;
    r <- evaluate globalObject source ;; let '(result, evaluationException) := r in
    match evaluationException with
    | Some e => throwError e ;; ret result
    | None => ret result
    end.

Definition functionCheckSyntax (exec : ExecState) : M JSValue :=
  fileName <- argumentFileName exec ;;
  r <- fillBufferWithContentsOfFile fileName [] ;; let '(opened, script) := r in
  if negb opened then
    error <- allocating (createError couldNotOpenFile) ;;
    throwError error
  else
    let globalObject := lexicalGlobalObject exec in
    stopWatch <- StopWatch_start newStopWatch ;;
    source <- jscSource_ script fileName ;;
    r <- checkSyntax globalObject source ;; let '(validSyntax, syntaxException) := r in
    stopWatch <- StopWatch_stop stopWatch ;;
    (if negb validSyntax then
       match syntaxException with
       | Some e => throwError e ;; ret tt
       | None => ret tt
       end
     else ret tt) ;;
    ret (jsNumber (getElapsedMS stopWatch)).

(** *** runWithScripts *)

Definition hasException (e : option JSValue) : bool :=
  match e with Some _ => true | None => false end.

(** The first statement of the loop body: [script], [fileName] and the
    buffer afterwards, or [None] for the [return false] on a file that
    cannot be loaded. *)
Definition resolveScript (s : Script) (scriptBuffer : Vector)
    : M (option (Vector * string * Vector)) :=
  if isFile s then
    let fileName := argument s in
    r <- fillBufferWithContentsOfFile fileName scriptBuffer ;;
    let '(opened, scriptBuffer') := r in
    if negb opened then
      ret None (* fail early so we can catch missing files *)
    else ret (Some (scriptBuffer', fileName, scriptBuffer'))
  else
    ret (Some (c_str (argument s), "[Command Line]", scriptBuffer)).

(** The output of the loop body for one evaluation. *)
Definition reportEvaluation (globalObject : GlobalObject) (dump : bool)
    (returnValue : JSValue) (evaluationException : option JSValue) : M unit :=
  (if dump && negb (hasException evaluationException) then
     text <- gets (fun w => toWTFString (heap w) returnValue) ;;
     printf ("End: " +:+ text +:+ newline)
   else ret tt) ;;
  match evaluationException with
  | Some e =>
    text <- gets (fun w => toWTFString (heap w) e) ;;
    printf ("Exception: " +:+ text +:+ newline) ;;
    stackValue <- gets (fun w => getProperty (heap w) e "stack") ;;
    if negb (isUndefinedOrNull stackValue) then
      text <- gets (fun w => toWTFString (heap w) stackValue) ;;
      printf (text +:+ newline)
    else ret tt
  | None => ret tt
  end.

(** The loop body up to the call of [evaluate]: what [evaluate] returned,
    what [evaluationException] holds and the buffer, or [None] when the file
    could not be loaded. *)
Definition evaluateScript (globalObject : GlobalObject) (s : Script)
    (scriptBuffer : Vector)
    : M (option (JSValue * option JSValue * Vector)) :=
  resolved <- resolveScript s scriptBuffer ;;
  match resolved with
  | None => ret None
  | Some (script, fileName, scriptBuffer') =>
    onHeap startSampling ;;
    source <- jscSource_ script fileName ;;
    r <- evaluate globalObject source ;;
    ret (Some (r, scriptBuffer'))
  end.

(** What the last two statements of the loop body, [stopSampling()] and
    [clearException()], make of the state. *)
Definition endOfIteration (w : state) : state :=
  with_exception None (with_heap (stopSampling (heap w)) w).

(** The body of [for (size_t i = 0; i < scripts.size(); i++)], on
    [scripts[i]]; the loop carries [success] and [scriptBuffer]. *)
Definition scriptsLoopBody (globalObject : GlobalObject) (dump : bool)
    (s : Script) (carried : bool * Vector) : M (Flow (bool * Vector)) :=
  let '(success, scriptBuffer) := carried in
  evaluated <- evaluateScript globalObject s scriptBuffer ;;
  match evaluated with
  | None => ret (Return false)
  | Some (returnValue, evaluationException, scriptBuffer') =>
    let success' := success && negb (hasException evaluationException) in
    reportEvaluation globalObject dump returnValue evaluationException ;;
    onHeap stopSampling ;;
    clearException ;;
    ret (Next (success', scriptBuffer'))
  end.

Fixpoint scriptsLoop (globalObject : GlobalObject) (dump : bool)
    (scripts : list Script) (carried : bool * Vector) : M (Flow (bool * Vector)) :=
  match scripts with
  | [] => ret (Next carried)
  | s :: rest =>
    r <- scriptsLoopBody globalObject dump s carried ;;
    match r with
    | Next carried' => scriptsLoop globalObject dump rest carried'
    | Return b => ret (Return b)
    end
  end.

(** The statements of [runWithScripts] before the loop. *)
Definition beforeScripts (dump : bool) : M unit :=
  if dump then modify (with_dumpGeneratedBytecodes true) else ret tt.

Definition runWithScripts (globalObject : GlobalObject) (scripts : list Script)
    (dump : bool) : M bool :=
  beforeScripts dump ;;
  r <- scriptsLoop globalObject dump scripts (true, []) ;;
  match r with
  | Return b => ret b
  | Next (success, _) =>
    onHeap dumpSampleData ;;
    ret success
  end.

(** *** What happened to one script

    The three ways the loop body can go for the script [s] when the loop
    arrives at it in the state [w] with the buffer [scriptBuffer]. *)

Definition loadFails (s : Script) (w : state) : Prop :=
  isFile s = true /\ files w (argument s) = None.

Definition raisesException (globalObject : GlobalObject) (s : Script)
    (scriptBuffer : Vector) (w : state) : Prop :=
  exists returnValue thrown scriptBuffer' w',
    evaluateScript globalObject s scriptBuffer w =
    Ret (Some (returnValue, Some thrown, scriptBuffer')) w'.

Definition evaluatesWithoutException (globalObject : GlobalObject) (s : Script)
    (scriptBuffer : Vector) (w : state) : Prop :=
  exists returnValue scriptBuffer' w',
    evaluateScript globalObject s scriptBuffer w =
    Ret (Some (returnValue, None, scriptBuffer')) w'.

(** The loop, started in [w] with [carried], has run the scripts before an
    occurrence of [s] in [scripts] and stands in front of it in [w'] with
    the buffer [scriptBuffer]. *)
Definition standsAt (globalObject : GlobalObject) (dump : bool)
    (scripts : list Script) (carried : bool * Vector) (w : state)
    (s : Script) (scriptBuffer : Vector) (w' : state) : Prop :=
  exists before after success,
    scripts = before ++ s :: after /\
    scriptsLoop globalObject dump before carried w = Ret (Next (success, scriptBuffer)) w'.

(** [runWithScripts], started in [w], has run the scripts [before] and is
    about to run the next one in [w'] with the buffer [scriptBuffer]. *)
Definition arrivesAfter (globalObject : GlobalObject) (dump : bool)
    (before : list Script) (w : state) (scriptBuffer : Vector) (w' : state) : Prop :=
  exists w0 success, beforeScripts dump w = Ret tt w0 /\
    scriptsLoop globalObject dump before (true, []) w0 =
    Ret (Next (success, scriptBuffer)) w'.

(** A script of the list failed in the run of [runWithScripts] started in
    [w]: the run came to it and could not load its file, or its evaluation
    raised an exception. *)
Definition aScriptFailed (globalObject : GlobalObject) (dump : bool)
    (scripts : list Script) (w : state) : Prop :=
  exists before s after scriptBuffer w1,
    scripts = before ++ s :: after /\
    arrivesAfter globalObject dump before w scriptBuffer w1 /\
    (loadFails s w1 \/ raisesException globalObject s scriptBuffer w1).

(** The run came to every script of the list and evaluated it without an
    exception. *)
Definition everyScriptEvaluated (globalObject : GlobalObject) (dump : bool)
    (scripts : list Script) (w : state) : Prop :=
  forall before s after, scripts = before ++ s :: after ->
    exists scriptBuffer w1,
      arrivesAfter globalObject dump before w scriptBuffer w1 /\
      evaluatesWithoutException globalObject s scriptBuffer w1.

(** *** What the engine makes of one script

    The same three ways, told by the engine alone: the text of the script
    as the spec has it (the argument of [-e], or the bytes of the file with
    a leading ["#!"] made ["//"], read as a C string), and the outcome of
    the interpreter on it in the state the run has come to, where the
    sampling has been started. *)

Definition sourceOfScript (s : Script) (w : state) : option SourceCode :=
  let made (r : Abnormal + SourceCode) :=
    match r with inr source => Some source | inl _ => None end in
  if isFile s then
    match files w (argument s) with
    | Some file =>
      made (jscSource (neutraliseShebang (contents file) ++ [NUL]) (argument s))
    | None => None
    end
  else made (jscSource (c_str (argument s)) "[Command Line]").

(** The outcome of the interpreter on the script [s] in the state [w]. *)
Definition engineOutcome (globalObject : GlobalObject) (s : Script) (w : state)
    : option (state * Completion JSValue) :=
  match sourceOfScript s w with
  | Some source =>
    Some (interpret globalObject source (with_heap (startSampling (heap w)) w))
  | None => None
  end.

Definition engineRaises (globalObject : GlobalObject) (s : Script) (w : state) : Prop :=
  exists w' thrown, engineOutcome globalObject s w = Some (w', Threw thrown).

Definition engineCompletes (globalObject : GlobalObject) (s : Script) (w : state) : Prop :=
  exists w' result, engineOutcome globalObject s w = Some (w', Normal result).

(** A script of the list fails in the run of [runWithScripts] started in
    [w]: the run comes to it and its file does not open, or the interpreter
    ends its program with an uncaught exception. *)
Definition aScriptFails (globalObject : GlobalObject) (dump : bool)
    (scripts : list Script) (w : state) : Prop :=
  exists before s after scriptBuffer w1,
    scripts = before ++ s :: after /\
    arrivesAfter globalObject dump before w scriptBuffer w1 /\
    (loadFails s w1 \/ engineRaises globalObject s w1).

(** The run comes to every script of the list, and the interpreter ends the
    program of every one of them normally. *)
Definition everyScriptCompletes (globalObject : GlobalObject) (dump : bool)
    (scripts : list Script) (w : state) : Prop :=
  forall before s after, scripts = before ++ s :: after ->
    exists scriptBuffer w1,
      arrivesAfter globalObject dump before w scriptBuffer w1 /\
      engineCompletes globalObject s w1.

(** *** Runs that come to an end *)

(** Every call of the interpreter returns to its caller or ends in [quit]. *)
Definition interpreterReturns : Prop :=
  forall globalObject source (w : state),
    snd (interpret globalObject source w) <> NeverReturns.

(** A step of the process that stays inside the defined behaviour: it
    returns, or it ends in [exit(0)], or it does not come to an end, which
    takes a program on which the interpreter does not return. *)
Definition endsWell {A : Type} (r : Result A) : Prop :=
  match r with
  | Ret _ _ => True
  | Exit status _ => status = EXIT_SUCCESS
  | Fault a _ => a = NoTermination /\ ~ interpreterReturns
  end.

(** *** runInteractive (the branch without readline) *)

(** The [getchar] loop: the line and what is left of the input. *)
Fixpoint getLine (input : list ascii) : Vector * list ascii :=
  match input with
  | [] => ([], [])
  | c :: rest =>
    if Ascii.eqb c (ascii_of_nat 10) then ([], rest)
    else let '(line, rest') := getLine rest in (c :: line, rest')
  end.

Fixpoint runInteractive (fuel : nat) (globalObject : GlobalObject) : M unit :=
  match fuel with
  | O => undefined NoTermination
  | S fuel' =>
    printf interactivePrompt ;;
    input <- gets stdin ;;
    let '(line, rest) := getLine input in
    modify (with_stdin rest) ;;
    match line with
    | [] => printf newline (* break; and the statement after the loop *)
    | _ :: _ =>
      source <- jscSource_ (line ++ [NUL]) "Interpreter" ;;
      r <- evaluate globalObject source ;;
      let '(returnValue, evaluationException) := r in
      match evaluationException with
      | Some e =>
        text <- gets (fun w => toWTFString (heap w) e) ;;
        printf ("Exception: " +:+ text +:+ newline)
      | None =>
        text <- gets (fun w => toWTFString (heap w) returnValue) ;;
        printf (text +:+ newline)
      end ;;
      clearException ;;
      runInteractive fuel' globalObject
    end
  end.

(** *** CommandLine::parseArguments *)

Definition usage : string :=
  "Usage: jsc [options] [files] [-- arguments]" +:+ newline +:+
  "  -d         Dumps bytecode (debug builds only)" +:+ newline +:+
  "  -e         Evaluate argument as script code" +:+ newline +:+
  "  -f         Specifies a source file (deprecated)" +:+ newline +:+
  "  -h|--help  Prints this help message" +:+ newline +:+
  "  -i         Enables interactive mode (default if no files are specified)" +:+ newline +:+
  (if HAVE_SIGNAL_H then
     "  -s         Installs signal handlers that exit on a crash (Unix platforms only)" +:+ newline
   else "") +:+
  "  -p <file>  Outputs profiling data to a file" +:+ newline +:+
  "  -x         Output exit code before terminating" +:+ newline +:+
  newline +:+
  "  --options                  Dumps all JSC VM options and exits" +:+ newline +:+
  "  --dumpOptions              Dumps all JSC VM options before continuing" +:+ newline +:+
  "  --<jsc VM option>=<value>  Sets the specified JSC VM option" +:+ newline +:+
  newline.

Definition printUsageStatement {A : Type} (help : bool) : M A :=
  fprintf_stderr usage ;;
  exit (if help then EXIT_SUCCESS else EXIT_FAILURE).

Definition appendScript (s : Script) (c : CommandLine) : CommandLine :=
  {| m_interactive := m_interactive c; m_dump := m_dump c;
     m_exitCode := m_exitCode c; m_scripts := m_scripts c ++ [s];
     m_arguments := m_arguments c; m_profile := m_profile c;
     m_profilerOutput := m_profilerOutput c |}.

Definition setInteractive (c : CommandLine) : CommandLine :=
  {| m_interactive := true; m_dump := m_dump c;
     m_exitCode := m_exitCode c; m_scripts := m_scripts c;
     m_arguments := m_arguments c; m_profile := m_profile c;
     m_profilerOutput := m_profilerOutput c |}.

Definition setDump (c : CommandLine) : CommandLine :=
  {| m_interactive := m_interactive c; m_dump := true;
     m_exitCode := m_exitCode c; m_scripts := m_scripts c;
     m_arguments := m_arguments c; m_profile := m_profile c;
     m_profilerOutput := m_profilerOutput c |}.

Definition setExitCode (c : CommandLine) : CommandLine :=
  {| m_interactive := m_interactive c; m_dump := m_dump c;
     m_exitCode := true; m_scripts := m_scripts c;
     m_arguments := m_arguments c; m_profile := m_profile c;
     m_profilerOutput := m_profilerOutput c |}.

Definition setProfile (output : string) (c : CommandLine) : CommandLine :=
  {| m_interactive := m_interactive c; m_dump := m_dump c;
     m_exitCode := m_exitCode c; m_scripts := m_scripts c;
     m_arguments := m_arguments c; m_profile := true;
     m_profilerOutput := output |}.

Definition appendArguments (rest : list string) (c : CommandLine) : CommandLine :=
  {| m_interactive := m_interactive c; m_dump := m_dump c;
     m_exitCode := m_exitCode c; m_scripts := m_scripts c;
     m_arguments := m_arguments c ++ rest; m_profile := m_profile c;
     m_profilerOutput := m_profilerOutput c |}.

(** What the first loop of [parseArguments] leaves: the object, the two
    locals, and [argv] from index [i] on. *)
Record Parsed : Type := {
  parsed_options : CommandLine;
  needToDumpOptions : bool;
  needToExit : bool;
  remaining : list string
}.

(** The first [for (; i < argc; ++i)] loop on [argv] from index [i] on.
    [&arg[2]] is a string only when [arg] has two characters or more. *)
Fixpoint parseLoop (args : list string) (c : CommandLine)
    (dumpOptions exitAfter : bool) : M Parsed :=
  match args with
  | [] =>
    ret {| parsed_options := c; needToDumpOptions := dumpOptions;
           needToExit := exitAfter; remaining := [] |}
  | arg :: rest =>
    if String.eqb arg "-f" then
      match rest with
      | [] => printUsageStatement false
      | a :: rest' =>
        parseLoop rest' (appendScript {| isFile := true; argument := a |} c)
          dumpOptions exitAfter
      end
    else if String.eqb arg "-e" then
      match rest with
      | [] => printUsageStatement false
      | a :: rest' =>
        parseLoop rest' (appendScript {| isFile := false; argument := a |} c)
          dumpOptions exitAfter
      end
    else if String.eqb arg "-i" then
      parseLoop rest (setInteractive c) dumpOptions exitAfter
    else if String.eqb arg "-d" then
      parseLoop rest (setDump c) dumpOptions exitAfter
    else if String.eqb arg "-p" then
      match rest with
      | [] => printUsageStatement false
      | a :: rest' => parseLoop rest' (setProfile a c) dumpOptions exitAfter
      end
    else if String.eqb arg "-s" then
      (* signal(SIGILL, _exit) and the like, under HAVE(SIGNAL_H) *)
      parseLoop rest c dumpOptions exitAfter
    else if String.eqb arg "-x" then
      parseLoop rest (setExitCode c) dumpOptions exitAfter
    else if String.eqb arg "--" then
      (* ++i; break; *)
      ret {| parsed_options := c; needToDumpOptions := dumpOptions;
             needToExit := exitAfter; remaining := rest |}
    else if String.eqb arg "-h" || String.eqb arg "--help" then
      printUsageStatement true
    else if String.eqb arg "--options" then
      parseLoop rest c true true
    else if String.eqb arg "--dumpOptions" then
      parseLoop rest c true exitAfter
    else
      (* See if the -- option is a JSC VM option. *)
      match arg with
      | String _ (String _ option) =>
        current <- gets vm_options ;;
        match setOption option current with
        | Some updated =>
          (* The arg was recognized as a VM option and has been parsed. *)
          modify (with_vm_options updated) ;;
          parseLoop rest c dumpOptions exitAfter
        | None =>
          (* This arg is not recognized by the VM nor by jsc. Pass it on
             to the script. *)
          parseLoop rest (appendScript {| isFile := true; argument := arg |} c)
            dumpOptions exitAfter
        end
      | _ => undefined UndefinedBehaviour
      end
  end.

Definition parseArguments (argv : list string) (c : CommandLine) : M CommandLine :=
  p <- parseLoop (drop 1 argv) c false false ;;
  let c := parsed_options p in
  let c := if bool_decide (m_scripts c = []) then setInteractive c else c in
  let c := appendArguments (remaining p) c in
  (if needToDumpOptions p then
     current <- gets vm_options ;;
     fprintf_stderr (dumpAllOptions current)
   else ret tt) ;;
  if needToExit p then exit EXIT_SUCCESS else ret c.

(** [w'] differs from [w] in nothing a script can touch or show: the heap,
    the pending exception, the two streams a script reads and prints to and
    the files are the same. *)
Definition nothingExecuted (w w' : state) : Prop :=
  heap w' = heap w /\ exception w' = exception w /\
  stdout w' = stdout w /\ stdin w' = stdin w /\ files w' = files w.

(** What the first loop of the parser, started with the object [c] and the
    local [exitAfter], can end in: it keeps the scripts of [c] and a set
    [needToExit]; it ends the process through [printUsageStatement] only. *)
Definition parseLoopEnds (c : CommandLine) (exitAfter : bool) (r : Result Parsed) : Prop :=
  match r with
  | Ret p _ =>
    (exists later, m_scripts (parsed_options p) = m_scripts c ++ later) /\
    (exitAfter = true -> needToExit p = true)
  | Exit status _ => status = EXIT_SUCCESS \/ status = EXIT_FAILURE
  | Fault a _ => a = UndefinedBehaviour
  end.

(** The constructor [CommandLine(argc, argv)]. *)
Definition newCommandLine (argv : list string) : M CommandLine :=
  parseArguments argv
    {| m_interactive := false; m_dump := false; m_exitCode := false;
       m_scripts := []; m_arguments := []; m_profile := false;
       m_profilerOutput := "" |}.

(** *** jscmain and main *)

(** The statements of [jscmain] between the parsing and the scripts. *)
Definition createGlobalObjectFor (options : CommandLine) : M GlobalObject :=
  (if m_profile options then onHeap createProfilerDatabase else ret tt) ;;
  allocating (createGlobalObject (m_arguments options)).

(** The statements of [jscmain] after [runWithScripts]. *)
Definition afterScripts (fuel : nat) (options : CommandLine)
    (globalObject : GlobalObject) (success : bool) : M Z :=
  (if m_interactive options && success then runInteractive fuel globalObject
   else ret tt) ;;
  let result : Z := (if success then 0 else 3)%Z in
  (if m_exitCode options then
     printf ("jsc exiting " +:+ pretty result +:+ newline)
   else ret tt) ;;
  (if m_profile options then
     saved <- (fun w => let '(w', ok) := saveProfilerDatabase (m_profilerOutput options) w in
                        Ret ok w') ;;
     if negb saved then fprintf_stderr ("could not save profiler output." +:+ newline)
     else ret tt
   else ret tt) ;;
  ret result.

Definition jscmain (fuel : nat) (argv : list string) : M Z :=
  (* Note that the options parsing can affect JSGlobalData creation, and
     thus comes first. *)
  options <- newCommandLine argv ;;
  globalObject <- createGlobalObjectFor options ;;
  success <- runWithScripts globalObject (m_scripts options) (m_dump options) ;;
  afterScripts fuel options globalObject success.

Definition main (fuel : nat) (argv : list string) : M Z :=
  res <- jscmain fuel argv ;;
  ret res.

(** The exit status of the process: the value [main] returns or the
    argument of [exit]. *)
Definition exitStatus (r : Result Z) : option Z :=
  match r with
  | Ret status _ => Some status
  | Exit status _ => Some status
  | Fault _ _ => None
  end.

End Program.

(** ** A small engine

    An instance of [Engine] on which the model runs by computation. Its
    programs are read by their first word: a program that starts with
    [throw] ends in an exception, a program that starts with [syntax error]
    does not parse, [quit()] calls the host's [quit], and every other
    program ends normally. It accepts the VM options whose name starts
    with [use]. *)

Inductive SmallValue : Type :=
| SmallUndefined
| SmallNumber (n : Z)
| SmallString (text : string)
| SmallError (message : string).

Definition SmallValue_toString (v : SmallValue) : string :=
  match v with
  | SmallUndefined => "undefined"
  | SmallNumber n => pretty n
  | SmallString text => text
  | SmallError message => "Error: " +:+ message
  end.

Definition small_interpret (source : SourceCode)
    (w : World SmallValue unit (list string))
    : World SmallValue unit (list string) * Completion SmallValue :=
  if String.prefix "throw" (source_text source) then (w, Threw (SmallError "boom"))
  else if String.eqb (source_text source) "quit()" then (w, CalledQuit)
  else (w, Normal SmallUndefined).

Definition small_parseOnly (source : SourceCode) : option SmallValue :=
  if String.prefix "syntax error" (source_text source)
  then Some (SmallError "SyntaxError")
  else None.

Definition small_setOption (name : string) (current : list string)
    : option (list string) :=
  if String.prefix "use" name then Some (current ++ [name]) else None.

#[local] Instance SmallEngine : Engine := {|
  JSValue := SmallValue;
  Heap := unit;
  VMOptions := list string;
  GlobalObject := unit;
  double := Z;
  jsUndefined := SmallUndefined;
  jsNumber := SmallNumber;
  isUndefinedOrNull := fun v => match v with SmallUndefined => true | _ => false end;
  toWTFString := fun _ v => SmallValue_toString v;
  getProperty := fun _ _ _ => SmallUndefined;
  createError := fun message h => (h, SmallError message);
  fromUTF8WithLatin1Fallback := string_of_list_ascii;
  createGlobalObject := fun _ h => (h, tt);
  interpret := fun _ source w => small_interpret source w;
  parseOnly := fun _ source h => (h, small_parseOnly source);
  setOption := small_setOption;
  dumpAllOptions := fun current => String.concat newline current;
  startSampling := fun h => h;
  stopSampling := fun h => h;
  dumpSampleData := fun h => h;
  createProfilerDatabase := fun h => h;
  saveProfilerDatabase := fun _ w => (w, true);
  currentTime := fun _ => 0%Z;
  double_sub := Z.sub;
  double_mul := Z.mul;
  double_of_int := fun z => z;
  double_to_long := fun z => z;
  HAVE_SIGNAL_H := false
|}.

Definition small_file (text : string) : File :=
  {| contents := list_ascii_of_string text; failing := false |}.

(** A directory with two scripts: [a.js] and [b.js]. *)
Definition small_files (name : string) : option File :=
  if String.eqb name "a.js" then Some (small_file "print(1+1)")
  else if String.eqb name "b.js" then Some (small_file "#!/usr/bin/jsc")
  else if String.eqb name "bad.js" then Some (small_file "syntax error here")
  else None.

Definition small_world : World SmallValue unit (list string) :=
  {| files := small_files; stdin := []; stdout := ""; stderr := "";
     heap := tt; exception := None; vm_options := [];
     dumpGeneratedBytecodes := false;
     fresh_memory := fun _ => "x"%char |}.

(** A call of a native with one argument, a string. *)
Definition small_call (text : string) : ExecState (E := SmallEngine) :=
  {| arguments := [SmallString text]; lexicalGlobalObject := tt |}.

(** ** A small engine with a clock

    The small engine again, with a heap that is the clock of the process in
    seconds: [currentTime] reads it, a syntax check takes two seconds and
    the run of a program three. It is no instance: the theorems name it
    where they run on it. *)

Definition ticking_interpret (source : SourceCode)
    (w : World SmallValue nat (list string))
    : World SmallValue nat (list string) * Completion SmallValue :=
  let w' :=
    {| files := files w; stdin := stdin w; stdout := stdout w; stderr := stderr w;
       heap := heap w + 3; exception := exception w; vm_options := vm_options w;
       dumpGeneratedBytecodes := dumpGeneratedBytecodes w;
       fresh_memory := fresh_memory w |} in
  if String.prefix "throw" (source_text source) then (w', Threw (SmallError "boom"))
  else if String.eqb (source_text source) "quit()" then (w', CalledQuit)
  else (w', Normal SmallUndefined).

Definition TickingEngine : Engine := {|
  JSValue := SmallValue;
  Heap := nat;
  VMOptions := list string;
  GlobalObject := unit;
  double := Z;
  jsUndefined := SmallUndefined;
  jsNumber := SmallNumber;
  isUndefinedOrNull := fun v => match v with SmallUndefined => true | _ => false end;
  toWTFString := fun _ v => SmallValue_toString v;
  getProperty := fun _ _ _ => SmallUndefined;
  createError := fun message h => (h, SmallError message);
  fromUTF8WithLatin1Fallback := string_of_list_ascii;
  createGlobalObject := fun _ h => (h, tt);
  interpret := fun _ source w => ticking_interpret source w;
  parseOnly := fun _ source h => (h + 2, small_parseOnly source);
  setOption := small_setOption;
  dumpAllOptions := fun current => String.concat newline current;
  startSampling := fun h => h;
  stopSampling := fun h => h;
  dumpSampleData := fun h => h;
  createProfilerDatabase := fun h => h;
  saveProfilerDatabase := fun _ w => (w, true);
  currentTime := fun w => Z.of_nat (heap w);
  double_sub := Z.sub;
  double_mul := Z.mul;
  double_of_int := fun z => z;
  double_to_long := fun z => z;
  HAVE_SIGNAL_H := false
|}.

(** The small world at the time [now]. *)
Definition ticking_world (now : nat) : World SmallValue nat (list string) :=
  {| files := small_files; stdin := []; stdout := ""; stderr := "";
     heap := now; exception := None; vm_options := [];
     dumpGeneratedBytecodes := false;
     fresh_memory := fun _ => "x"%char |}.

Definition ticking_call (text : string) : ExecState (E := TickingEngine) :=
  @Build_ExecState TickingEngine [SmallString text] tt.

(** A world of the small engine whose directory is [directory] and whose
    streams are empty. *)
Definition small_world_of (directory : string -> option File)
    : World SmallValue unit (list string) :=
  {| files := directory; stdin := []; stdout := ""; stderr := "";
     heap := tt; exception := None; vm_options := [];
     dumpGeneratedBytecodes := false;
     fresh_memory := fun _ => "x"%char |}.

(** A directory that holds one file. *)
Definition small_directory (path : string) (file : File) (name : string) : option File :=
  if String.eqb name path then Some file else None.

(** ** More on the command line *)

(** The tokens [parseArguments] compares its argument with. *)
Definition jscFlags : list string :=
  ["-f"; "-e"; "-i"; "-d"; "-p"; "-s"; "-x"; "--"; "-h"; "--help";
   "--options"; "--dumpOptions"].

(** The flags that take the next token as their operand. *)
Definition operandFlags : list string := ["-f"; "-e"; "-p"].

Definition appendScripts (scripts : list Script) (c : CommandLine) : CommandLine :=
  {| m_interactive := m_interactive c; m_dump := m_dump c;
     m_exitCode := m_exitCode c; m_scripts := m_scripts c ++ scripts;
     m_arguments := m_arguments c; m_profile := m_profile c;
     m_profilerOutput := m_profilerOutput c |}.

Section Reports.

Context {E : Engine}.

(** What the end of the first loop of the parser, started on [args] with
    the object [c] and the two locals, tells about [args]: the tokens left
    for the script follow a [--]; the two locals are set by [--options] and
    [--dumpOptions] only; the loop ends the process with the status 0 for
    [-h] and [--help] and with the status 1 for a flag without its operand;
    it leaves the defined behaviour on a token shorter than ["--"] only. *)
Definition parseLoopReport (args : list string) (c : CommandLine)
    (dumpOptions exitAfter : bool) (r : Result Parsed) : Prop :=
  match r with
  | Ret p _ =>
    m_arguments (parsed_options p) = m_arguments c /\
    (remaining p = [] \/ exists before, args = before ++ "--" :: remaining p) /\
    (needToExit p = true -> exitAfter = true \/ "--options" ∈ args) /\
    (needToDumpOptions p = true ->
       dumpOptions = true \/ "--options" ∈ args \/ "--dumpOptions" ∈ args)
  | Exit status _ =>
    (status = EXIT_SUCCESS /\ ("-h" ∈ args \/ "--help" ∈ args)) \/
    (status = EXIT_FAILURE /\
     exists before flag, args = before ++ [flag] /\ flag ∈ operandFlags)
  | Fault a _ =>
    a = UndefinedBehaviour /\ exists token, token ∈ args /\ String.length token < 2
  end.

(** The interpreter reads the standard input of the process, through
    [readline], and does not add to it. *)
Definition inputIsOnlyRead : Prop :=
  forall g source (w : state),
    length (stdin (fst (interpret g source w))) <= length (stdin w).

End Reports.

(** ** The natives print and readline *)

(** How a call of [v.toString(exec)->value(exec)] ends. For an object it
    runs the [toString] of the object, which is script code: the call gives
    a text, with the state as the script code left it (an exception of the
    script code is pending there); or the script code calls [quit]; or it
    runs for ever. *)
Inductive Conversion : Type :=
| Converted (text : string)
| ConversionQuits
| ConversionNeverReturns.

(** What jsc.cpp calls besides the operations of [Engine]:
    [jsString(exec, text)] and the conversion to a string as a call. *)
Class EngineStrings (E : Engine) : Type := {
  jsString : string -> Heap -> Heap * JSValue;
  toStringOf : JSValue -> World JSValue Heap VMOptions ->
               World JSValue Heap VMOptions * Conversion
}.

(** The characters of a text before its first NUL: what [printf("%s")]
    prints of it. *)
Fixpoint beforeNUL (text : string) : string :=
  match text with
  | EmptyString => EmptyString
  | String c rest => if Ascii.eqb c NUL then EmptyString else String c (beforeNUL rest)
  end.

Section Shell.

Context {E : Engine} {ES : EngineStrings E}.

(** [v.toString(exec)->value(exec)] in the process. *)
Definition toStringIn (v : JSValue) : M string :=
  fun w =>
    match toStringOf v w with
    | (w', Converted text) => Ret text w'
    | (w', ConversionQuits) => (functionQuit ;; undefined UndefinedBehaviour) w'
    | (w', ConversionNeverReturns) => undefined NoTermination w'
    end.

(** The loop of [functionPrint] from the index [i] on, on the arguments
    from [exec->argument(i)] on. The function does not look at the pending
    exception between two arguments. *)
Fixpoint printArguments (i : nat) (args : list JSValue) : M unit :=
  match args with
  | [] => ret tt
  | v :: rest =>
    (if (i =? 0)%nat then ret tt else printf " ") ;; (* if (i) putchar(' ') *)
    text <- toStringIn v ;;
    printf (beforeNUL text) ;;
    printArguments (i + 1) rest
  end.

Definition functionPrint (exec : ExecState) : M JSValue :=
  printArguments 0 (arguments exec) ;;
  printf newline ;;
  ret jsUndefined.

(** The conversion of [v] to a string runs no script code: it gives the
    text of [v] and leaves every state as it is. *)
Definition convertsQuietly (v : JSValue) : Prop :=
  forall w : state, toStringOf v w = (w, Converted (toWTFString (heap w) v)).



End Shell.

#[local] Instance SmallStrings : EngineStrings SmallEngine := {|
  jsString := fun text h => (h, SmallString text);
  toStringOf := fun v w => (w, Converted (SmallValue_toString v))
|}.

(** ** GlobalObject::finishCreation *)

(** The host functions that [finishCreation] registers. *)
Inductive NativeFunction : Type :=
| FunctionDebug
| FunctionDescribe
| FunctionPrint
| FunctionQuit
| FunctionGC
| FunctionDumpCallFrame
| FunctionReleaseExecutableMemory
| FunctionVersion
| FunctionRun
| FunctionLoad
| FunctionCheckSyntax
| FunctionJSCStack
| FunctionReadline
| FunctionPreciseTime
| FunctionSetSamplingFlags
| FunctionClearSamplingFlags
| ConstructJSUint8Array
| ConstructJSUint8ClampedArray
| ConstructJSUint16Array
| ConstructJSUint32Array
| ConstructJSInt8Array
| ConstructJSInt16Array
| ConstructJSInt32Array
| ConstructJSFloat32Array
| ConstructJSFloat64Array.

(** The value of a property of the global object. [JSFunction] is what
    [JSFunction::create(exec, globalObject, length, name, function)] makes,
    with the native constructor of a constructable function; [JSArray] is
    an array of strings, [None] being a hole; [Builtin] is any other value,
    as [JSGlobalObject] defines them. *)
Inductive Property (V : Type) : Type :=
| JSFunction (length : nat) (name : string) (function : NativeFunction)
    (constructor : option NativeFunction)
| JSArray (elements : list (option string))
| Builtin (v : V).

Arguments JSFunction {_} _ _ _ _.
Arguments JSArray {_} _.
Arguments Builtin {_} _.

(** [array->putDirectIndex(exec, i, value)]: an index behind the end of the
    array makes the array longer, with holes before the new element. *)
Definition putDirectIndex {A : Type} (i : nat) (value : A) (array : list (option A))
    : list (option A) :=
  if decide (i < length array) then <[i:=Some value]> array
  else array ++ replicate (i - length array) None ++ [Some value].

(** The build configuration: [NDEBUG] and [ENABLE(SAMPLING_FLAGS)]. *)
Record Build : Type := {
  NDEBUG : bool;
  ENABLE_SAMPLING_FLAGS : bool
}.

Section GlobalObjectCreation.

Context {V : Type}.

(** The properties of an object, by name; [putDirect] is [insert]. *)
Abbreviation Properties := (gmap string (Property V)).

Definition addFunction (name : string) (function : NativeFunction) (arguments : nat)
    (object : Properties) : Properties :=
  <[name := JSFunction arguments name function None]> object.

Definition addConstructableFunction (name : string) (function : NativeFunction)
    (arguments : nat) (object : Properties) : Properties :=
  <[name := JSFunction arguments name function (Some function)]> object.

(** The loop [for (size_t i = 0; i < arguments.size(); ++i)] from the index
    [i] on, with [fuel] passes left; [arguments[i]] is read inside the
    vector. *)
Fixpoint fillArguments (fuel i : nat) (arguments : list string)
    (array : list (option string)) : option (list (option string)) :=
  if decide (i < length arguments) then
    match fuel with
    | O => None
    | S fuel' =>
      match arguments !! i with
      | None => None
      | Some argument =>
        fillArguments fuel' (i + 1) arguments (putDirectIndex i argument array)
      end
    end
  else Some array.

(** [finishCreation] on the properties [base] that
    [JSGlobalObject::finishCreation] has left. *)
Definition finishCreation (build : Build) (arguments : list string)
    (base : Properties) : option Properties :=
  let object := base in
  let object := addFunction "debug" FunctionDebug 1 object in
  let object := addFunction "describe" FunctionDescribe 1 object in
  let object := addFunction "print" FunctionPrint 1 object in
  let object := addFunction "quit" FunctionQuit 0 object in
  let object := addFunction "gc" FunctionGC 0 object in
  let object :=
    if NDEBUG build then object
    else
      let object := addFunction "dumpCallFrame" FunctionDumpCallFrame 0 object in
      addFunction "releaseExecutableMemory" FunctionReleaseExecutableMemory 0 object in
  let object := addFunction "version" FunctionVersion 1 object in
  let object := addFunction "run" FunctionRun 1 object in
  let object := addFunction "load" FunctionLoad 1 object in
  let object := addFunction "checkSyntax" FunctionCheckSyntax 1 object in
  let object := addFunction "jscStack" FunctionJSCStack 1 object in
  let object := addFunction "readline" FunctionReadline 0 object in
  let object := addFunction "preciseTime" FunctionPreciseTime 0 object in
  let object :=
    if ENABLE_SAMPLING_FLAGS build then
      let object := addFunction "setSamplingFlags" FunctionSetSamplingFlags 1 object in
      addFunction "clearSamplingFlags" FunctionClearSamplingFlags 1 object
    else object in
  let object := addConstructableFunction "Uint8Array" ConstructJSUint8Array 1 object in
  let object :=
    addConstructableFunction "Uint8ClampedArray" ConstructJSUint8ClampedArray 1 object in
  let object := addConstructableFunction "Uint16Array" ConstructJSUint16Array 1 object in
  let object := addConstructableFunction "Uint32Array" ConstructJSUint32Array 1 object in
  let object := addConstructableFunction "Int8Array" ConstructJSInt8Array 1 object in
  let object := addConstructableFunction "Int16Array" ConstructJSInt16Array 1 object in
  let object := addConstructableFunction "Int32Array" ConstructJSInt32Array 1 object in
  let object := addConstructableFunction "Float32Array" ConstructJSFloat32Array 1 object in
  let object := addConstructableFunction "Float64Array" ConstructJSFloat64Array 1 object in
  match fillArguments (length arguments) 0 arguments [] with
  | Some array => Some (<["arguments" := JSArray array]> object)
  | None => None
  end.

End GlobalObjectCreation.

(** The names [finishCreation] binds in the build [build]. *)
Definition shellNames (build : Build) : list string :=
  ["debug"; "describe"; "print"; "quit"; "gc"] ++
  (if NDEBUG build then [] else ["dumpCallFrame"; "releaseExecutableMemory"]) ++
  ["version"; "run"; "load"; "checkSyntax"; "jscStack"; "readline"; "preciseTime"] ++
  (if ENABLE_SAMPLING_FLAGS build then ["setSamplingFlags"; "clearSamplingFlags"] else []) ++
  ["Uint8Array"; "Uint8ClampedArray"; "Uint16Array"; "Uint32Array"; "Int8Array";
   "Int16Array"; "Int32Array"; "Float32Array"; "Float64Array"; "arguments"].

(** * Properties *)

(** ** The read loop of fillBufferWithContentsOfFile *)

Section LoaderFacts.

Variable uninitialised : nat -> ascii.

Lemma length_Vector_resize n v : length (Vector_resize uninitialised n v) = n.
Proof.
  unfold Vector_resize. rewrite length_app, length_take, length_map, length_seq. lia.
Qed.

Lemma take_Vector_resize n v :
  length v <= n -> take (length v) (Vector_resize uninitialised n v) = v.
Proof.
  intros Hn. unfold Vector_resize.
  rewrite (take_ge v n) by lia. apply take_app_length.
Qed.

(** A stream whose indicators are set ends the loop at once. *)
Lemma readLoop_stop fuel f buffer bufferSize bufferCapacity :
  feof f || ferror f = true ->
  readLoop uninitialised fuel f buffer bufferSize bufferCapacity =
  inr {| rs_file := f; rs_buffer := buffer;
         rs_bufferSize := bufferSize; rs_bufferCapacity := bufferCapacity |}.
Proof.
  intros Hflag. destruct fuel; simpl;
    destruct (feof f), (ferror f); simpl in *; congruence.
Qed.

(** The invariant of the loop and what it has read when it ends. *)
Lemma readLoop_spec fuel : forall f buffer bufferSize bufferCapacity,
  feof f = false -> ferror f = false ->
  length (unread f) < fuel ->
  bufferSize < bufferCapacity ->
  length buffer = bufferCapacity ->
  1024 <= bufferCapacity ->
  exists st,
    readLoop uninitialised fuel f buffer bufferSize bufferCapacity = inr st /\
    rs_bufferSize st = bufferSize + length (unread f) /\
    rs_bufferSize st < rs_bufferCapacity st /\
    length (rs_buffer st) = rs_bufferCapacity st /\
    1024 <= rs_bufferCapacity st /\
    rs_bufferCapacity st <= Nat.max bufferCapacity (2 * (bufferSize + length (unread f))) /\
    take (rs_bufferSize st) (rs_buffer st) = take bufferSize buffer ++ unread f /\
    feof (rs_file st) = negb (device_fails f) /\
    ferror (rs_file st) = device_fails f.
Proof.
  induction fuel as [|fuel IH]; intros f buffer bufferSize bufferCapacity
    Heof Herr Hfuel Hlt Hlen Hcap; [lia|].
  simpl. rewrite Heof, Herr. simpl.
  destruct (decide (bufferSize + (bufferCapacity - bufferSize) <= length buffer))
    as [_|Hbad]; [|lia].
  unfold fread.
  destruct (decide (bufferCapacity - bufferSize <= length (unread f))) as [Hle|Hgt].
  - (* the buffer is filled up to its capacity *)
    set (n := bufferCapacity - bufferSize) in *.
    assert (Hn : 0 < n) by (unfold n; lia).
    rewrite length_take, (Nat.min_l n) by lia.
    replace (bufferSize + n) with bufferCapacity by (unfold n; lia).
    rewrite Nat.eqb_refl.
    rewrite (drop_ge buffer bufferCapacity) by lia. rewrite app_nil_r.
    set (full := take bufferSize buffer ++ take n (unread f)).
    assert (Hfull : length full = bufferCapacity).
    { unfold full. rewrite length_app, !length_take. unfold n. lia. }
    destruct (IH {| unread := drop n (unread f); device_fails := device_fails f;
                    end_of_file := end_of_file f; error := error f |}
                 (Vector_resize uninitialised (bufferCapacity * 2) full)
                 bufferCapacity (bufferCapacity * 2))
      as (st & Hrun & Hsize & Hinv & Hblen & Hmin & Hmax & Htake & Hfe & Hfr);
      simpl; try assumption; try lia.
    { rewrite length_drop. lia. }
    { apply length_Vector_resize. }
    exists st. rewrite Hrun. simpl in *.
    rewrite length_drop in Hsize, Hmax.
    repeat split; try assumption; try lia.
    rewrite Htake. rewrite <- Hfull at 1.
    rewrite take_Vector_resize by lia.
    unfold full. rewrite <- app_assoc. f_equal. apply take_drop.
  - (* the stream runs out first *)
    assert (Hneq : (bufferSize + length (unread f) =? bufferCapacity)%nat = false)
      by (apply Nat.eqb_neq; lia).
    rewrite Hneq.
    rewrite readLoop_stop by (unfold feof, ferror; simpl; destruct (device_fails f); reflexivity).
    eexists. split; [reflexivity|]. simpl.
    repeat split; try lia.
    + rewrite !length_app, length_take, length_drop. lia.
    + rewrite app_assoc. rewrite take_app_le.
      * rewrite take_ge; [reflexivity|]. rewrite length_app, length_take. lia.
      * rewrite length_app, length_take. lia.
Qed.

(** More fuel does not change what the loop returns. *)
Lemma readLoop_more_fuel fuel : forall extra f buffer bufferSize bufferCapacity st,
  readLoop uninitialised fuel f buffer bufferSize bufferCapacity = inr st ->
  readLoop uninitialised (fuel + extra) f buffer bufferSize bufferCapacity = inr st.
Proof.
  induction fuel as [|fuel IH]; intros extra f buffer bufferSize bufferCapacity st.
  - simpl. destruct (negb (feof f) && negb (ferror f)) eqn:Hcond; [discriminate|].
    intros Hrun. destruct extra; simpl; rewrite Hcond; exact Hrun.
  - simpl. destruct (negb (feof f) && negb (ferror f)); [|tauto].
    destruct (decide _); [|discriminate].
    destruct (fread _ f) as [bytes f'].
    destruct (_ =? _)%nat; apply IH.
Qed.

#[local] Arguments store : simpl never.

Lemma store_inside i y (v : Vector) :
  i < length v -> store i y v = Some (<[i:=y]> v).
Proof.
  intros Hi. unfold store. destruct (decide _) as [_|Hbad]; [reflexivity|contradiction].
Qed.

(** The terminator overwrites the byte after the bytes read. *)
Lemma store_after_prefix (c : Vector) (x : ascii) (tail : Vector) (y : ascii) :
  store (length c) y (c ++ x :: tail) = Some (c ++ y :: tail).
Proof.
  unfold store. destruct (decide _) as [_|Hbad].
  - f_equal. rewrite insert_app_r_alt by lia.
    replace (length c - length c) with 0 by lia. reflexivity.
  - exfalso. apply Hbad. rewrite length_app. simpl. lia.
Qed.

Lemma terminateAndPatch_shebang f rest x tail bufferCapacity :
  terminateAndPatch
    {| rs_file := f; rs_buffer := "#"%char :: "!"%char :: rest ++ x :: tail;
       rs_bufferSize := S (S (length rest)); rs_bufferCapacity := bufferCapacity |} =
  inr ("/"%char :: "/"%char :: rest ++ NUL :: tail).
Proof.
  unfold terminateAndPatch. simpl rs_bufferSize. simpl rs_buffer.
  change ("#"%char :: "!"%char :: rest ++ x :: tail)
    with (("#"%char :: "!"%char :: rest) ++ x :: tail).
  change (S (S (length rest))) with (length ("#"%char :: "!"%char :: rest)).
  rewrite store_after_prefix. simpl.
  repeat (rewrite store_inside by (simpl; lia); simpl). reflexivity.
Qed.

Lemma terminateAndPatch_plain f (c : Vector) x tail bufferCapacity :
  (forall rest, c <> "#"%char :: "!"%char :: rest) ->
  terminateAndPatch
    {| rs_file := f; rs_buffer := c ++ x :: tail;
       rs_bufferSize := length c; rs_bufferCapacity := bufferCapacity |} =
  inr (c ++ NUL :: tail).
Proof.
  intros Hplain. unfold terminateAndPatch. simpl rs_bufferSize. simpl rs_buffer.
  rewrite store_after_prefix.
  destruct c as [|c0 [|c1 rest]]; simpl.
  - reflexivity.
  - destruct (Ascii.eqb c0 "#"); reflexivity.
  - destruct (Ascii.eqb_spec c0 "#") as [->|_]; [|reflexivity].
    destruct (Ascii.eqb_spec c1 "!") as [->|_]; [|reflexivity].
    destruct (Hplain rest). reflexivity.
Qed.

(** Whatever the bytes read are, the statements after the loop stay inside
    the buffer as soon as the loop leaves room for one byte. *)
Lemma terminateAndPatch_defined st :
  rs_bufferSize st < length (rs_buffer st) ->
  1 < length (rs_buffer st) ->
  exists buffer, terminateAndPatch st = inr buffer /\
                 length buffer = length (rs_buffer st).
Proof.
  intros Hsize Hlen. unfold terminateAndPatch.
  rewrite store_inside by assumption.
  set (b := <[rs_bufferSize st:=NUL]> (rs_buffer st)).
  assert (Hb : length b = length (rs_buffer st)) by apply length_insert.
  destruct b as [|c0 [|c1 rest]] eqn:Eb; simpl in Hb; try lia.
  simpl.
  destruct (Ascii.eqb c0 "#"); [|eauto].
  destruct (Ascii.eqb c1 "!"); [|eauto].
  repeat (rewrite store_inside by (simpl; lia); simpl).
  eexists. split; [reflexivity|]. simpl. lia.
Qed.

(** The loop on a freshly opened file, as [readIntoBuffer] runs it. *)
Lemma readLoop_opened (file : File) (old : Vector) :
  exists st,
    readLoop uninitialised (S (length (contents file))) (fopen_stream file)
      (Vector_resize uninitialised 1024 old) 0 1024 = inr st /\
    rs_bufferSize st = length (contents file) /\
    rs_bufferSize st < rs_bufferCapacity st /\
    length (rs_buffer st) = rs_bufferCapacity st /\
    1024 <= rs_bufferCapacity st /\
    rs_bufferCapacity st <= Nat.max 1024 (2 * length (contents file)) /\
    take (rs_bufferSize st) (rs_buffer st) = contents file /\
    feof (rs_file st) = negb (failing file) /\
    ferror (rs_file st) = failing file.
Proof.
  destruct (readLoop_spec (S (length (contents file))) (fopen_stream file)
              (Vector_resize uninitialised 1024 old) 0 1024)
    as (st & Hrun & Hsize & Hinv & Hlen & Hmin & Hmax & Htake & Hfe & Hfr);
    simpl; try reflexivity; try lia.
  { apply length_Vector_resize. }
  exists st. simpl in *. repeat split; assumption.
Qed.

(** [size_t] arithmetic: the capacity stays below the larger of the
    initial capacity and twice the length of the file. *)
Lemma capacity_bound (file : File) (old : Vector) st :
  readLoop uninitialised (S (length (contents file))) (fopen_stream file)
    (Vector_resize uninitialised 1024 old) 0 1024 = inr st ->
  rs_bufferCapacity st <= Nat.max 1024 (2 * length (contents file)).
Proof.
  intros Hrun.
  destruct (readLoop_opened file old) as (st' & Hrun' & _ & _ & _ & _ & Hmax & _).
  congruence.
Qed.

(** What [readIntoBuffer] leaves in the buffer: the bytes of the file, the
    terminator, and the rest of the buffer. *)
Lemma readIntoBuffer_shebang (file : File) (old : Vector) rest :
  contents file = "#"%char :: "!"%char :: rest ->
  exists tail,
    readIntoBuffer uninitialised (fopen_stream file) old =
    inr ("/"%char :: "/"%char :: rest ++ NUL :: tail).
Proof.
  intros Hfile. unfold readIntoBuffer. change (unread (fopen_stream file)) with (contents file).
  destruct (readLoop_opened file old)
    as (st & -> & Hsize & Hinv & Hlen & _ & _ & Htake & _).
  destruct st as [f buffer bufferSize bufferCapacity]. simpl in *.
  rewrite <- (take_drop bufferSize buffer), Htake.
  destruct (drop bufferSize buffer) as [|x tail] eqn:Hdrop.
  { apply (f_equal length) in Hdrop. rewrite length_drop in Hdrop. simpl in Hdrop. lia. }
  exists tail. rewrite Hsize, Hfile. simpl. apply terminateAndPatch_shebang.
Qed.

Lemma readIntoBuffer_plain (file : File) (old : Vector) :
  (forall rest, contents file <> "#"%char :: "!"%char :: rest) ->
  exists tail,
    readIntoBuffer uninitialised (fopen_stream file) old =
    inr (contents file ++ NUL :: tail).
Proof.
  intros Hfile. unfold readIntoBuffer. change (unread (fopen_stream file)) with (contents file).
  destruct (readLoop_opened file old)
    as (st & -> & Hsize & Hinv & Hlen & _ & _ & Htake & _).
  destruct st as [f buffer bufferSize bufferCapacity]. simpl in *.
  rewrite <- (take_drop bufferSize buffer), Htake.
  destruct (drop bufferSize buffer) as [|x tail] eqn:Hdrop.
  { apply (f_equal length) in Hdrop. rewrite length_drop in Hdrop. simpl in Hdrop. lia. }
  exists tail. rewrite Hsize. apply terminateAndPatch_plain. exact Hfile.
Qed.

Lemma shebang_cases (bytes : list ascii) :
  (exists rest, bytes = "#"%char :: "!"%char :: rest) \/
  (forall rest, bytes <> "#"%char :: "!"%char :: rest).
Proof.
  destruct bytes as [|c0 [|c1 rest]]; try (right; congruence).
  destruct (Ascii.eqb_spec c0 "#") as [->|H0]; [|right; congruence].
  destruct (Ascii.eqb_spec c1 "!") as [->|H1]; [|right; congruence].
  left. eauto.
Qed.

(** The buffer holds a terminated string as long as the file. *)
Lemma readIntoBuffer_terminated (file : File) (old : Vector) :
  exists c tail,
    readIntoBuffer uninitialised (fopen_stream file) old = inr (c ++ NUL :: tail) /\
    length c = length (contents file).
Proof.
  destruct (shebang_cases (contents file)) as [(rest & Hshebang)|Hplain].
  - destruct (readIntoBuffer_shebang file old rest Hshebang) as (tail & ->).
    exists ("/"%char :: "/"%char :: rest), tail. rewrite Hshebang. auto.
  - destruct (readIntoBuffer_plain file old Hplain) as (tail & ->). eauto.
Qed.

(** [readIntoBuffer] never leaves the defined behaviour and never runs out
    of steps. *)
Lemma readIntoBuffer_defined (f : File) (old : Vector) :
  exists buffer, readIntoBuffer uninitialised (fopen_stream f) old = inr buffer.
Proof.
  unfold readIntoBuffer. change (unread (fopen_stream f)) with (contents f).
  destruct (readLoop_opened f old) as (st & -> & _ & Hinv & Hlen & Hmin & _).
  destruct (terminateAndPatch_defined st) as (buffer & -> & _); [lia|lia|].
  eauto.
Qed.

(** C10: after the read loop of [fillBufferWithContentsOfFile] the number
    of bytes read is strictly below the capacity of the buffer, which is the
    size of the buffer and at least two, for every file (an empty one and
    one whose device fails included); the loop has ended through its own
    condition, and the store of the terminator at [bufferSize] and the
    accesses to the bytes 0 and 1 that follow are inside the buffer: the
    function ends without leaving the defined behaviour. *)
Theorem read_loop_leaves_room_for_terminator (file : File) (old : Vector) :
  exists st,
    readLoop uninitialised (S (length (contents file))) (fopen_stream file)
      (Vector_resize uninitialised 1024 old) 0 1024 = inr st /\
    rs_bufferSize st < rs_bufferCapacity st /\
    length (rs_buffer st) = rs_bufferCapacity st /\
    1 < length (rs_buffer st) /\
    feof (rs_file st) || ferror (rs_file st) = true /\
    is_Some (store (rs_bufferSize st) NUL (rs_buffer st)) /\
    exists buffer,
      readIntoBuffer uninitialised (fopen_stream file) old = inr buffer.
Proof.
  destruct (readLoop_opened file old)
    as (st & Hrun & Hsize & Hinv & Hlen & Hmin & _ & _ & Hfe & Hfr).
  exists st. repeat split; try assumption; try lia.
  - rewrite Hfe, Hfr. destruct (failing file); reflexivity.
  - unfold store. destruct (decide _) as [_|Hbad]; [eauto|lia].
  - apply readIntoBuffer_defined.
Qed.

End LoaderFacts.

Lemma neutraliseShebang_plain (bytes : list ascii) :
  (forall rest, bytes <> "#"%char :: "!"%char :: rest) ->
  neutraliseShebang bytes = bytes.
Proof.
  intros Hplain. destruct bytes as [|c0 [|c1 rest]]; try reflexivity. simpl.
  destruct (Ascii.eqb_spec c0 "#") as [->|_]; [|reflexivity].
  destruct (Ascii.eqb_spec c1 "!") as [->|_]; [|reflexivity].
  destruct (Hplain rest). reflexivity.
Qed.

(** The buffer after a load: the bytes of the file with the shebang
    neutralised, the terminator, and the rest of the buffer. *)
Lemma readIntoBuffer_contents uninitialised (file : File) (old : Vector) :
  exists tail,
    readIntoBuffer uninitialised (fopen_stream file) old =
    inr (neutraliseShebang (contents file) ++ NUL :: tail).
Proof.
  destruct (shebang_cases (contents file)) as [(rest & Hshebang)|Hplain].
  - destruct (readIntoBuffer_shebang uninitialised file old rest Hshebang) as (tail & ->).
    exists tail. rewrite Hshebang. reflexivity.
  - destruct (readIntoBuffer_plain uninitialised file old Hplain) as (tail & ->).
    exists tail. rewrite neutraliseShebang_plain by exact Hplain. reflexivity.
Qed.

(** The empty file and a file that fills the initial capacity exactly. *)
Example read_loop_on_the_empty_file :
  readLoop (fun _ => "x"%char) 1 (fopen_stream {| contents := []; failing := false |})
    (Vector_resize (fun _ => "x"%char) 1024 []) 0 1024 =
  inr {| rs_file := {| unread := []; device_fails := false;
                       end_of_file := true; error := false |};
         rs_buffer := Vector_resize (fun _ => "x"%char) 1024 [];
         rs_bufferSize := 0; rs_bufferCapacity := 1024 |}.
Proof. vm_compute. reflexivity. Qed.

Example read_loop_on_a_file_of_1024_bytes :
  match readLoop (fun _ => "x"%char) 1025
          (fopen_stream {| contents := repeat "a"%char 1024; failing := false |})
          (Vector_resize (fun _ => "x"%char) 1024 []) 0 1024 with
  | inr st => (rs_bufferSize st, rs_bufferCapacity st, length (rs_buffer st))
  | inl _ => (0, 0, 0)
  end = (1024, 2048, 2048).
Proof. vm_compute. reflexivity. Qed.


(** ** fillBufferWithContentsOfFile *)

Section LoadFacts.

Context {E : Engine}.

Lemma fillBuffer_missing (w : state) fileName (old : Vector) :
  files w fileName = None ->
  fillBufferWithContentsOfFile fileName old w =
  Ret (false, old)
      (with_stderr (stderr w +:+ ("Could not open file: " +:+ fileName +:+ newline)) w).
Proof.
  intros Hfile. unfold fillBufferWithContentsOfFile. rewrite Hfile. reflexivity.
Qed.

Lemma fillBuffer_present (w : state) fileName file (old : Vector) :
  files w fileName = Some file ->
  exists buffer,
    readIntoBuffer (fresh_memory w) (fopen_stream file) old = inr buffer /\
    fillBufferWithContentsOfFile fileName old w = Ret (true, buffer) w.
Proof.
  intros Hfile. unfold fillBufferWithContentsOfFile. rewrite Hfile.
  destruct (readIntoBuffer_defined (fresh_memory w) file old) as (buffer & Hread).
  exists buffer. rewrite Hread. auto.
Qed.

(** The load never leaves the defined behaviour, and reports [true] exactly
    for a file that opens. *)
Lemma fillBuffer_returns (w : state) fileName (old : Vector) :
  exists buffer w',
    fillBufferWithContentsOfFile fileName old w =
    Ret (bool_decide (is_Some (files w fileName)), buffer) w'.
Proof.
  destruct (files w fileName) as [file|] eqn:Hfile.
  - destruct (fillBuffer_present w fileName file old Hfile) as (buffer & _ & ->).
    eauto.
  - rewrite fillBuffer_missing by assumption. eauto.
Qed.

(** C4: for a readable file, [fillBufferWithContentsOfFile] returns [true]
    and leaves in the buffer, from its first byte on, the bytes of the file
    followed by the null terminator; when the file starts with ["#!"] these
    two bytes are replaced by ["//"] and the bytes after them are unchanged,
    and otherwise the bytes are those of the file. *)
Theorem load_keeps_bytes_and_neutralises_shebang
    (w : state) fileName file (old : Vector) :
  files w fileName = Some file ->
  failing file = false ->
  exists buffer,
    fillBufferWithContentsOfFile fileName old w = Ret (true, buffer) w /\
    (forall rest, contents file = "#"%char :: "!"%char :: rest ->
       take (S (length (contents file))) buffer =
       "/"%char :: "/"%char :: rest ++ [NUL]) /\
    ((forall rest, contents file <> "#"%char :: "!"%char :: rest) ->
       take (S (length (contents file))) buffer = contents file ++ [NUL]).
Proof.
  intros Hfile _.
  destruct (fillBuffer_present w fileName file old Hfile) as (buffer & Hread & Hload).
  exists buffer. split; [exact Hload|]. split.
  - intros rest Hshebang.
    destruct (readIntoBuffer_shebang (fresh_memory w) file old rest Hshebang)
      as (tail & Hbuffer).
    rewrite Hbuffer in Hread. injection Hread as <-.
    rewrite Hshebang.
    change ("/"%char :: "/"%char :: rest ++ NUL :: tail)
      with (("/"%char :: "/"%char :: rest) ++ [NUL] ++ tail).
    rewrite app_assoc.
    replace (S (length ("#"%char :: "!"%char :: rest)))
      with (length (("/"%char :: "/"%char :: rest) ++ [NUL]))
      by (rewrite length_app; simpl; lia).
    apply take_app_length.
  - intros Hplain.
    destruct (readIntoBuffer_plain (fresh_memory w) file old Hplain)
      as (tail & Hbuffer).
    rewrite Hbuffer in Hread. injection Hread as <-.
    change (contents file ++ NUL :: tail) with (contents file ++ [NUL] ++ tail).
    rewrite app_assoc.
    replace (S (length (contents file))) with (length (contents file ++ [NUL]))
      by (rewrite length_app; simpl; lia).
    apply take_app_length.
Qed.

End LoadFacts.

Lemma load_keeps_bytes_and_neutralises_shebang_witness :
  exists buffer,
    fillBufferWithContentsOfFile (E := SmallEngine) "b.js" [] small_world =
    Ret (true, buffer) small_world /\
    take 15 buffer = list_ascii_of_string "///usr/bin/jsc" ++ [NUL].
Proof.
  destruct (load_keeps_bytes_and_neutralises_shebang (E := SmallEngine) small_world "b.js"
              (small_file "#!/usr/bin/jsc") [] eq_refl eq_refl)
    as (buffer & Hload & Hshebang & _).
  exists buffer. split; [exact Hload|].
  exact (Hshebang (list_ascii_of_string "/usr/bin/jsc") eq_refl).
Defined.

(** ** jscSource *)

Section SourceFacts.

Context {E : Engine}.

Lemma asciiLength_le (utf8 : Vector) : asciiLength utf8 <= length utf8.
Proof.
  induction utf8 as [|c rest IH]; simpl; [lia|].
  destruct (positive_char c); simpl; lia.
Qed.

Lemma asciiLength_before_NUL (c tail : Vector) :
  asciiLength (c ++ NUL :: tail) = asciiLength c.
Proof.
  induction c as [|x c IH]; simpl; [reflexivity|].
  destruct (positive_char x); [f_equal; exact IH|reflexivity].
Qed.

Lemma strlen_before_NUL (d tail : Vector) :
  exists k, strlen (d ++ NUL :: tail) = Some k /\ k <= length d.
Proof.
  induction d as [|x d (k & IH & Hk)]; simpl.
  - exists 0. split; [reflexivity|lia].
  - destruct (Ascii.eqb x NUL).
    + exists 0. split; [reflexivity|lia].
    + exists (S k). rewrite IH. split; [reflexivity|lia].
Qed.

(** Memory that holds a terminator is a C string: [jscSource] reads it
    without leaving it. *)
Lemma jscSource_defined (c tail : Vector) filename :
  exists source, jscSource (c ++ NUL :: tail) filename = inr source.
Proof.
  unfold jscSource. rewrite asciiLength_before_NUL.
  pose proof (asciiLength_le c) as Hn.
  destruct ((c ++ NUL :: tail) !! asciiLength c) as [x|] eqn:Hx.
  - destruct (Ascii.eqb x NUL); [eauto|].
    rewrite drop_app_le by exact Hn.
    destruct (strlen_before_NUL (drop (asciiLength c) c) tail) as (k & -> & _).
    eauto.
  - apply lookup_ge_None in Hx. rewrite length_app in Hx. simpl in Hx. lia.
Qed.

Lemma jscSource_c_str (text : string) filename :
  exists source, jscSource (c_str text) filename = inr source.
Proof. apply jscSource_defined. Qed.

Lemma strlen_tail (d tail : Vector) :
  strlen (d ++ NUL :: tail) = strlen (d ++ [NUL]).
Proof.
  induction d as [|x d IH]; simpl; [reflexivity|].
  destruct (Ascii.eqb x NUL); [reflexivity|]. rewrite IH. reflexivity.
Qed.

(** [jscSource] reads a string up to its terminator: what follows the
    terminator in the buffer does not matter. *)
Lemma jscSource_tail (c tail : Vector) filename :
  jscSource (c ++ NUL :: tail) filename = jscSource (c ++ [NUL]) filename.
Proof.
  unfold jscSource. rewrite !asciiLength_before_NUL.
  pose proof (asciiLength_le c) as Hn.
  set (n := asciiLength c) in *.
  rewrite !(take_app_le c _ n) by exact Hn.
  rewrite !(drop_app_le c _ n) by exact Hn.
  rewrite strlen_tail.
  destruct (strlen_before_NUL (drop n c) []) as (k & Hk & Hbound).
  rewrite Hk. rewrite length_drop in Hbound.
  rewrite !(take_app_le c _ (n + k)) by lia.
  destruct (decide (n < length c)) as [Hlt|Hge].
  - rewrite !lookup_app_l by exact Hlt. reflexivity.
  - rewrite !list_lookup_middle by lia. reflexivity.
Qed.

End SourceFacts.

(** ** The loop of runWithScripts *)

Section DriverFacts.

Context {E : Engine}.

(** A step that stays inside the defined behaviour returns or ends in
    [quit] as soon as the interpreter returns on every program. *)
Lemma endsWell_returns {A : Type} (r : Result A) :
  interpreterReturns -> endsWell r -> returnsOrQuits r.
Proof.
  intros Hreturns. destruct r as [a w|status w|a w]; simpl.
  - intros _. left. eauto.
  - intros ->. right. eauto.
  - intros [_ Hhangs]. contradiction.
Qed.

Lemma evaluate_endsWell globalObject source (w : state) :
  endsWell (evaluate globalObject source w).
Proof.
  unfold evaluate.
  destruct (interpret globalObject source w) as [w' [result|thrown| |]] eqn:Hrun;
    simpl; auto.
  split; [reflexivity|]. intros Hreturns.
  apply (Hreturns globalObject source w). rewrite Hrun. reflexivity.
Qed.

(** What [resolveScript] does, case by case. *)
Lemma resolveScript_inline (s : Script) (scriptBuffer : Vector) (w : state) :
  isFile s = false ->
  resolveScript s scriptBuffer w =
  Ret (Some (c_str (argument s), "[Command Line]", scriptBuffer)) w.
Proof. intros Hs. unfold resolveScript. rewrite Hs. reflexivity. Qed.

Lemma resolveScript_missing (s : Script) (scriptBuffer : Vector) (w : state) :
  loadFails s w ->
  resolveScript s scriptBuffer w =
  Ret None (with_stderr (stderr w +:+ ("Could not open file: " +:+ argument s +:+ newline)) w).
Proof.
  intros [Hs Hfile]. unfold resolveScript. rewrite Hs.
  unfold bind. rewrite fillBuffer_missing by exact Hfile. reflexivity.
Qed.

Lemma resolveScript_file (s : Script) (scriptBuffer : Vector) (w : state) file :
  isFile s = true -> files w (argument s) = Some file ->
  exists buffer,
    readIntoBuffer (fresh_memory w) (fopen_stream file) scriptBuffer = inr buffer /\
    resolveScript s scriptBuffer w = Ret (Some (buffer, argument s, buffer)) w.
Proof.
  intros Hs Hfile. unfold resolveScript. rewrite Hs.
  destruct (fillBuffer_present w (argument s) file scriptBuffer Hfile)
    as (buffer & Hread & Hload).
  exists buffer. split; [exact Hread|]. unfold bind. rewrite Hload. reflexivity.
Qed.

(** The string [resolveScript] hands on is terminated. *)
Lemma resolveScript_terminated (s : Script) (scriptBuffer : Vector) (w : state)
    script fileName scriptBuffer' w' :
  resolveScript s scriptBuffer w = Ret (Some (script, fileName, scriptBuffer')) w' ->
  exists c tail, script = c ++ NUL :: tail.
Proof.
  destruct (isFile s) eqn:Hs.
  - destruct (files w (argument s)) as [file|] eqn:Hfile.
    + destruct (resolveScript_file s scriptBuffer w file Hs Hfile)
        as (buffer & Hread & ->).
      intros [= <- _ _ _].
      destruct (readIntoBuffer_terminated (fresh_memory w) file scriptBuffer)
        as (c & tail & Hbuffer & _).
      rewrite Hbuffer in Hread. injection Hread as <-. eauto.
    + rewrite resolveScript_missing by (split; assumption). discriminate.
  - rewrite resolveScript_inline by exact Hs. intros [= <- _ _ _].
    exists (list_ascii_of_string (argument s)), []. reflexivity.
Qed.

(** *** evaluateScript *)

Lemma evaluateScript_missing globalObject (s : Script) (scriptBuffer : Vector) (w : state) :
  loadFails s w ->
  evaluateScript globalObject s scriptBuffer w =
  Ret None (with_stderr (stderr w +:+ ("Could not open file: " +:+ argument s +:+ newline)) w).
Proof.
  intros Hfails. unfold evaluateScript, bind.
  rewrite resolveScript_missing by exact Hfails. reflexivity.
Qed.

(** A script that loads is handed to the interpreter, and the loop body
    sees how the interpreter leaves it. *)
Lemma evaluateScript_loaded globalObject (s : Script) (scriptBuffer : Vector) (w : state) :
  ~ loadFails s w ->
  exists script fileName scriptBuffer' source,
    resolveScript s scriptBuffer w = Ret (Some (script, fileName, scriptBuffer')) w /\
    jscSource script fileName = inr source /\
    evaluateScript globalObject s scriptBuffer w =
    match interpret globalObject source (with_heap (startSampling (heap w)) w) with
    | (w', Normal result) => Ret (Some (result, None, scriptBuffer')) w'
    | (w', Threw thrown) => Ret (Some (jsUndefined, Some thrown, scriptBuffer')) w'
    | (w', CalledQuit) => Exit EXIT_SUCCESS w'
    | (w', NeverReturns) => Fault NoTermination w'
    end.
Proof.
  intros Hloads.
  assert (Hresolved : exists script fileName scriptBuffer',
             resolveScript s scriptBuffer w = Ret (Some (script, fileName, scriptBuffer')) w).
  { destruct (isFile s) eqn:Hs.
    - destruct (files w (argument s)) as [file|] eqn:Hfile.
      + destruct (resolveScript_file s scriptBuffer w file Hs Hfile) as (buffer & _ & ->).
        eauto.
      + exfalso. apply Hloads. split; assumption.
    - rewrite resolveScript_inline by exact Hs. eauto. }
  destruct Hresolved as (script & fileName & scriptBuffer' & Hresolve).
  destruct (resolveScript_terminated _ _ _ _ _ _ _ Hresolve) as (c & tail & ->).
  destruct (jscSource_defined c tail fileName) as (source & Hsource).
  exists (c ++ NUL :: tail), fileName, scriptBuffer', source.
  split; [exact Hresolve|]. split; [exact Hsource|].
  unfold evaluateScript, bind. rewrite Hresolve.
  unfold onHeap, modify, jscSource_. rewrite Hsource.
  unfold ret, evaluate.
  destruct (interpret globalObject source _) as [w' [result|thrown| |]]; reflexivity.
Qed.

(** The same with the source of the script as [sourceOfScript] tells it:
    the interpreter is called on the text of the script, and on nothing
    else. *)
Lemma evaluateScript_engine globalObject (s : Script) (scriptBuffer : Vector) (w : state) :
  ~ loadFails s w ->
  exists source scriptBuffer',
    sourceOfScript s w = Some source /\
    evaluateScript globalObject s scriptBuffer w =
    match interpret globalObject source (with_heap (startSampling (heap w)) w) with
    | (w', Normal result) => Ret (Some (result, None, scriptBuffer')) w'
    | (w', Threw thrown) => Ret (Some (jsUndefined, Some thrown, scriptBuffer')) w'
    | (w', CalledQuit) => Exit EXIT_SUCCESS w'
    | (w', NeverReturns) => Fault NoTermination w'
    end.
Proof.
  intros Hloads.
  assert (Hscript : exists c tail fileName scriptBuffer' source,
             resolveScript s scriptBuffer w =
               Ret (Some (c ++ NUL :: tail, fileName, scriptBuffer')) w /\
             jscSource (c ++ NUL :: tail) fileName = inr source /\
             sourceOfScript s w = Some source).
  { unfold sourceOfScript. destruct (isFile s) eqn:Hs.
    - destruct (files w (argument s)) as [file|] eqn:Hfile.
      + destruct (resolveScript_file s scriptBuffer w file Hs Hfile)
          as (buffer & Hread & Hresolve).
        destruct (readIntoBuffer_contents (fresh_memory w) file scriptBuffer)
          as (tail & Hbuffer).
        rewrite Hbuffer in Hread. injection Hread as <-.
        destruct (jscSource_defined (neutraliseShebang (contents file)) tail (argument s))
          as (source & Hsource).
        exists (neutraliseShebang (contents file)), tail, (argument s),
          (neutraliseShebang (contents file) ++ NUL :: tail), source.
        split; [exact Hresolve|]. split; [exact Hsource|].
        rewrite <- jscSource_tail with (tail := tail), Hsource. reflexivity.
      + exfalso. apply Hloads. split; assumption.
    - destruct (jscSource_defined (list_ascii_of_string (argument s)) [] "[Command Line]")
        as (source & Hsource).
      exists (list_ascii_of_string (argument s)), [], "[Command Line]", scriptBuffer, source.
      split; [apply resolveScript_inline; exact Hs|]. split; [exact Hsource|].
      unfold c_str. rewrite Hsource. reflexivity. }
  destruct Hscript as (c & tail & fileName & scriptBuffer' & source &
                       Hresolve & Hsource & Hengine).
  exists source, scriptBuffer'. split; [exact Hengine|].
  unfold evaluateScript, bind. rewrite Hresolve.
  unfold onHeap, modify, jscSource_. rewrite Hsource.
  unfold ret, evaluate.
  destruct (interpret globalObject source _) as [w' [result|thrown| |]]; reflexivity.
Qed.

Lemma evaluateScript_endsWell globalObject (s : Script) (scriptBuffer : Vector)
    (w : state) :
  endsWell (evaluateScript globalObject s scriptBuffer w).
Proof.
  destruct (isFile s) eqn:Hs; [destruct (files w (argument s)) as [file|] eqn:Hfile|].
  3: assert (Hloads : ~ loadFails s w) by (intros [H _]; congruence).
  1: assert (Hloads : ~ loadFails s w) by (intros [_ H]; congruence).
  1, 3: destruct (evaluateScript_loaded globalObject s scriptBuffer w Hloads)
      as (script & fileName & scriptBuffer' & source & _ & _ & ->);
    pose proof (evaluate_endsWell globalObject source
                  (with_heap (startSampling (heap w)) w)) as Hends;
    unfold evaluate in Hends;
    destruct (interpret globalObject source _) as [w' [result|thrown| |]];
    simpl in *; auto.
  rewrite evaluateScript_missing by (split; assumption).
  exact I.
Qed.

Lemma evaluateScript_None globalObject (s : Script) (scriptBuffer : Vector) (w w' : state) :
  evaluateScript globalObject s scriptBuffer w = Ret None w' <-> 
  loadFails s w /\
  w' = with_stderr (stderr w +:+ ("Could not open file: " +:+ argument s +:+ newline)) w.
Proof.
  split.
  - intros Hrun.
    assert (Hfails : loadFails s w).
    { destruct (isFile s) eqn:Hs; [destruct (files w (argument s)) as [file|] eqn:Hfile|].
      3: assert (Hloads : ~ loadFails s w) by (intros [H _]; congruence).
      1: assert (Hloads : ~ loadFails s w) by (intros [_ H]; congruence).
      1, 3: exfalso;
        destruct (evaluateScript_loaded globalObject s scriptBuffer w Hloads)
          as (script & fileName & scriptBuffer' & source & _ & _ & Heq);
        rewrite Heq in Hrun;
        destruct (interpret globalObject source _) as [w1 [result|thrown| |]];
        discriminate.
      split; assumption. }
    split; [exact Hfails|].
    rewrite evaluateScript_missing in Hrun by exact Hfails. congruence.
  - intros [Hfails ->]. apply evaluateScript_missing. exact Hfails.
Qed.

(** The three outcomes exclude one another. *)
Lemma loadFails_not_evaluated globalObject (s : Script) (scriptBuffer : Vector) (w : state) :
  loadFails s w ->
  ~ raisesException globalObject s scriptBuffer w /\
  ~ evaluatesWithoutException globalObject s scriptBuffer w.
Proof.
  intros Hfails. split.
  - intros (v & e & b & w' & Hrun).
    rewrite evaluateScript_missing in Hrun by exact Hfails. discriminate.
  - intros (v & b & w' & Hrun).
    rewrite evaluateScript_missing in Hrun by exact Hfails. discriminate.
Qed.

Lemma raises_not_clean globalObject (s : Script) (scriptBuffer : Vector) (w : state) :
  raisesException globalObject s scriptBuffer w ->
  ~ evaluatesWithoutException globalObject s scriptBuffer w.
Proof.
  intros (v & e & b & w' & Hrun) (v' & b' & w'' & Hrun'). congruence.
Qed.

(** *** The output of the loop body *)

Lemma reportEvaluation_clean globalObject dump returnValue (w : state) :
  reportEvaluation globalObject dump returnValue None w =
  Ret tt (if dump
          then with_stdout (stdout w +:+ ("End: " +:+ toWTFString (heap w) returnValue +:+ newline)) w
          else w).
Proof. unfold reportEvaluation. destruct dump; reflexivity. Qed.

Lemma reportEvaluation_returns globalObject dump returnValue evaluationException (w : state) :
  exists w', reportEvaluation globalObject dump returnValue evaluationException w = Ret tt w'.
Proof.
  destruct evaluationException as [e|].
  - unfold reportEvaluation. rewrite andb_false_r.
    unfold bind, ret, gets, printf, modify. simpl.
    destruct (negb (isUndefinedOrNull _)); eauto.
  - rewrite reportEvaluation_clean. eauto.
Qed.

(** *** The loop body *)

Lemma endOfIteration_exception (w : state) : exception (endOfIteration w) = None.
Proof. reflexivity. Qed.

Lemma scriptsLoopBody_unfold globalObject dump (s : Script) success (scriptBuffer : Vector)
    (w : state) :
  scriptsLoopBody globalObject dump s (success, scriptBuffer) w =
  match evaluateScript globalObject s scriptBuffer w with
  | Ret None w1 => Ret (Return false) w1
  | Ret (Some (returnValue, evaluationException, scriptBuffer')) w1 =>
    match reportEvaluation globalObject dump returnValue evaluationException w1 with
    | Ret _ w2 =>
      Ret (Next (success && negb (hasException evaluationException), scriptBuffer'))
          (endOfIteration w2)
    | Exit status w2 => Exit status w2
    | Fault a w2 => Fault a w2
    end
  | Exit status w1 => Exit status w1
  | Fault a w1 => Fault a w1
  end.
Proof.
  unfold scriptsLoopBody, bind.
  destruct (evaluateScript globalObject s scriptBuffer w)
    as [[[[returnValue evaluationException] scriptBuffer']|] w1|status w1|a w1];
    try reflexivity.
  all: destruct (reportEvaluation globalObject dump returnValue evaluationException w1);
    reflexivity.
Qed.

Lemma scriptsLoopBody_endsWell globalObject dump (s : Script) carried (w : state) :
  endsWell (scriptsLoopBody globalObject dump s carried w).
Proof.
  destruct carried as [success scriptBuffer]. rewrite scriptsLoopBody_unfold.
  pose proof (evaluateScript_endsWell globalObject s scriptBuffer w) as Hends.
  destruct (evaluateScript globalObject s scriptBuffer w)
    as [[[[returnValue evaluationException] scriptBuffer']|] w1|status w1|a w1];
    try exact Hends.
  destruct (reportEvaluation_returns globalObject dump returnValue evaluationException w1)
    as (w2 & ->).
  exact I.
Qed.

(** The body returns [false] from the function exactly when the file of
    the script cannot be loaded. *)
Lemma scriptsLoopBody_Return globalObject dump (s : Script) carried (w : state) b w' :
  scriptsLoopBody globalObject dump s carried w = Ret (Return b) w' ->
  b = false /\ loadFails s w /\
  w' = with_stderr (stderr w +:+ ("Could not open file: " +:+ argument s +:+ newline)) w.
Proof.
  destruct carried as [success scriptBuffer]. rewrite scriptsLoopBody_unfold.
  destruct (evaluateScript globalObject s scriptBuffer w)
    as [[[[returnValue evaluationException] scriptBuffer']|] w1|status w1|a w1] eqn:Hrun;
    try discriminate.
  - destruct (reportEvaluation globalObject dump returnValue evaluationException w1);
      discriminate.
  - intros [= <- <-]. apply evaluateScript_None in Hrun. tauto.
Qed.

(** The body goes on to the next script exactly when the script was
    evaluated; the flag it hands on is lowered by an exception only. *)
Lemma scriptsLoopBody_Next globalObject dump (s : Script) success (scriptBuffer : Vector)
    (w : state) success' scriptBuffer' w' :
  scriptsLoopBody globalObject dump s (success, scriptBuffer) w =
    Ret (Next (success', scriptBuffer')) w' ->
  (raisesException globalObject s scriptBuffer w /\ success' = false) \/
  (evaluatesWithoutException globalObject s scriptBuffer w /\ success' = success).
Proof.
  rewrite scriptsLoopBody_unfold.
  destruct (evaluateScript globalObject s scriptBuffer w)
    as [[[[returnValue evaluationException] buffer]|] w1|status w1|a w1] eqn:Hrun;
    try discriminate.
  destruct (reportEvaluation globalObject dump returnValue evaluationException w1);
    try discriminate.
  intros [= <- <- <-].
  destruct evaluationException as [thrown|]; simpl.
  - left. split; [|apply andb_false_r]. unfold raisesException. eauto.
  - right. split; [|apply andb_true_r]. unfold evaluatesWithoutException. eauto.
Qed.

(** *** The loop *)

Lemma scriptsLoop_cons globalObject dump (s : Script) rest carried (w : state) :
  scriptsLoop globalObject dump (s :: rest) carried w =
  match scriptsLoopBody globalObject dump s carried w with
  | Ret (Next carried') w' => scriptsLoop globalObject dump rest carried' w'
  | Ret (Return b) w' => Ret (Return b) w'
  | Exit status w' => Exit status w'
  | Fault a w' => Fault a w'
  end.
Proof.
  simpl. unfold bind.
  destruct (scriptsLoopBody globalObject dump s carried w) as [[c|b] w'|status w'|a w'];
    reflexivity.
Qed.


Lemma scriptsLoop_endsWell globalObject dump (scripts : list Script) :
  forall carried (w : state),
  endsWell (scriptsLoop globalObject dump scripts carried w).
Proof.
  induction scripts as [|s rest IH]; intros carried w.
  - exact I.
  - rewrite scriptsLoop_cons.
    pose proof (scriptsLoopBody_endsWell globalObject dump s carried w) as Hends.
    destruct (scriptsLoopBody globalObject dump s carried w)
      as [[carried'|b] w'|status w'|a w']; try exact Hends. apply IH.
Qed.

Lemma standsAt_first globalObject dump (s : Script) rest success scriptBuffer (w : state) :
  standsAt globalObject dump (s :: rest) (success, scriptBuffer) w s scriptBuffer w.
Proof. exists [], rest, success. split; reflexivity. Qed.

Lemma standsAt_later globalObject dump (x : Script) rest carried (w : state)
    carried1 w1 s scriptBuffer w' :
  scriptsLoopBody globalObject dump x carried w = Ret (Next carried1) w1 ->
  standsAt globalObject dump rest carried1 w1 s scriptBuffer w' ->
  standsAt globalObject dump (x :: rest) carried w s scriptBuffer w'.
Proof.
  intros Hbody (before & after & success & -> & Hrun).
  exists (x :: before), after, success. split; [reflexivity|].
  rewrite scriptsLoop_cons, Hbody. exact Hrun.
Qed.

(** How the loop ends, in terms of what happened to the scripts it came
    to. *)
Lemma scriptsLoop_outcome globalObject dump (scripts : list Script) :
  forall success (scriptBuffer : Vector) (w : state) r w',
  scriptsLoop globalObject dump scripts (success, scriptBuffer) w = Ret r w' ->
  match r with
  | Return b =>
    b = false /\
    exists s scriptBuffer1 w1,
      standsAt globalObject dump scripts (success, scriptBuffer) w s scriptBuffer1 w1 /\
      loadFails s w1
  | Next (success', _) =>
    (success' = false ->
       success = false \/
       exists s scriptBuffer1 w1,
         standsAt globalObject dump scripts (success, scriptBuffer) w s scriptBuffer1 w1 /\
         raisesException globalObject s scriptBuffer1 w1) /\
    (success' = true ->
       success = true /\
       forall before s after, scripts = before ++ s :: after ->
         exists flag scriptBuffer1 w1,
           scriptsLoop globalObject dump before (success, scriptBuffer) w =
             Ret (Next (flag, scriptBuffer1)) w1 /\
           evaluatesWithoutException globalObject s scriptBuffer1 w1)
  end.
Proof.
  induction scripts as [|x rest IH]; intros success scriptBuffer w r w' Hrun.
  - simpl in Hrun. unfold ret in Hrun. injection Hrun as <- <-. split.
    + auto.
    + intros ->. split; [reflexivity|]. intros [|? ?] ? ? ?; discriminate.
  - rewrite scriptsLoop_cons in Hrun.
    destruct (scriptsLoopBody globalObject dump x (success, scriptBuffer) w)
      as [[[success1 scriptBuffer1]|b] w1|status w1|a w1] eqn:Hbody; try discriminate.
    + (* the body went on to the rest of the list *)
      specialize (IH success1 scriptBuffer1 w1 r w' Hrun).
      pose proof (scriptsLoopBody_Next _ _ _ _ _ _ _ _ _ Hbody) as Hx.
      destruct r as [[success' scriptBuffer']|b].
      * destruct IH as [IHfalse IHtrue]. split.
        -- intros Hflag. destruct (IHfalse Hflag) as [->|(s & b1 & w2 & Hat & Hraises)].
           ++ destruct Hx as [[Hraises _]|[_ <-]]; [|auto].
              right. exists x, scriptBuffer, w. split; [apply standsAt_first|exact Hraises].
           ++ right. exists s, b1, w2. split; [|exact Hraises].
              eapply standsAt_later; eassumption.
        -- intros Hflag. destruct (IHtrue Hflag) as [-> Hall].
           destruct Hx as [[_ Habs]|[Hclean <-]]; [discriminate|].
           split; [reflexivity|].
           intros [|y before] s after Heq; simpl in Heq; injection Heq as <- ->.
           ++ exists true, scriptBuffer, w. split; [reflexivity|exact Hclean].
           ++ destruct (Hall before s after eq_refl) as (flag & b1 & w2 & Hreach & Hs).
              exists flag, b1, w2. split; [|exact Hs].
              rewrite scriptsLoop_cons, Hbody. exact Hreach.
      * destruct IH as [-> (s & b1 & w2 & Hat & Hfails)]. split; [reflexivity|].
        exists s, b1, w2. split; [|exact Hfails].
        eapply standsAt_later; eassumption.
    + (* the body returned from the function *)
      injection Hrun as <- <-.
      destruct (scriptsLoopBody_Return _ _ _ _ _ _ _ Hbody) as (-> & Hfails & _).
      split; [reflexivity|].
      exists x, scriptBuffer, w. split; [apply standsAt_first|exact Hfails].
Qed.

End DriverFacts.

(** ** runWithScripts *)

Section RunFacts.

Context {E : Engine}.

Lemma runWithScripts_unfold globalObject (scripts : list Script) dump (w : state) :
  exists w0,
    beforeScripts dump w = Ret tt w0 /\
    runWithScripts globalObject scripts dump w =
    match scriptsLoop globalObject dump scripts (true, []) w0 with
    | Ret (Return b) w1 => Ret b w1
    | Ret (Next (success, _)) w1 => Ret success (with_heap (dumpSampleData (heap w1)) w1)
    | Exit status w1 => Exit status w1
    | Fault a w1 => Fault a w1
    end.
Proof.
  unfold runWithScripts, bind.
  destruct dump; simpl; (eexists; split; [reflexivity|]);
    match goal with
    | |- context [scriptsLoop ?g ?d ?s ?c ?w0] =>
      destruct (scriptsLoop g d s c w0) as [[[success scriptBuffer]|b] w1|status w1|a w1]
    end; reflexivity.
Qed.

Lemma beforeScripts_returns dump (w : state) : exists w0, beforeScripts dump w = Ret tt w0.
Proof. destruct dump; simpl; eauto. Qed.

(** The state and the buffer in which the run arrives at a position of
    the list are determined by the list before it. *)
Lemma arrivesAfter_unique globalObject dump before (w : state)
    (scriptBuffer scriptBuffer' : Vector) w1 w1' :
  arrivesAfter globalObject dump before w scriptBuffer w1 ->
  arrivesAfter globalObject dump before w scriptBuffer' w1' ->
  scriptBuffer = scriptBuffer' /\ w1 = w1'.
Proof.
  intros (w0 & success & Hbefore & Hloop) (w0' & success' & Hbefore' & Hloop').
  rewrite Hbefore in Hbefore'. injection Hbefore' as <-.
  rewrite Hloop in Hloop'. injection Hloop' as _ <- <-. auto.
Qed.

Lemma failed_script_is_not_clean globalObject dump before (s : Script) (w : state)
    (scriptBuffer scriptBuffer' : Vector) w1 w1' :
  arrivesAfter globalObject dump before w scriptBuffer w1 ->
  loadFails s w1 \/ raisesException globalObject s scriptBuffer w1 ->
  arrivesAfter globalObject dump before w scriptBuffer' w1' ->
  evaluatesWithoutException globalObject s scriptBuffer' w1' ->
  False.
Proof.
  intros Hat Hfailed Hat' Hclean.
  destruct (arrivesAfter_unique _ _ _ _ _ _ _ _ Hat Hat') as [<- <-].
  destruct Hfailed as [Hfails|Hraises].
  - apply (loadFails_not_evaluated globalObject s scriptBuffer w1 Hfails). exact Hclean.
  - apply (raises_not_clean globalObject s scriptBuffer w1 Hraises). exact Hclean.
Qed.

(** [runWithScripts] stays inside the defined behaviour: it returns, or a
    script has called [quit], or a script runs for ever. *)
Lemma runWithScripts_endsWell globalObject (scripts : list Script) dump (w : state) :
  endsWell (runWithScripts globalObject scripts dump w).
Proof.
  destruct (runWithScripts_unfold globalObject scripts dump w) as (w0 & _ & ->).
  pose proof (scriptsLoop_endsWell globalObject dump scripts (true, []) w0) as Hends.
  destruct (scriptsLoop globalObject dump scripts (true, []) w0)
    as [[[success scriptBuffer]|b] w1|status w1|a w1]; exact Hends.
Qed.

(** The loop body sees an exception exactly when the interpreter ends the
    program of the script with one, and none exactly when the interpreter
    ends it normally. *)
Lemma loadFails_no_source (s : Script) (w : state) :
  loadFails s w -> sourceOfScript s w = None.
Proof. intros [Hs Hfile]. unfold sourceOfScript. rewrite Hs, Hfile. reflexivity. Qed.

Lemma raisesException_engine globalObject (s : Script) (scriptBuffer : Vector) (w : state) :
  raisesException globalObject s scriptBuffer w <-> engineRaises globalObject s w.
Proof.
  unfold raisesException, engineRaises, engineOutcome. split.
  - intros (returnValue & thrown & scriptBuffer' & w' & Hrun).
    assert (Hloads : ~ loadFails s w).
    { intros Hfails. rewrite evaluateScript_missing in Hrun by exact Hfails.
      discriminate. }
    destruct (evaluateScript_engine globalObject s scriptBuffer w Hloads)
      as (source & buffer & -> & Heq).
    rewrite Heq in Hrun.
    destruct (interpret globalObject source _) as [w1 [result|e| |]];
      try discriminate.
    injection Hrun as _ <- _ <-. eauto.
  - intros (w' & thrown & Hengine).
    assert (Hloads : ~ loadFails s w).
    { intros Hfails. rewrite loadFails_no_source in Hengine by exact Hfails.
      discriminate. }
    destruct (evaluateScript_engine globalObject s scriptBuffer w Hloads)
      as (source & buffer & Hsource & Heq).
    rewrite Hsource in Hengine. injection Hengine as Hengine.
    rewrite Hengine in Heq. eauto.
Qed.

Lemma evaluatesWithoutException_engine globalObject (s : Script) (scriptBuffer : Vector)
    (w : state) :
  evaluatesWithoutException globalObject s scriptBuffer w <->
  engineCompletes globalObject s w.
Proof.
  unfold evaluatesWithoutException, engineCompletes, engineOutcome. split.
  - intros (returnValue & scriptBuffer' & w' & Hrun).
    assert (Hloads : ~ loadFails s w).
    { intros Hfails. rewrite evaluateScript_missing in Hrun by exact Hfails.
      discriminate. }
    destruct (evaluateScript_engine globalObject s scriptBuffer w Hloads)
      as (source & buffer & -> & Heq).
    rewrite Heq in Hrun.
    destruct (interpret globalObject source _) as [w1 [result|e| |]];
      try discriminate.
    injection Hrun as <- _ <-. eauto.
  - intros (w' & result & Hengine).
    assert (Hloads : ~ loadFails s w).
    { intros Hfails. rewrite loadFails_no_source in Hengine by exact Hfails.
      discriminate. }
    destruct (evaluateScript_engine globalObject s scriptBuffer w Hloads)
      as (source & buffer & Hsource & Heq).
    rewrite Hsource in Hengine. injection Hengine as Hengine.
    rewrite Hengine in Heq. eauto.
Qed.

Lemma aScriptFailed_engine globalObject dump (scripts : list Script) (w : state) :
  aScriptFailed globalObject dump scripts w <-> aScriptFails globalObject dump scripts w.
Proof.
  unfold aScriptFailed, aScriptFails. split.
  - intros (before & s & after & scriptBuffer & w1 & Hsplit & Hat & [Hload|Hraises]).
    + exists before, s, after, scriptBuffer, w1. auto.
    + exists before, s, after, scriptBuffer, w1.
      split; [exact Hsplit|]. split; [exact Hat|]. right.
      apply (raisesException_engine globalObject s scriptBuffer w1). exact Hraises.
  - intros (before & s & after & scriptBuffer & w1 & Hsplit & Hat & [Hload|Hraises]).
    + exists before, s, after, scriptBuffer, w1. auto.
    + exists before, s, after, scriptBuffer, w1.
      split; [exact Hsplit|]. split; [exact Hat|]. right.
      apply (raisesException_engine globalObject s scriptBuffer w1). exact Hraises.
Qed.

Lemma everyScriptEvaluated_engine globalObject dump (scripts : list Script) (w : state) :
  everyScriptEvaluated globalObject dump scripts w <->
  everyScriptCompletes globalObject dump scripts w.
Proof.
  unfold everyScriptEvaluated, everyScriptCompletes. split.
  - intros Hall before s after Hsplit.
    destruct (Hall before s after Hsplit) as (scriptBuffer & w1 & Hat & Hclean).
    exists scriptBuffer, w1. split; [exact Hat|].
    apply (evaluatesWithoutException_engine globalObject s scriptBuffer w1). exact Hclean.
  - intros Hall before s after Hsplit.
    destruct (Hall before s after Hsplit) as (scriptBuffer & w1 & Hat & Hclean).
    exists scriptBuffer, w1. split; [exact Hat|].
    apply (evaluatesWithoutException_engine globalObject s scriptBuffer w1). exact Hclean.
Qed.

(** What the value [runWithScripts] returns says about the scripts. *)
Lemma runWithScripts_verdict globalObject (scripts : list Script) dump (w : state) b w' :
  runWithScripts globalObject scripts dump w = Ret b w' ->
  (b = false <-> aScriptFailed globalObject dump scripts w) /\
  (b = true <-> everyScriptEvaluated globalObject dump scripts w).
Proof.
  intros Hrun. unfold aScriptFailed, everyScriptEvaluated.
  destruct (runWithScripts_unfold globalObject scripts dump w) as (w0 & Hbefore & Heq).
  rewrite Heq in Hrun. clear Heq.
  destruct (scriptsLoop globalObject dump scripts (true, []) w0)
    as [r w1|status w1|a w1] eqn:Hloop; try discriminate.
  pose proof (scriptsLoop_outcome _ _ _ _ _ _ _ _ Hloop) as Hout.
  assert (Hfalse : b = false ->
     exists before s after scriptBuffer w1,
       scripts = before ++ s :: after /\
       arrivesAfter globalObject dump before w scriptBuffer w1 /\
       (loadFails s w1 \/ raisesException globalObject s scriptBuffer w1)).
  { intros ->. destruct r as [[success scriptBuffer]|b].
    - injection Hrun as -> _. destruct Hout as [Hout _].
      destruct (Hout eq_refl) as [Habs|(s & b1 & w2 & Hat & Hraises)]; [discriminate|].
      destruct Hat as (before & after & flag & -> & Hreach).
      exists before, s, after, b1, w2. split; [reflexivity|]. split; [|auto].
      exists w0, flag. auto.
    - destruct Hout as [_ (s & b1 & w2 & Hat & Hfails)].
      destruct Hat as (before & after & flag & -> & Hreach).
      exists before, s, after, b1, w2. split; [reflexivity|]. split; [|auto].
      exists w0, flag. auto. }
  assert (Htrue : b = true ->
     forall before s after, scripts = before ++ s :: after ->
       exists scriptBuffer w1,
         arrivesAfter globalObject dump before w scriptBuffer w1 /\
         evaluatesWithoutException globalObject s scriptBuffer w1).
  { intros ->. destruct r as [[success scriptBuffer]|b].
    - injection Hrun as -> _. destruct Hout as [_ Hout].
      destruct (Hout eq_refl) as [_ Hall].
      intros before s after Heq.
      destruct (Hall before s after Heq) as (flag & b1 & w2 & Hreach & Hclean).
      exists b1, w2. split; [|exact Hclean]. exists w0, flag. auto.
    - destruct Hout as [-> _]. injection Hrun as Habs _. discriminate. }
  split; split.
  - exact Hfalse.
  - intros (before & s & after & b1 & w2 & -> & Hat & Hfailed).
    destruct b; [|reflexivity]. exfalso.
    destruct (Htrue eq_refl before s after eq_refl) as (b1' & w2' & Hat' & Hclean).
    exact (failed_script_is_not_clean _ _ _ _ _ _ _ _ _ Hat Hfailed Hat' Hclean).
  - exact Htrue.
  - intros Hall. destruct b; [reflexivity|]. exfalso.
    destruct (Hfalse eq_refl) as (before & s & after & b1 & w2 & -> & Hat & Hfailed).
    destruct (Hall before s after eq_refl) as (b1' & w2' & Hat' & Hclean).
    exact (failed_script_is_not_clean _ _ _ _ _ _ _ _ _ Hat Hfailed Hat' Hclean).
Qed.


(** C1: when [runWithScripts] returns, it returns [false] if and only if a
    script failed: the run came to a script whose file does not open (the
    run stopped there), or to a script whose program the interpreter ended
    with an uncaught exception. Equivalently it returns [true] if and only
    if the run came to every script of the list and the interpreter ended
    the program of every one of them normally. What the interpreter does is
    told by the interpreter itself, on the text of the script, and not by
    the loop. The function returns, or ends in the [quit] of a script, as
    soon as the interpreter returns on every program. *)
Theorem runWithScripts_false_iff_a_script_failed
    globalObject (scripts : list Script) dump (w : state) :
  (forall b w', runWithScripts globalObject scripts dump w = Ret b w' ->
     (b = false <-> aScriptFails globalObject dump scripts w) /\
     (b = true <-> everyScriptCompletes globalObject dump scripts w)) /\
  (interpreterReturns ->
     returnsOrQuits (runWithScripts globalObject scripts dump w)).
Proof.
  split.
  - intros b w' Hrun.
    destruct (runWithScripts_verdict _ _ _ _ _ _ Hrun) as [Hfalse Htrue].
    rewrite <- aScriptFailed_engine, <- everyScriptEvaluated_engine.
    split; assumption.
  - intros Hreturns. apply endsWell_returns; [exact Hreturns|].
    apply runWithScripts_endsWell.
Qed.


(** C3: when the evaluation of a script [A] raises an exception, the loop
    body goes on to the next script with the aggregate lowered and with no
    exception pending; and if the evaluation of the next script [B] then
    raises none, the body for [B] leaves the aggregate it is given as it
    is ([true] stays [true]), prints no [Exception:] line (it prints the
    [End:] line when dumping and nothing otherwise) and again leaves no
    exception pending. *)
Theorem exception_state_does_not_leak
    globalObject dump (A : Script) successBefore (bufferBefore : Vector) (w : state) :
  raisesException globalObject A bufferBefore w ->
  exists bufferA wA,
    scriptsLoopBody globalObject dump A (successBefore, bufferBefore) w =
      Ret (Next (false, bufferA)) wA /\
    exception wA = None /\
    forall (B : Script) returnValue bufferB wB,
      evaluateScript globalObject B bufferA wA =
        Ret (Some (returnValue, None, bufferB)) wB ->
      forall success,
        let wB' :=
          if dump
          then with_stdout
                 (stdout wB +:+ ("End: " +:+ toWTFString (heap wB) returnValue +:+ newline)) wB
          else wB in
        scriptsLoopBody globalObject dump B (success, bufferA) wA =
          Ret (Next (success, bufferB)) (endOfIteration wB') /\
        exception (endOfIteration wB') = None.
Proof.
  intros (v & thrown & bufferA & w1 & HrunA).
  destruct (reportEvaluation_returns globalObject dump v (Some thrown) w1)
    as (w2 & Hreport).
  exists bufferA, (endOfIteration w2). split; [|split].
  - rewrite scriptsLoopBody_unfold, HrunA, Hreport.
    simpl hasException. rewrite andb_false_r. reflexivity.
  - reflexivity.
  - intros B returnValue bufferB wB HrunB success. cbv zeta.
    rewrite scriptsLoopBody_unfold, HrunB, reportEvaluation_clean.
    simpl hasException. rewrite andb_true_r. split; reflexivity.
Qed.

End RunFacts.

(** The three theorems on the small engine. *)

Example small_run_of_three_scripts :
  runWithScripts (E := SmallEngine) tt
    [ {| isFile := false; argument := "1+1" |};
      {| isFile := false; argument := "throw 1" |};
      {| isFile := true; argument := "a.js" |} ] false small_world =
  Ret false (with_stdout ("Exception: Error: boom" +:+ newline) small_world).
Proof. vm_compute. reflexivity. Qed.

Lemma runWithScripts_false_iff_a_script_failed_witness :
  runWithScripts (E := SmallEngine) tt
    [ {| isFile := false; argument := "1+1" |};
      {| isFile := false; argument := "throw 1" |};
      {| isFile := true; argument := "a.js" |} ] false small_world =
  Ret false (with_stdout ("Exception: Error: boom" +:+ newline) small_world) /\
  engineOutcome (E := SmallEngine) tt {| isFile := false; argument := "throw 1" |}
    small_world = Some (small_world, Threw (SmallError "boom")) /\
  aScriptFails (E := SmallEngine) tt false
    [ {| isFile := false; argument := "1+1" |};
      {| isFile := false; argument := "throw 1" |};
      {| isFile := true; argument := "a.js" |} ] small_world /\
  ~ everyScriptCompletes (E := SmallEngine) tt false
      [ {| isFile := false; argument := "1+1" |};
        {| isFile := false; argument := "throw 1" |};
        {| isFile := true; argument := "a.js" |} ] small_world.
Proof.
  assert (Hrun :
    runWithScripts (E := SmallEngine) tt
      [ {| isFile := false; argument := "1+1" |};
        {| isFile := false; argument := "throw 1" |};
        {| isFile := true; argument := "a.js" |} ] false small_world =
    Ret false (with_stdout ("Exception: Error: boom" +:+ newline) small_world))
    by (vm_compute; reflexivity).
  destruct (proj1 (runWithScripts_false_iff_a_script_failed (E := SmallEngine) tt
                     [ {| isFile := false; argument := "1+1" |};
                       {| isFile := false; argument := "throw 1" |};
                       {| isFile := true; argument := "a.js" |} ] false small_world)
              false _ Hrun) as [Hfalse Htrue].
  split; [exact Hrun|]. split; [vm_compute; reflexivity|].
  split; [exact (proj1 Hfalse eq_refl)|].
  intros Hall. apply Htrue in Hall. discriminate.
Defined.


Lemma exception_state_does_not_leak_witness :
  exists bufferA wA,
    scriptsLoopBody (E := SmallEngine) tt false
      {| isFile := false; argument := "throw 1" |} (true, []) small_world =
      Ret (Next (false, bufferA)) wA /\
    exception wA = None /\
    scriptsLoopBody (E := SmallEngine) tt false
      {| isFile := false; argument := "1+1" |} (true, bufferA) wA =
      Ret (Next (true, bufferA)) wA.
Proof.
  destruct (exception_state_does_not_leak (E := SmallEngine) tt false
              {| isFile := false; argument := "throw 1" |} true [] small_world)
    as (bufferA & wA & HA & Hpending & HB).
  - exists SmallUndefined, (SmallError "boom"), [], small_world. reflexivity.
  - exists bufferA, wA. split; [exact HA|]. split; [exact Hpending|].
    vm_compute in HA. injection HA as <- <-.
    exact (proj1 (HB {| isFile := false; argument := "1+1" |}
                     SmallUndefined [] _ eq_refl true)).
Defined.

(** ** CommandLine::parseArguments *)

Section ParseFacts.

Context {E : Engine}.

Lemma nothingExecuted_refl (w : state) : nothingExecuted w w.
Proof. repeat split. Qed.

Lemma nothingExecuted_trans (w1 w2 w3 : state) :
  nothingExecuted w1 w2 -> nothingExecuted w2 w3 -> nothingExecuted w1 w3.
Proof.
  unfold nothingExecuted. intros (? & ? & ? & ? & ?) (? & ? & ? & ? & ?).
  repeat split; congruence.
Qed.

Lemma nothingExecuted_stderr text (w : state) :
  nothingExecuted w (with_stderr text w).
Proof. repeat split. Qed.

Lemma nothingExecuted_vm_options o (w : state) :
  nothingExecuted w (with_vm_options o w).
Proof. repeat split. Qed.

Lemma printUsageStatement_exits {A : Type} help (w : state) :
  printUsageStatement (A := A) help w =
  Exit (if help then EXIT_SUCCESS else EXIT_FAILURE) (with_stderr (stderr w +:+ usage) w).
Proof. reflexivity. Qed.

Lemma parseLoopEnds_weaken c c' exitAfter exitAfter' (r : Result Parsed) :
  (exists later, m_scripts c' = m_scripts c ++ later) ->
  (exitAfter = true -> exitAfter' = true) ->
  parseLoopEnds c' exitAfter' r -> parseLoopEnds c exitAfter r.
Proof.
  intros (l & Hl) Hexit. destruct r as [p w|status w|a w]; simpl; try tauto.
  intros [(later & ->) Hp]. split; [|auto].
  rewrite Hl, <- app_assoc. eauto.
Qed.

(** What the first loop of the parser can do: it keeps the scripts it was
    given, prints on the error stream and sets VM options only, and ends the
    process with the status of [printUsageStatement] only. *)
Lemma parseLoop_invariant (n : nat) :
  forall (args : list string) c dumpOptions exitAfter (w : state),
  length args <= n ->
  nothingExecuted w (finalState (parseLoop args c dumpOptions exitAfter w)) /\
  parseLoopEnds c exitAfter (parseLoop args c dumpOptions exitAfter w).
Proof.
  induction n as [|n IH]; intros args c dumpOptions exitAfter w Hlen.
  - destruct args; [|simpl in Hlen; lia]. simpl. split.
    + apply nothingExecuted_refl.
    + split; [exists []; symmetry; apply app_nil_r|auto].
  - destruct args as [|arg rest].
    { simpl. split; [apply nothingExecuted_refl|].
      split; [exists []; symmetry; apply app_nil_r|auto]. }
    simpl in Hlen.
    assert (Hrest : length rest <= n) by lia.
    assert (Hsame : forall c', m_scripts c' = m_scripts c ->
                      exists later, m_scripts c' = m_scripts c ++ later)
      by (intros c' ->; exists []; symmetry; apply app_nil_r).
    assert (Hnext : forall c' d x (w' : state),
               (exists later, m_scripts c' = m_scripts c ++ later) ->
               (exitAfter = true -> x = true) ->
               nothingExecuted w w' ->
               nothingExecuted w (finalState (parseLoop rest c' d x w')) /\
               parseLoopEnds c exitAfter (parseLoop rest c' d x w')).
    { intros c' d x w' Hc' Hx Hw'.
      destruct (IH rest c' d x w' Hrest) as [Hw Hs]. split.
      - eapply nothingExecuted_trans; eassumption.
      - eapply parseLoopEnds_weaken; eassumption. }
    assert (Husage : forall help,
               nothingExecuted w (finalState (printUsageStatement (A := Parsed) help w)) /\
               parseLoopEnds c exitAfter (printUsageStatement (A := Parsed) help w)).
    { intros help. rewrite printUsageStatement_exits. simpl.
      split; [apply nothingExecuted_stderr|]. destruct help; auto. }
    assert (Hoperand : forall (f : string -> CommandLine),
               (forall a, exists later, m_scripts (f a) = m_scripts c ++ later) ->
               nothingExecuted w
                 (finalState (match rest with
                              | [] => printUsageStatement false
                              | a :: rest' => parseLoop rest' (f a) dumpOptions exitAfter
                              end w)) /\
               parseLoopEnds c exitAfter
                 (match rest with
                  | [] => printUsageStatement false
                  | a :: rest' => parseLoop rest' (f a) dumpOptions exitAfter
                  end w)).
    { intros f Hf. destruct rest as [|a rest']; [apply Husage|].
      simpl in Hrest.
      destruct (IH rest' (f a) dumpOptions exitAfter w) as [Hw Hs]; [lia|].
      split; [exact Hw|].
      eapply parseLoopEnds_weaken; [apply Hf| |exact Hs]. auto. }
    simpl parseLoop.
    destruct (String.eqb arg "-f").
    { apply Hoperand. intros a. simpl. eauto. }
    destruct (String.eqb arg "-e").
    { apply Hoperand. intros a. simpl. eauto. }
    destruct (String.eqb arg "-i");
      [apply Hnext; [apply Hsame; reflexivity|auto|apply nothingExecuted_refl]|].
    destruct (String.eqb arg "-d");
      [apply Hnext; [apply Hsame; reflexivity|auto|apply nothingExecuted_refl]|].
    destruct (String.eqb arg "-p").
    { apply Hoperand. intros a. apply Hsame. reflexivity. }
    destruct (String.eqb arg "-s");
      [apply Hnext; [apply Hsame; reflexivity|auto|apply nothingExecuted_refl]|].
    destruct (String.eqb arg "-x");
      [apply Hnext; [apply Hsame; reflexivity|auto|apply nothingExecuted_refl]|].
    destruct (String.eqb arg "--").
    { simpl. split; [apply nothingExecuted_refl|]. split; [apply Hsame; reflexivity|auto]. }
    destruct (String.eqb arg "-h" || String.eqb arg "--help"); [apply Husage|].
    destruct (String.eqb arg "--options");
      [apply Hnext; [apply Hsame; reflexivity|auto|apply nothingExecuted_refl]|].
    destruct (String.eqb arg "--dumpOptions");
      [apply Hnext; [apply Hsame; reflexivity|auto|apply nothingExecuted_refl]|].
    destruct arg as [|a0 [|a1 name]];
      try (simpl; split; [apply nothingExecuted_refl|reflexivity]).
    unfold bind, gets.
    destruct (setOption name (vm_options w)) as [updated|].
    + unfold modify.
      apply Hnext; [apply Hsame; reflexivity|auto|apply nothingExecuted_vm_options].
    + apply Hnext; [simpl; eauto|auto|apply nothingExecuted_refl].
Qed.

(** The parser as a whole: it runs nothing, and it ends the process with the
    status 0 or 1 only. *)
Lemma parseArguments_invariant (argv : list string) c (w : state) :
  nothingExecuted w (finalState (parseArguments argv c w)) /\
  match parseArguments argv c w with
  | Ret _ _ => True
  | Exit status _ => status = EXIT_SUCCESS \/ status = EXIT_FAILURE
  | Fault a _ => a = UndefinedBehaviour
  end.
Proof.
  unfold parseArguments, bind.
  destruct (parseLoop_invariant (length (drop 1 argv)) (drop 1 argv) c false false w)
    as [Hw Hs]; [lia|].
  destruct (parseLoop (drop 1 argv) c false false w) as [p w1|status w1|a w1];
    simpl in *; try (split; assumption).
  clear Hs.
  destruct (needToDumpOptions p); simpl.
  - destruct (needToExit p); simpl;
      (split; [eapply nothingExecuted_trans;
                 [exact Hw|apply nothingExecuted_stderr]|auto]).
  - destruct (needToExit p); simpl; auto.
Qed.

(** C5: whenever [parseArguments] returns (it ends the process for a usage
    error, for the help and for [--options]), the configuration it leaves
    with an empty list of scripts has the interactive flag set, whatever the
    argument vector is and whether or not it holds [-i]. *)
Theorem empty_script_list_forces_interactive
    (argv : list string) c (w : state) options w' :
  parseArguments argv c w = Ret options w' ->
  m_scripts options = [] ->
  m_interactive options = true.
Proof.
  unfold parseArguments, bind.
  destruct (parseLoop (drop 1 argv) c false false w) as [p w1|status w1|a w1];
    try discriminate.
  intros Hrun.
  assert (Hoptions : options =
            appendArguments (remaining p)
              (if bool_decide (m_scripts (parsed_options p) = [])
               then setInteractive (parsed_options p) else parsed_options p)).
  { destruct (needToDumpOptions p), (needToExit p); simpl in Hrun;
      try discriminate; unfold ret in Hrun; congruence. }
  rewrite Hoptions. clear Hrun Hoptions.
  destruct (bool_decide_reflect (m_scripts (parsed_options p) = [])) as [Hempty|Hsome].
  - reflexivity.
  - simpl. intros Hempty. contradiction.
Qed.

(** C7: a token that starts with [--], is none of [--], [--help],
    [--options] and [--dumpOptions], and that the option system of the
    engine does not accept, is no error for the parser: the loop goes on
    with the next token after it has appended the token itself to the list
    of scripts as a file-backed script, and the script is in the list the
    loop ends with. *)
Theorem unknown_long_option_becomes_a_file_script
    (name : string) (rest : list string) c dumpOptions exitAfter (w : state) :
  name <> "" -> name <> "help" -> name <> "options" -> name <> "dumpOptions" ->
  setOption name (vm_options w) = None ->
  parseLoop (("--" +:+ name) :: rest) c dumpOptions exitAfter w =
  parseLoop rest (appendScript {| isFile := true; argument := "--" +:+ name |} c)
    dumpOptions exitAfter w /\
  forall p w', parseLoop (("--" +:+ name) :: rest) c dumpOptions exitAfter w = Ret p w' ->
    exists later,
      m_scripts (parsed_options p) =
      m_scripts c ++ {| isFile := true; argument := "--" +:+ name |} :: later.
Proof.
  intros Hsep Hhelp Hoptions Hdump Hengine.
  assert (Hstep :
    parseLoop (("--" +:+ name) :: rest) c dumpOptions exitAfter w =
    parseLoop rest (appendScript {| isFile := true; argument := "--" +:+ name |} c)
      dumpOptions exitAfter w).
  { apply String.eqb_neq in Hsep, Hhelp, Hoptions, Hdump.
    assert (Hshort : forall flag, String.eqb ("--" +:+ name) (String "-" (String flag "")) =
                                  Ascii.eqb "-" flag && String.eqb name "").
    { intros flag. simpl. destruct (Ascii.eqb "-" flag); reflexivity. }
    assert (Hlong : forall s, String.eqb ("--" +:+ name) ("--" +:+ s) = String.eqb name s)
      by reflexivity.
    cbn -[String.eqb].
    change "-f" with (String "-" (String "f" "")).
    change "-e" with (String "-" (String "e" "")).
    change "-i" with (String "-" (String "i" "")).
    change "-d" with (String "-" (String "d" "")).
    change "-p" with (String "-" (String "p" "")).
    change "-s" with (String "-" (String "s" "")).
    change "-x" with (String "-" (String "x" "")).
    change "-h" with (String "-" (String "h" "")).
    change (String "-" (String "-" name)) with ("--" +:+ name).
    rewrite !Hshort.
    change "--" with ("--" +:+ "") at 2.
    change "--help" with ("--" +:+ "help").
    change "--options" with ("--" +:+ "options").
    change "--dumpOptions" with ("--" +:+ "dumpOptions").
    rewrite !Hlong, Hsep, Hhelp, Hoptions, Hdump. cbn -[String.eqb].
    unfold bind, gets. simpl. change ("" +:+ name) with name.
    rewrite Hengine. reflexivity. }
  split; [exact Hstep|].
  intros p w' Hrun. rewrite Hstep in Hrun.
  destruct (parseLoop_invariant (length rest) rest
              (appendScript {| isFile := true; argument := "--" +:+ name |} c)
              dumpOptions exitAfter w) as [_ Hs]; [lia|].
  rewrite Hrun in Hs. destruct Hs as [(later & ->) _].
  exists later. simpl. rewrite <- app_assoc. reflexivity.
Qed.

End ParseFacts.

Lemma empty_script_list_forces_interactive_witness :
  newCommandLine (E := SmallEngine) ["jsc"; "-x"; "--useJIT=false"] small_world =
    Ret {| m_interactive := true; m_dump := false; m_exitCode := true;
           m_scripts := []; m_arguments := []; m_profile := false;
           m_profilerOutput := "" |}
        (with_vm_options (E := SmallEngine) ["useJIT=false"] small_world) /\
  m_interactive
    {| m_interactive := true; m_dump := false; m_exitCode := true;
       m_scripts := []; m_arguments := []; m_profile := false;
       m_profilerOutput := "" |} = true.
Proof.
  assert (Hrun :
    newCommandLine (E := SmallEngine) ["jsc"; "-x"; "--useJIT=false"] small_world =
    Ret {| m_interactive := true; m_dump := false; m_exitCode := true;
           m_scripts := []; m_arguments := []; m_profile := false;
           m_profilerOutput := "" |}
        (with_vm_options (E := SmallEngine) ["useJIT=false"] small_world))
    by (vm_compute; reflexivity).
  split; [exact Hrun|].
  exact (empty_script_list_forces_interactive (E := SmallEngine)
           ["jsc"; "-x"; "--useJIT=false"] _ small_world _ _ Hrun eq_refl).
Defined.

Lemma unknown_long_option_becomes_a_file_script_witness :
  newCommandLine (E := SmallEngine) ["jsc"; "--totallyUnknown"] small_world =
  Ret {| m_interactive := false; m_dump := false; m_exitCode := false;
         m_scripts := [ {| isFile := true; argument := "--totallyUnknown" |} ];
         m_arguments := []; m_profile := false; m_profilerOutput := "" |}
      small_world.
Proof.
  unfold newCommandLine, parseArguments, bind. simpl drop.
  rewrite (proj1 (unknown_long_option_becomes_a_file_script (E := SmallEngine)
                    "totallyUnknown" [] _ false false small_world
                    ltac:(discriminate) ltac:(discriminate)
                    ltac:(discriminate) ltac:(discriminate) eq_refl)).
  reflexivity.
Defined.

(** ** The natives run, load and checkSyntax *)

Section NativeFacts.

Context {E : Engine}.

(** The three natives start in the same way: they load the file named by
    their first argument into a fresh buffer. *)
Lemma native_load_missing (exec : ExecState) (w : state) :
  files w (toWTFString (heap w) (exec_argument exec 0)) = None ->
  bind (argumentFileName exec)
       (fun fileName => fillBufferWithContentsOfFile fileName []) w =
  Ret (false, [])
      (with_stderr (stderr w +:+ ("Could not open file: " +:+
                                  toWTFString (heap w) (exec_argument exec 0) +:+ newline)) w).
Proof.
  intros Hfile. unfold bind, argumentFileName, gets.
  apply fillBuffer_missing. exact Hfile.
Qed.

(** C6: when the file named by the first argument cannot be opened, each of
    the natives [run], [load] and [checkSyntax] returns to the engine (the
    process goes on) with an error object pending as the exception of the
    calling script, where a script can catch it; the error is the one
    [createError] makes of the message ["Could not open file."], which
    mentions "could not open file"; the state is otherwise the one before
    the call with the line of the loader on the error stream. *)
Theorem natives_throw_when_the_file_cannot_be_opened (exec : ExecState) (w : state) :
  files w (toWTFString (heap w) (exec_argument exec 0)) = None ->
  let fileName := toWTFString (heap w) (exec_argument exec 0) in
  let reported :=
    with_stderr (stderr w +:+ ("Could not open file: " +:+ fileName +:+ newline)) w in
  let created := createError couldNotOpenFile (heap w) in
  let thrown := with_exception (Some (snd created)) (with_heap (fst created) reported) in
  functionRun exec w = Ret (snd created) thrown /\
  functionLoad exec w = Ret (snd created) thrown /\
  functionCheckSyntax exec w = Ret (snd created) thrown /\
  exception thrown = Some (snd created) /\
  mentions "could not open file" couldNotOpenFile = true.
Proof.
  intros Hfile fileName reported created thrown.
  assert (Hstart :
    forall k : string -> bool * Vector -> M JSValue,
      bind (argumentFileName exec)
           (fun name => bind (fillBufferWithContentsOfFile name []) (k name)) w =
      k fileName (false, []) reported).
  { intros k. unfold bind, argumentFileName, gets.
    rewrite fillBuffer_missing by exact Hfile. reflexivity. }
  assert (Hthrow :
    bind (allocating (createError couldNotOpenFile)) throwError reported =
    Ret (snd created) thrown).
  { unfold bind, allocating, throwError, modify, ret.
    change (heap reported) with (heap w). fold created.
    destruct created as [h error]. reflexivity. }
  repeat split.
  - unfold functionRun. rewrite Hstart. exact Hthrow.
  - unfold functionLoad. rewrite Hstart. exact Hthrow.
  - unfold functionCheckSyntax. rewrite Hstart. exact Hthrow.
Qed.

(** C8: for a readable file and with no exception pending, the native
    [checkSyntax] hands the text of the file (shebang neutralised, read up
    to its terminator) to the syntax check of the engine and to nothing
    else: the state it leaves is the one before the call with the heap as
    the check left it. It returns the elapsed milliseconds: the time after
    the check minus the time before it, times 1000, as a [long]. No
    exception is pending afterwards when the text parses, and the syntax
    error of the engine is pending when it does not, so that the call
    raises exactly when the syntax is invalid. *)
Theorem checkSyntax_native_checks_without_executing
    (exec : ExecState) (w : state) (file : File) :
  files w (toWTFString (heap w) (exec_argument exec 0)) = Some file ->
  failing file = false ->
  exception w = None ->
  exists source,
    jscSource (neutraliseShebang (contents file) ++ [NUL])
      (toWTFString (heap w) (exec_argument exec 0)) = inr source /\
    let verdict := parseOnly (lexicalGlobalObject exec) source (heap w) in
    let checked := with_heap (fst verdict) w in
    let elapsed :=
      jsNumber (double_to_long
                  (double_mul (double_sub (currentTime checked) (currentTime w))
                     (double_of_int 1000))) in
    match snd verdict with
    | None =>
      functionCheckSyntax exec w = Ret elapsed checked /\
      exception checked = None
    | Some syntaxException =>
      functionCheckSyntax exec w =
      Ret elapsed (with_exception (Some syntaxException) checked)
    end.
Proof.
  intros Hfile _ Hpending.
  set (fileName := toWTFString (heap w) (exec_argument exec 0)) in *.
  destruct (readIntoBuffer_contents (fresh_memory w) file []) as (tail & Hbuffer).
  destruct (jscSource_defined (neutraliseShebang (contents file)) tail fileName)
    as (source & Hsource).
  exists source. split; [rewrite <- jscSource_tail with (tail := tail); exact Hsource|].
  cbv zeta.
  assert (Hload :
    fillBufferWithContentsOfFile fileName [] w =
    Ret (true, neutraliseShebang (contents file) ++ NUL :: tail) w).
  { unfold fillBufferWithContentsOfFile. rewrite Hfile, Hbuffer. reflexivity. }
  unfold functionCheckSyntax, bind, argumentFileName, gets. fold fileName.
  rewrite Hload. simpl negb. cbv iota.
  unfold StopWatch_start, StopWatch_stop, bind, gets, ret, jscSource_.
  rewrite Hsource. unfold ret, checkSyntax, bind, allocating.
  cbn [negb]. cbv beta iota zeta.
  destruct (parseOnly (lexicalGlobalObject exec) source (heap w))
    as [h [syntaxException|]]; simpl.
  - reflexivity.
  - split; [reflexivity|exact Hpending].
Qed.

End NativeFacts.

Lemma natives_throw_when_the_file_cannot_be_opened_witness :
  functionRun (E := SmallEngine)
    (small_call "missing.js") small_world =
  Ret (SmallError "Could not open file.")
      (with_exception (E := SmallEngine) (Some (SmallError "Could not open file."))
         (with_stderr (E := SmallEngine)
            ("" +:+ ("Could not open file: " +:+ "missing.js" +:+ newline))
            small_world)).
Proof.
  exact (proj1 (natives_throw_when_the_file_cannot_be_opened (E := SmallEngine)
                  (small_call "missing.js")
                  small_world eq_refl)).
Defined.

Lemma checkSyntax_native_checks_without_executing_witness :
  functionCheckSyntax (E := TickingEngine) (ticking_call "bad.js") (ticking_world 5) =
  @Ret TickingEngine _ (SmallNumber 2000)
    (with_exception (E := TickingEngine) (Some (SmallError "SyntaxError"))
       (ticking_world 7)) /\
  functionCheckSyntax (E := TickingEngine) (ticking_call "a.js") (ticking_world 5) =
  @Ret TickingEngine _ (SmallNumber 2000) (ticking_world 7).
Proof.
  split.
  - destruct (checkSyntax_native_checks_without_executing (E := TickingEngine)
                (ticking_call "bad.js")
                (ticking_world 5) (small_file "syntax error here") eq_refl eq_refl eq_refl)
      as (source & Hsource & Hcheck).
    vm_compute in Hsource. injection Hsource as <-. exact Hcheck.
  - destruct (checkSyntax_native_checks_without_executing (E := TickingEngine)
                (ticking_call "a.js")
                (ticking_world 5) (small_file "print(1+1)") eq_refl eq_refl eq_refl)
      as (source & Hsource & Hcheck).
    vm_compute in Hsource. injection Hsource as <-. exact (proj1 Hcheck).
Defined.

(** ** jscmain *)

Section MainFacts.

Context {E : Engine}.

Lemma createGlobalObjectFor_returns (options : CommandLine) (w : state) :
  exists globalObject w', createGlobalObjectFor options w = Ret globalObject w'.
Proof.
  unfold createGlobalObjectFor, bind, onHeap, modify, allocating, ret.
  destruct (m_profile options); simpl;
    match goal with
    | |- context [createGlobalObject ?a ?h] => destruct (createGlobalObject a h)
    end; eauto.
Qed.

(** The interactive loop ends the process through [quit] only. *)
Lemma runInteractive_exit (fuel : nat) globalObject :
  forall (w : state) status w',
  runInteractive fuel globalObject w = Exit status w' -> status = EXIT_SUCCESS.
Proof.
  induction fuel as [|fuel IH]; intros w status w'; [discriminate|].
  simpl. unfold bind, printf, gets, modify.
  destruct (getLine _) as [[|c line] rest]; [discriminate|].
  unfold jscSource_.
  destruct (jscSource _ _) as [a|source]; [discriminate|].
  unfold ret.
  match goal with
  | |- context [evaluate ?g ?s ?w0] =>
    pose proof (evaluate_endsWell g s w0) as Hends;
    destruct (evaluate g s w0) as [[v e] w1|code w1|a w1]
  end.
  - destruct e as [e|]; simpl; unfold clearException, modify; apply IH.
  - intros [= <- _]. exact Hends.
  - discriminate.
Qed.

(** The end of [jscmain]: once the interactive loop, if any, has returned,
    the function returns 0 or 3. *)
Lemma afterScripts_returns (fuel : nat) options globalObject success (w w1 : state) :
  (if m_interactive options && success then runInteractive fuel globalObject
   else ret tt) w = Ret tt w1 ->
  exists w', afterScripts fuel options globalObject success w =
             Ret (if success then 0 else 3)%Z w'.
Proof.
  intros Hloop. unfold afterScripts, bind. rewrite Hloop.
  unfold ret, printf, fprintf_stderr, modify.
  destruct (m_exitCode options), (m_profile options); simpl;
    repeat match goal with
    | |- context [saveProfilerDatabase ?o ?w0] =>
      destruct (saveProfilerDatabase o w0) as [? []]; simpl
    end; eauto.
Qed.

Lemma afterScripts_failure (fuel : nat) options globalObject (w : state) :
  exists w', afterScripts fuel options globalObject false w = Ret 3%Z w'.
Proof.
  apply (afterScripts_returns fuel options globalObject false w w).
  rewrite andb_false_r. reflexivity.
Qed.

Lemma afterScripts_batch (fuel : nat) options globalObject (w : state) :
  m_interactive options = false ->
  exists w', afterScripts fuel options globalObject true w = Ret 0%Z w'.
Proof.
  intros Hbatch.
  apply (afterScripts_returns fuel options globalObject true w w).
  rewrite Hbatch. reflexivity.
Qed.

Lemma afterScripts_success (fuel : nat) options globalObject (w : state) status :
  exitStatus (afterScripts fuel options globalObject true w) = Some status ->
  status = 0%Z.
Proof.
  destruct (m_interactive options) eqn:Hmode.
  - destruct (runInteractive fuel globalObject w) as [[] w1|code w1|a w1] eqn:Hloop.
    + destruct (afterScripts_returns fuel options globalObject true w w1) as (w' & ->).
      { rewrite Hmode. exact Hloop. }
      simpl. congruence.
    + unfold afterScripts, bind. rewrite Hmode.
      change (true && true) with true. cbv iota.
      rewrite Hloop. apply runInteractive_exit in Hloop. subst code. simpl.
      unfold EXIT_SUCCESS. congruence.
    + unfold afterScripts, bind. rewrite Hmode.
      change (true && true) with true. cbv iota.
      rewrite Hloop. discriminate.
  - destruct (afterScripts_batch fuel options globalObject w Hmode) as (w' & ->).
    simpl. congruence.
Qed.

(** [jscmain] as its four steps. *)
Lemma main_unfold (fuel : nat) (argv : list string) (w : state)
    options w1 globalObject w2 :
  newCommandLine argv w = Ret options w1 ->
  createGlobalObjectFor options w1 = Ret globalObject w2 ->
  main fuel argv w =
  match runWithScripts globalObject (m_scripts options) (m_dump options) w2 with
  | Ret success w3 =>
    match afterScripts fuel options globalObject success w3 with
    | Ret res w4 => Ret res w4
    | Exit status w4 => Exit status w4
    | Fault a w4 => Fault a w4
    end
  | Exit status w3 => Exit status w3
  | Fault a w3 => Fault a w3
  end.
Proof.
  intros Hparse Hcreate. unfold main, jscmain, bind.
  rewrite Hparse, Hcreate.
  destruct (runWithScripts globalObject (m_scripts options) (m_dump options) w2)
    as [success w3|status w3|a w3]; try reflexivity.
  all: destruct (afterScripts fuel options globalObject success w3); reflexivity.
Qed.

Lemma help_exits (rest : list string) c dumpOptions exitAfter (w : state) :
  parseLoop ("-h" :: rest) c dumpOptions exitAfter w =
    Exit EXIT_SUCCESS (with_stderr (stderr w +:+ usage) w) /\
  parseLoop ("--help" :: rest) c dumpOptions exitAfter w =
    Exit EXIT_SUCCESS (with_stderr (stderr w +:+ usage) w).
Proof. split; reflexivity. Qed.

Lemma options_marks_exit (rest : list string) c dumpOptions exitAfter (w : state) p w' :
  parseLoop ("--options" :: rest) c dumpOptions exitAfter w = Ret p w' ->
  needToExit p = true.
Proof.
  change (parseLoop ("--options" :: rest) c dumpOptions exitAfter w)
    with (parseLoop rest c true true w).
  intros Hrun.
  destruct (parseLoop_invariant (length rest) rest c true true w) as [_ Hends]; [lia|].
  rewrite Hrun in Hends. destruct Hends as [_ Hexit]. auto.
Qed.

Lemma marked_exit_exits (argv : list string) c (w : state) p w1 :
  parseLoop (drop 1 argv) c false false w = Ret p w1 ->
  needToExit p = true ->
  exists w2, parseArguments argv c w = Exit EXIT_SUCCESS w2 /\ nothingExecuted w w2.
Proof.
  intros Hloop Hexit.
  pose proof (parseArguments_invariant argv c w) as [Hnothing _].
  unfold parseArguments, bind in *. rewrite Hloop in *. rewrite Hexit in *.
  destruct (needToDumpOptions p); simpl in *; eauto.
Qed.

(** C9, as the code has it: a run whose command line parses comes to the
    scripts. When [runWithScripts] returns there, the process ends with the
    status 3 if a script failed (its file could not be loaded or its
    evaluation raised an exception), and, if every script was evaluated
    without an exception, with the status 0 whenever it ends (at once when
    the run is not interactive). When a script calls [quit] instead, the
    process ends with the status 0 there, whatever happened to the scripts
    before. When the parser ends the process, no script has been executed
    and the status is that of the parser: 0 for [-h], [--help] and, after
    the last token, for [--options]. *)
Theorem exit_status_of_a_run (fuel : nat) (argv : list string) (w : state) :
  (forall options w1 globalObject w2,
     newCommandLine argv w = Ret options w1 ->
     createGlobalObjectFor options w1 = Ret globalObject w2 ->
     (forall success w3,
        runWithScripts globalObject (m_scripts options) (m_dump options) w2 =
          Ret success w3 ->
        (aScriptFailed globalObject (m_dump options) (m_scripts options) w2 ->
           exists w4, main fuel argv w = Ret 3%Z w4) /\
        (everyScriptEvaluated globalObject (m_dump options) (m_scripts options) w2 ->
           (forall status, exitStatus (main fuel argv w) = Some status -> status = 0%Z) /\
           (m_interactive options = false -> exists w4, main fuel argv w = Ret 0%Z w4))) /\
     (forall status w3,
        runWithScripts globalObject (m_scripts options) (m_dump options) w2 =
          Exit status w3 ->
        status = 0%Z /\ main fuel argv w = Exit 0%Z w3)) /\
  (forall status w1,
     newCommandLine argv w = Exit status w1 ->
     main fuel argv w = Exit status w1 /\ nothingExecuted w w1) /\
  (forall rest c dumpOptions exitAfter,
     parseLoop ("-h" :: rest) c dumpOptions exitAfter w =
       Exit 0%Z (with_stderr (stderr w +:+ usage) w) /\
     parseLoop ("--help" :: rest) c dumpOptions exitAfter w =
       Exit 0%Z (with_stderr (stderr w +:+ usage) w) /\
     forall p w', parseLoop ("--options" :: rest) c dumpOptions exitAfter w = Ret p w' ->
       needToExit p = true) /\
  (forall p w1,
     parseLoop (drop 1 argv)
       {| m_interactive := false; m_dump := false; m_exitCode := false;
          m_scripts := []; m_arguments := []; m_profile := false;
          m_profilerOutput := "" |} false false w = Ret p w1 ->
     needToExit p = true ->
     exists w2, main fuel argv w = Exit 0%Z w2 /\ nothingExecuted w w2).
Proof.
  split; [|split; [|split]].
  - intros options w1 globalObject w2 Hparse Hcreate. split.
    + intros success w3 Hrun.
      rewrite (main_unfold fuel argv w _ _ _ _ Hparse Hcreate), Hrun.
      destruct (runWithScripts_verdict _ _ _ _ _ _ Hrun) as [Hfalse Htrue]. split.
      * intros Hfailed. apply Hfalse in Hfailed. subst success.
        destruct (afterScripts_failure fuel options globalObject w3) as (w4 & ->). eauto.
      * intros Hall. apply Htrue in Hall. subst success. split.
        -- intros status Hstatus. apply (afterScripts_success fuel options globalObject w3).
           destruct (afterScripts fuel options globalObject true w3); exact Hstatus.
        -- intros Hbatch.
           destruct (afterScripts_batch fuel options globalObject w3 Hbatch) as (w4 & ->).
           eauto.
    + intros status w3 Hrun.
      rewrite (main_unfold fuel argv w _ _ _ _ Hparse Hcreate), Hrun.
      pose proof (runWithScripts_endsWell globalObject (m_scripts options)
                    (m_dump options) w2) as Hends.
      rewrite Hrun in Hends. simpl in Hends. rewrite Hends. split; reflexivity.
  - intros status w1 Hparse. split.
    + unfold main, jscmain, bind. rewrite Hparse. reflexivity.
    + pose proof (parseArguments_invariant argv
                    {| m_interactive := false; m_dump := false; m_exitCode := false;
                       m_scripts := []; m_arguments := []; m_profile := false;
                       m_profilerOutput := "" |} w) as [Hnothing _].
      unfold newCommandLine in Hparse. rewrite Hparse in Hnothing. exact Hnothing.
  - intros rest c dumpOptions exitAfter.
    destruct (help_exits rest c dumpOptions exitAfter w) as [Hh Hhelp].
    split; [exact Hh|]. split; [exact Hhelp|].
    intros p w'. apply options_marks_exit.
  - intros p w1 Hloop Hexit.
    destruct (marked_exit_exits argv _ w p w1 Hloop Hexit) as (w2 & Hparse & Hnothing).
    exists w2. split; [|exact Hnothing].
    unfold main, jscmain, bind, newCommandLine. rewrite Hparse. reflexivity.
Qed.

End MainFacts.

(** The command line [-e "throw new Error('boom')" -e "quit()"] on the small
    engine: the first script raises an exception, the second one calls
    [quit], and the process ends with the status 0, not 3. *)
Lemma quit_after_a_failure_exits_with_0 :
  aScriptFailed (E := SmallEngine) tt false
    [ {| isFile := false; argument := "throw new Error('boom')" |};
      {| isFile := false; argument := "quit()" |} ] small_world /\
  exitStatus
    (main (E := SmallEngine) 0
       ["jsc"; "-e"; "throw new Error('boom')"; "-e"; "quit()"] small_world) = Some 0%Z /\
  exitStatus
    (main (E := SmallEngine) 0
       ["jsc"; "-e"; "throw new Error('boom')"; "-e"; "quit()"] small_world) <> Some 3%Z.
Proof.
  split; [|split].
  - exists [], {| isFile := false; argument := "throw new Error('boom')" |},
      [ {| isFile := false; argument := "quit()" |} ], [], small_world.
    split; [reflexivity|]. split.
    + exists small_world, true. split; reflexivity.
    + right. exists SmallUndefined, (SmallError "boom"), [], small_world.
      vm_compute. reflexivity.
  - vm_compute. reflexivity.
  - vm_compute. discriminate.
Qed.

Lemma exit_status_of_a_run_witness :
  exists w4,
    main (E := SmallEngine) 0 ["jsc"; "-e"; "throw new Error('boom')"] small_world =
    Ret 3%Z w4.
Proof.
  pose (failing := {| isFile := false; argument := "throw new Error('boom')" |}).
  pose (options := {| m_interactive := false; m_dump := false; m_exitCode := false;
                      m_scripts := [failing]; m_arguments := [];
                      m_profile := false; m_profilerOutput := "" |}).
  destruct (exit_status_of_a_run (E := SmallEngine) 0
              ["jsc"; "-e"; "throw new Error('boom')"] small_world) as [Hrun _].
  destruct (Hrun options small_world tt small_world) as [Hreturned _].
  - vm_compute. reflexivity.
  - reflexivity.
  - destruct (Hreturned false
                (with_stdout (E := SmallEngine)
                   ("Exception: Error: boom" +:+ newline) small_world)) as [Hfailed _].
    + vm_compute. reflexivity.
    + apply Hfailed.
      exists [], failing, [], [], small_world.
      split; [reflexivity|]. split.
      * exists small_world, true. split; reflexivity.
      * right. exists SmallUndefined, (SmallError "boom"), [], small_world.
        vm_compute. reflexivity.
Defined.

(** ** More on jscSource and the loader *)

Section SourceReading.

Context {E : Engine}.

Lemma strlen_without_NUL (d tail : Vector) :
  NUL ∉ d -> strlen (d ++ NUL :: tail) = Some (length d).
Proof.
  induction d as [|x d IH]; intros Hd; simpl; [reflexivity|].
  destruct (Ascii.eqb_spec x NUL) as [->|_].
  - exfalso. apply Hd. left.
  - rewrite IH; [reflexivity|]. intros Hin. apply Hd. right. exact Hin.
Qed.

Lemma asciiLength_all_positive (c : Vector) :
  forallb positive_char c = true -> asciiLength c = length c.
Proof.
  induction c as [|x c IH]; simpl; [reflexivity|].
  destruct (positive_char x); simpl; [|discriminate].
  intros Hc. rewrite IH by exact Hc. reflexivity.
Qed.

Lemma asciiLength_stops (c : Vector) :
  forallb positive_char c = false ->
  exists x, c !! asciiLength c = Some x /\ positive_char x = false.
Proof.
  induction c as [|x c IH]; simpl; [discriminate|].
  destruct (positive_char x) eqn:Hx; simpl.
  - exact IH.
  - intros _. exists x. auto.
Qed.

Lemma jscSource_text (c tail : Vector) filename :
  NUL ∉ c ->
  jscSource (c ++ NUL :: tail) filename =
  inr {| source_text := if forallb positive_char c then string_of_list_ascii c
                        else fromUTF8WithLatin1Fallback c;
         source_url := filename |}.
Proof.
  intros Hc. unfold jscSource. rewrite asciiLength_before_NUL.
  destruct (forallb positive_char c) eqn:Hall.
  - rewrite asciiLength_all_positive by exact Hall.
    rewrite list_lookup_middle by reflexivity.
    rewrite Ascii.eqb_refl, take_app_length. reflexivity.
  - destruct (asciiLength_stops c Hall) as (x & Hx & Hneg).
    pose proof (lookup_lt_Some _ _ _ Hx) as Hn.
    rewrite lookup_app_l by exact Hn. rewrite Hx.
    destruct (Ascii.eqb_spec x NUL) as [->|_].
    { exfalso. apply Hc. eapply list_elem_of_lookup_2. exact Hx. }
    rewrite drop_app_le by lia.
    rewrite strlen_without_NUL.
    + rewrite length_drop.
      replace (asciiLength c + (length c - asciiLength c)) with (length c) by lia.
      rewrite take_app_length. reflexivity.
    + intros Hin. apply Hc. apply list_elem_of_lookup_1 in Hin. destruct Hin as (i & Hi).
      rewrite lookup_drop in Hi. eapply list_elem_of_lookup_2. exact Hi.
Qed.

(** X1: [jscSource] makes the source of the bytes before the first NUL of
    the memory it is given, and of nothing after it: when these bytes are
    all ASCII they are the text as they stand, and otherwise the text is
    what [fromUTF8WithLatin1Fallback] decodes them to. *)
Theorem jscSource_reads_up_to_the_first_NUL (c tail : Vector) filename :
  NUL ∉ c ->
  jscSource (c ++ NUL :: tail) filename =
  inr {| source_text := if forallb positive_char c then string_of_list_ascii c
                        else fromUTF8WithLatin1Fallback c;
         source_url := filename |}.
Proof. apply jscSource_text. Qed.

End SourceReading.

Lemma jscSource_reads_up_to_the_first_NUL_witness :
  jscSource (E := SmallEngine) (list_ascii_of_string "1+1" ++ NUL :: list_ascii_of_string "junk")
    "[Command Line]" =
  inr {| source_text := "1+1"; source_url := "[Command Line]" |}.
Proof.
  apply (jscSource_reads_up_to_the_first_NUL (E := SmallEngine)
           (list_ascii_of_string "1+1") (list_ascii_of_string "junk") "[Command Line]").
  vm_compute. intros Hin. repeat (apply elem_of_cons in Hin as [Hin|Hin]; [discriminate|]).
  inversion Hin.
Defined.

Section LoadedSource.

Context {E : Engine}.

Lemma length_neutraliseShebang (bytes : list ascii) :
  length (neutraliseShebang bytes) = length bytes.
Proof.
  destruct bytes as [|c0 [|c1 rest]]; try reflexivity. simpl.
  destruct (Ascii.eqb c0 "#" && Ascii.eqb c1 "!"); reflexivity.
Qed.

Lemma neutraliseShebang_before_NUL (c1 c2 : list ascii) :
  neutraliseShebang (c1 ++ NUL :: c2) = neutraliseShebang c1 ++ NUL :: c2.
Proof.
  destruct c1 as [|a [|b rest]]; simpl.
  - destruct c2; reflexivity.
  - destruct (Ascii.eqb a "#"); reflexivity.
  - destruct (Ascii.eqb a "#" && Ascii.eqb b "!"); reflexivity.
Qed.

Lemma fillBuffer_contents (w : state) fileName file (old : Vector) :
  files w fileName = Some file ->
  exists tail,
    fillBufferWithContentsOfFile fileName old w =
    Ret (true, neutraliseShebang (contents file) ++ NUL :: tail) w.
Proof.
  intros Hfile.
  destruct (readIntoBuffer_contents (fresh_memory w) file old) as (tail & Hbuffer).
  exists tail. unfold fillBufferWithContentsOfFile. rewrite Hfile, Hbuffer. reflexivity.
Qed.

(** X2: the source [jscSource] makes of a buffer that
    [fillBufferWithContentsOfFile] has filled is the source of the bytes of
    the file (shebang neutralised) and their terminator: it depends neither
    on what the buffer held before, as when [runWithScripts] loads one file
    after the other into the same [scriptBuffer], nor on the bytes the
    buffer found in the memory it grew into. *)
Theorem loaded_source_depends_on_the_file_only (w : state) fileName file (old : Vector) :
  files w fileName = Some file ->
  exists buffer source,
    fillBufferWithContentsOfFile fileName old w = Ret (true, buffer) w /\
    jscSource buffer fileName = inr source /\
    jscSource (neutraliseShebang (contents file) ++ [NUL]) fileName = inr source.
Proof.
  intros Hfile.
  destruct (fillBuffer_contents w fileName file old Hfile) as (tail & Hload).
  destruct (jscSource_defined (neutraliseShebang (contents file)) tail fileName)
    as (source & Hsource).
  exists (neutraliseShebang (contents file) ++ NUL :: tail), source.
  split; [exact Hload|]. split; [exact Hsource|].
  rewrite <- jscSource_tail with (tail := tail). exact Hsource.
Qed.

(** X3: a NUL byte in a file ends the script: the loader keeps the bytes
    after it in the buffer, and [jscSource], which reads a C string, makes
    the source of the bytes before it only. *)
Theorem bytes_after_a_NUL_are_not_part_of_the_script
    (w : state) fileName file (old : Vector) (c1 c2 : list ascii) :
  files w fileName = Some file ->
  contents file = c1 ++ NUL :: c2 ->
  exists buffer,
    fillBufferWithContentsOfFile fileName old w = Ret (true, buffer) w /\
    take (length (contents file)) buffer = neutraliseShebang c1 ++ NUL :: c2 /\
    jscSource buffer fileName = jscSource (neutraliseShebang c1 ++ [NUL]) fileName.
Proof.
  intros Hfile Hcontents.
  destruct (fillBuffer_contents w fileName file old Hfile) as (tail & Hload).
  exists (neutraliseShebang (contents file) ++ NUL :: tail).
  split; [exact Hload|]. split.
  - rewrite <- (length_neutraliseShebang (contents file)), take_app_length.
    rewrite Hcontents. apply neutraliseShebang_before_NUL.
  - rewrite Hcontents, neutraliseShebang_before_NUL, <- app_assoc. simpl.
    apply jscSource_tail.
Qed.

(** X4: a read error is not reported. When the device fails after it has
    delivered some bytes of the file, the read loop ends with the error
    indicator of the stream set, and [fillBufferWithContentsOfFile] still
    returns [true], prints nothing, and leaves the bytes delivered (shebang
    neutralised) and the terminator in the buffer, as for a file that ends
    there. *)
Theorem read_error_is_not_reported (w : state) fileName file (old : Vector) :
  files w fileName = Some file ->
  failing file = true ->
  exists st buffer,
    readLoop (fresh_memory w) (S (length (contents file))) (fopen_stream file)
      (Vector_resize (fresh_memory w) 1024 old) 0 1024 = inr st /\
    ferror (rs_file st) = true /\ feof (rs_file st) = false /\
    fillBufferWithContentsOfFile fileName old w = Ret (true, buffer) w /\
    take (S (length (contents file))) buffer =
    neutraliseShebang (contents file) ++ [NUL].
Proof.
  intros Hfile Hfailing.
  destruct (readLoop_opened (fresh_memory w) file old)
    as (st & Hrun & _ & _ & _ & _ & _ & _ & Hfe & Hfr).
  destruct (fillBuffer_contents w fileName file old Hfile) as (tail & Hload).
  exists st, (neutraliseShebang (contents file) ++ NUL :: tail).
  rewrite Hfailing in Hfe, Hfr.
  repeat split; try assumption.
  change (neutraliseShebang (contents file) ++ NUL :: tail)
    with (neutraliseShebang (contents file) ++ [NUL] ++ tail).
  rewrite app_assoc.
  replace (S (length (contents file)))
    with (length (neutraliseShebang (contents file) ++ [NUL]))
    by (rewrite length_app, length_neutraliseShebang; simpl; lia).
  apply take_app_length.
Qed.

End LoadedSource.

Section Capacity.

Variable uninitialised : nat -> ascii.

Lemma readLoop_capacity_doubles fuel :
  forall f buffer bufferSize bufferCapacity st k,
  readLoop uninitialised fuel f buffer bufferSize bufferCapacity = inr st ->
  bufferCapacity = 1024 * 2 ^ k ->
  exists k', rs_bufferCapacity st = 1024 * 2 ^ k'.
Proof.
  induction fuel as [|fuel IH]; intros f buffer bufferSize bufferCapacity st k.
  - simpl. destruct (negb (feof f) && negb (ferror f)); [discriminate|].
    intros [= <-] ->. simpl. eauto.
  - simpl. destruct (negb (feof f) && negb (ferror f)).
    + destruct (decide _); [|discriminate].
      destruct (fread _ f) as [bytes f'].
      destruct (_ =? _)%nat; intros Hrun Hcap.
      * apply (IH _ _ _ _ _ (S k) Hrun). rewrite Hcap, Nat.pow_succ_r'. lia.
      * apply (IH _ _ _ _ _ k Hrun Hcap).
    + intros [= <-] ->. simpl. eauto.
Qed.

(** X5: the buffer [fillBufferWithContentsOfFile] leaves is as large as its
    capacity, and the capacity is 1024 doubled as often as it takes to be
    larger than the file: it is [1024 * 2 ^ k], the file is shorter than
    it, and, unless it still is the initial 1024, the file is at least half
    of it. *)
Theorem capacity_is_the_least_doubling_above_the_file (file : File) (old : Vector) :
  exists buffer k,
    readIntoBuffer uninitialised (fopen_stream file) old = inr buffer /\
    length buffer = 1024 * 2 ^ k /\
    length (contents file) < length buffer /\
    (0 < k -> length buffer <= 2 * length (contents file)).
Proof.
  unfold readIntoBuffer. change (unread (fopen_stream file)) with (contents file).
  destruct (readLoop_opened uninitialised file old)
    as (st & Hrun & Hsize & Hinv & Hlen & Hmin & Hmax & _).
  destruct (readLoop_capacity_doubles _ _ _ _ _ st 0 Hrun) as (k & Hk); [reflexivity|].
  rewrite Hrun.
  destruct (terminateAndPatch_defined st) as (buffer & Hbuffer & Hlength); [lia|lia|].
  exists buffer, k. rewrite Hbuffer, Hlength, Hlen.
  split; [reflexivity|]. split; [exact Hk|]. split; [lia|].
  intros Hpos.
  assert (2 <= 2 ^ k).
  { destruct k; [lia|]. rewrite Nat.pow_succ_r'.
    pose proof (Nat.pow_nonzero 2 k). lia. }
  lia.
Qed.

End Capacity.

Lemma loaded_source_depends_on_the_file_only_witness :
  exists buffer,
    fillBufferWithContentsOfFile (E := SmallEngine) "b.js"
      (list_ascii_of_string "a script that was here before") small_world =
    Ret (true, buffer) small_world /\
    jscSource (E := SmallEngine) buffer "b.js" =
    inr {| source_text := "///usr/bin/jsc"; source_url := "b.js" |}.
Proof.
  destruct (loaded_source_depends_on_the_file_only (E := SmallEngine) small_world "b.js"
              (small_file "#!/usr/bin/jsc")
              (list_ascii_of_string "a script that was here before") eq_refl)
    as (buffer & source & Hload & Hsource & Hfile).
  exists buffer. split; [exact Hload|].
  rewrite Hsource, <- Hfile. vm_compute. reflexivity.
Defined.

Lemma bytes_after_a_NUL_are_not_part_of_the_script_witness :
  exists buffer,
    fillBufferWithContentsOfFile (E := SmallEngine) "nul.js" []
      (small_world_of (small_directory "nul.js"
         {| contents := list_ascii_of_string "1+1" ++ NUL :: list_ascii_of_string "quit()";
            failing := false |})) =
    Ret (true, buffer) 
      (small_world_of (small_directory "nul.js"
         {| contents := list_ascii_of_string "1+1" ++ NUL :: list_ascii_of_string "quit()";
            failing := false |})) /\
    jscSource (E := SmallEngine) buffer "nul.js" =
    inr {| source_text := "1+1"; source_url := "nul.js" |}.
Proof.
  destruct (bytes_after_a_NUL_are_not_part_of_the_script (E := SmallEngine)
              (small_world_of (small_directory "nul.js"
                 {| contents := list_ascii_of_string "1+1" ++ NUL :: list_ascii_of_string "quit()";
                    failing := false |}))
              "nul.js" _ [] (list_ascii_of_string "1+1") (list_ascii_of_string "quit()")
              eq_refl eq_refl)
    as (buffer & Hload & _ & Hsource).
  exists buffer. split; [exact Hload|].
  rewrite Hsource. vm_compute. reflexivity.
Defined.

Lemma read_error_is_not_reported_witness :
  exists buffer,
    fillBufferWithContentsOfFile (E := SmallEngine) "torn.js" []
      (small_world_of (small_directory "torn.js"
         {| contents := list_ascii_of_string "print("; failing := true |})) =
    Ret (true, buffer)
      (small_world_of (small_directory "torn.js"
         {| contents := list_ascii_of_string "print("; failing := true |})) /\
    take 7 buffer = list_ascii_of_string "print(" ++ [NUL].
Proof.
  destruct (read_error_is_not_reported (E := SmallEngine)
              (small_world_of (small_directory "torn.js"
                 {| contents := list_ascii_of_string "print("; failing := true |}))
              "torn.js" _ [] eq_refl eq_refl)
    as (st & buffer & _ & _ & _ & Hload & Hbytes).
  exists buffer. split; [exact Hload|exact Hbytes].
Defined.

(** ** The interactive loop *)

Section InteractiveFacts.

Context {E : Engine}.






Lemma runInteractive_empty_line fuel globalObject (w : state) :
  stdin w = [] \/ (exists rest, stdin w = ascii_of_nat 10 :: rest) ->
  runInteractive (S fuel) globalObject w =
  Ret tt (with_stdout ((stdout w +:+ interactivePrompt) +:+ newline)
            (with_stdin (drop 1 (stdin w)) w)).
Proof.
  intros [Hinput|(rest & Hinput)];
    cbn [runInteractive]; unfold bind, printf, gets, modify; simpl; rewrite Hinput;
    reflexivity.
Qed.

(** X7: the interactive loop ends at the end of the input and at an empty
    line: it has printed the prompt, prints a newline and returns, and it
    has evaluated nothing. What follows an empty line is left unread. *)
Theorem interactive_loop_ends_at_an_empty_line fuel globalObject (w : state) :
  stdin w = [] \/ (exists rest, stdin w = ascii_of_nat 10 :: rest) ->
  runInteractive (S fuel) globalObject w =
  Ret tt (with_stdout ((stdout w +:+ interactivePrompt) +:+ newline)
            (with_stdin (drop 1 (stdin w)) w)).
Proof. apply runInteractive_empty_line. Qed.



End InteractiveFacts.


Lemma interactive_loop_ends_at_an_empty_line_witness :
  runInteractive (E := SmallEngine) 1 tt small_world =
  Ret tt (with_stdout (E := SmallEngine) ("> " +:+ newline) small_world).
Proof.
  exact (interactive_loop_ends_at_an_empty_line (E := SmallEngine) 0 tt small_world
           (or_introl eq_refl)).
Defined.


(** ** More on CommandLine::parseArguments *)

Section ParserFacts.

Context {E : Engine}.

#[local] Ltac in_list :=
  repeat first [apply list_elem_of_here | apply list_elem_of_further].

(** The report on the rest of the tokens is a report on all of them. *)
Lemma parseLoopReport_later (skipped rest : list string) c c' d d' x x'
    (r : Result Parsed) :
  m_arguments c' = m_arguments c ->
  (x' = true -> x = true \/ "--options" ∈ skipped) ->
  (d' = true -> d = true \/ "--options" ∈ skipped \/ "--dumpOptions" ∈ skipped) ->
  parseLoopReport rest c' d' x' r ->
  parseLoopReport (skipped ++ rest) c d x r.
Proof.
  intros Hc Hx Hd. destruct r as [p w|status w|a w]; simpl.
  - intros (Hargs & Hrem & Hexit & Hdump). split; [congruence|]. split; [|split].
    + destruct Hrem as [Hnil|(before & ->)]; [left; exact Hnil|right].
      exists (skipped ++ before). apply app_assoc.
    + intros Hp. destruct (Hexit Hp) as [Hx'|Hin].
      * destruct (Hx Hx') as [?|?]; [left; assumption|right].
        apply elem_of_app. left. assumption.
      * right. apply elem_of_app. right. exact Hin.
    + intros Hp. destruct (Hdump Hp) as [Hd'|[Hin|Hin]].
      * destruct (Hd Hd') as [?|[?|?]]; [left; assumption| |].
        -- right. left. apply elem_of_app. left. assumption.
        -- right. right. apply elem_of_app. left. assumption.
      * right. left. apply elem_of_app. right. exact Hin.
      * right. right. apply elem_of_app. right. exact Hin.
  - intros [(Hs & [Hin|Hin])|(Hs & before & flag & -> & Hflag)].
    + left. split; [exact Hs|]. left. apply elem_of_app. right. exact Hin.
    + left. split; [exact Hs|]. right. apply elem_of_app. right. exact Hin.
    + right. split; [exact Hs|]. exists (skipped ++ before), flag.
      split; [apply app_assoc|exact Hflag].
  - intros (Ha & token & Hin & Hshort). split; [exact Ha|].
    exists token. split; [|exact Hshort]. apply elem_of_app. right. exact Hin.
Qed.

Lemma parseLoop_report (n : nat) :
  forall (args : list string) c dumpOptions exitAfter (w : state),
  length args <= n ->
  parseLoopReport args c dumpOptions exitAfter (parseLoop args c dumpOptions exitAfter w).
Proof.
  induction n as [|n IH]; intros args c dumpOptions exitAfter w Hlen.
  { destruct args; [|simpl in Hlen; lia]. simpl. auto. }
  destruct args as [|arg rest]; [simpl; auto|].
  simpl in Hlen.
  assert (Hnext : forall c' d x (w' : state),
             m_arguments c' = m_arguments c ->
             (x = true -> exitAfter = true \/ "--options" ∈ [arg]) ->
             (d = true -> dumpOptions = true \/ "--options" ∈ [arg] \/
                          "--dumpOptions" ∈ [arg]) ->
             parseLoopReport (arg :: rest) c dumpOptions exitAfter
               (parseLoop rest c' d x w')).
  { intros c' d x w' Hc Hx Hd.
    apply (parseLoopReport_later [arg] rest c c' dumpOptions d exitAfter x);
      try assumption.
    apply IH. lia. }
  assert (Hoperand : forall (f : string -> CommandLine),
             arg ∈ operandFlags ->
             (forall a, m_arguments (f a) = m_arguments c) ->
             parseLoopReport (arg :: rest) c dumpOptions exitAfter
               (match rest with
                | [] => printUsageStatement false
                | a :: rest' => parseLoop rest' (f a) dumpOptions exitAfter
                end w)).
  { intros f Hflag Hf. destruct rest as [|a rest'].
    - rewrite printUsageStatement_exits. simpl. right. split; [reflexivity|].
      exists [], arg. split; [reflexivity|exact Hflag].
    - simpl in Hlen.
      apply (parseLoopReport_later [arg; a] rest' c (f a)
               dumpOptions dumpOptions exitAfter exitAfter); auto.
      apply IH. lia. }
  simpl parseLoop.
  destruct (String.eqb_spec arg "-f") as [->|_].
  { apply Hoperand; [unfold operandFlags; in_list|reflexivity]. }
  destruct (String.eqb_spec arg "-e") as [->|_].
  { apply Hoperand; [unfold operandFlags; in_list|reflexivity]. }
  destruct (String.eqb_spec arg "-i") as [->|_]; [apply Hnext; auto|].
  destruct (String.eqb_spec arg "-d") as [->|_]; [apply Hnext; auto|].
  destruct (String.eqb_spec arg "-p") as [->|_].
  { apply Hoperand; [unfold operandFlags; in_list|reflexivity]. }
  destruct (String.eqb_spec arg "-s") as [->|_]; [apply Hnext; auto|].
  destruct (String.eqb_spec arg "-x") as [->|_]; [apply Hnext; auto|].
  destruct (String.eqb_spec arg "--") as [->|_].
  { simpl. split; [reflexivity|]. split; [right; exists []; reflexivity|]. auto. }
  destruct (String.eqb_spec arg "-h") as [->|_].
  { simpl. left. split; [reflexivity|]. left. left. }
  destruct (String.eqb_spec arg "--help") as [->|_].
  { simpl. left. split; [reflexivity|]. right. left. }
  cbn [orb].
  destruct (String.eqb_spec arg "--options") as [->|_].
  { apply Hnext; [reflexivity| |]; intros _; right; [|left]; left. }
  destruct (String.eqb_spec arg "--dumpOptions") as [->|_].
  { apply Hnext; [reflexivity|auto|]. intros _. right. right. left. }
  destruct arg as [|a0 [|a1 name]].
  - simpl. split; [reflexivity|]. exists "". split; [left|simpl; lia].
  - simpl. split; [reflexivity|]. exists (String a0 ""). split; [left|simpl; lia].
  - unfold bind, gets.
    destruct (setOption name (vm_options w)) as [updated|].
    + unfold modify. apply Hnext; auto.
    + apply Hnext; auto.
Qed.

(** What [parseArguments] makes of the end of its first loop. *)
Lemma parseArguments_unfold (argv : list string) c (w : state) :
  parseArguments argv c w =
  match parseLoop (drop 1 argv) c false false w with
  | Ret p w1 =>
    let w2 := if needToDumpOptions p
              then with_stderr (stderr w1 +:+ dumpAllOptions (vm_options w1)) w1
              else w1 in
    if needToExit p then Exit EXIT_SUCCESS w2
    else Ret (appendArguments (remaining p)
                (if bool_decide (m_scripts (parsed_options p) = [])
                 then setInteractive (parsed_options p) else parsed_options p)) w2
  | Exit status w1 => Exit status w1
  | Fault a w1 => Fault a w1
  end.
Proof.
  unfold parseArguments, bind.
  destruct (parseLoop (drop 1 argv) c false false w) as [p w1|status w1|a w1];
    try reflexivity.
  destruct (needToDumpOptions p), (needToExit p); reflexivity.
Qed.

(** X9: the arguments of the script are the tokens after a [--]: whenever
    [parseArguments] returns, the tokens it has appended to [m_arguments]
    are, in their order, the end of the command line, and when there are
    any, the token before them is [--]. A command line without [--] leaves
    [m_arguments] as it was. *)
Theorem trailing_arguments_follow_the_separator
    (argv : list string) c (w : state) options w' :
  parseArguments argv c w = Ret options w' ->
  exists trailing,
    m_arguments options = m_arguments c ++ trailing /\
    (trailing = [] \/ exists before, drop 1 argv = before ++ "--" :: trailing) /\
    ("--" ∉ drop 1 argv -> m_arguments options = m_arguments c).
Proof.
  rewrite parseArguments_unfold.
  pose proof (parseLoop_report (length (drop 1 argv)) (drop 1 argv) c false false w
                (le_n _)) as Hreport.
  destruct (parseLoop (drop 1 argv) c false false w) as [p w1|status w1|a w1];
    try discriminate.
  destruct Hreport as (Hargs & Hrem & _).
  cbv zeta. destruct (needToExit p); [discriminate|].
  intros [= <- _]. exists (remaining p).
  assert (Hkept : m_arguments
                    (appendArguments (remaining p)
                       (if bool_decide (m_scripts (parsed_options p) = [])
                        then setInteractive (parsed_options p) else parsed_options p)) =
                  m_arguments c ++ remaining p).
  { destruct (bool_decide _); simpl; rewrite Hargs; reflexivity. }
  split; [exact Hkept|]. split; [exact Hrem|].
  intros Hnone. rewrite Hkept.
  destruct Hrem as [->|(before & Hsplit)]; [apply app_nil_r|].
  exfalso. apply Hnone. rewrite Hsplit. apply elem_of_app. right. left.
Qed.

(** X10: the parser ends the process only when the command line asks for
    it: with the status 0 when [-h], [--help] or [--options] is among the
    tokens, and with the status 1 when the last token is one of [-f], [-e]
    and [-p], which need the token after them. *)
Theorem parser_ends_the_process_only_when_asked
    (argv : list string) c (w : state) status w' :
  parseArguments argv c w = Exit status w' ->
  (status = EXIT_SUCCESS /\
   ("-h" ∈ drop 1 argv \/ "--help" ∈ drop 1 argv \/ "--options" ∈ drop 1 argv)) \/
  (status = EXIT_FAILURE /\
   exists before flag, drop 1 argv = before ++ [flag] /\ flag ∈ operandFlags).
Proof.
  rewrite parseArguments_unfold.
  pose proof (parseLoop_report (length (drop 1 argv)) (drop 1 argv) c false false w
                (le_n _)) as Hreport.
  destruct (parseLoop (drop 1 argv) c false false w) as [p w1|code w1|a w1];
    try discriminate.
  - destruct Hreport as (_ & _ & Hexit & _).
    cbv zeta. destruct (needToExit p); [|discriminate].
    intros [= <- _]. left. split; [reflexivity|].
    destruct (Hexit eq_refl) as [?|?]; [discriminate|auto].
  - intros [= <- _]. simpl in Hreport.
    destruct Hreport as [(Hs & [?|?])|Husage]; auto.
Qed.

Lemma parseArguments_defined
    (argv : list string) c (w : state) :
  Forall (fun token => 2 <= String.length token) (drop 1 argv) ->
  (exists options w', parseArguments argv c w = Ret options w') \/
  (exists status w', parseArguments argv c w = Exit status w').
Proof.
  intros Hlong. rewrite parseArguments_unfold.
  pose proof (parseLoop_report (length (drop 1 argv)) (drop 1 argv) c false false w
                (le_n _)) as Hreport.
  destruct (parseLoop (drop 1 argv) c false false w) as [p w1|code w1|a w1].
  - cbv zeta. destruct (needToExit p); eauto.
  - eauto.
  - destruct Hreport as (_ & token & Hin & Hshort).
    rewrite Forall_forall in Hlong. specialize (Hlong token Hin). lia.
Qed.

(** X11: on a command line whose tokens all have two characters or more the
    parser stays inside the defined behaviour: it returns or ends the
    process. *)
Theorem parser_is_defined_on_tokens_of_two_characters
    (argv : list string) c (w : state) :
  Forall (fun token => 2 <= String.length token) (drop 1 argv) ->
  (exists options w', parseArguments argv c w = Ret options w') \/
  (exists status w', parseArguments argv c w = Exit status w').
Proof. apply parseArguments_defined. Qed.

(** X12: a token shorter than two characters, in the place of an option,
    takes the parser outside the defined behaviour: it is no flag, and the
    text [&arg[2]] that is tried as a VM option starts behind its
    terminator. *)
Theorem token_shorter_than_two_characters_is_read_out_of_bounds
    (token : string) (rest : list string) c dumpOptions exitAfter (w : state) :
  String.length token < 2 ->
  parseLoop (token :: rest) c dumpOptions exitAfter w = Fault UndefinedBehaviour w.
Proof.
  intros Hshort. destruct token as [|a [|b name]]; [| |simpl in Hshort; lia].
  - reflexivity.
  - simpl. destruct (Ascii.eqb a "-"); reflexivity.
Qed.

(** A token that is none of the flags: the text after its first two
    characters is tried as a VM option. *)
Lemma parseLoop_other (token : string) (a b : ascii) (name : string)
    (rest : list string) c dumpOptions exitAfter (w : state) :
  token ∉ jscFlags ->
  token = String a (String b name) ->
  parseLoop (token :: rest) c dumpOptions exitAfter w =
  match setOption name (vm_options w) with
  | Some updated => parseLoop rest c dumpOptions exitAfter (with_vm_options updated w)
  | None =>
    parseLoop rest (appendScript {| isFile := true; argument := token |} c)
      dumpOptions exitAfter w
  end.
Proof.
  intros Hflag Htoken.
  assert (Hno : forall flag, flag ∈ jscFlags -> String.eqb token flag = false).
  { intros flag Hin. apply String.eqb_neq. intros ->. contradiction. }
  cbn [parseLoop].
  rewrite !Hno by (unfold jscFlags; in_list).
  cbn [orb]. subst token. unfold bind, gets.
  destruct (setOption name (vm_options w)); reflexivity.
Qed.

(** X13: a token that is none of the flags is tried as a VM option without
    its first two characters, whatever they are: when the option system
    accepts the rest, the option is set and the token is no script, also
    when the token does not start with [--]. *)
Theorem vm_option_is_read_behind_the_first_two_characters
    (a b : ascii) (name : string) (rest : list string) c dumpOptions exitAfter
    (w : state) updated :
  String a (String b name) ∉ jscFlags ->
  setOption name (vm_options w) = Some updated ->
  parseLoop (String a (String b name) :: rest) c dumpOptions exitAfter w =
  parseLoop rest c dumpOptions exitAfter (with_vm_options updated w).
Proof.
  intros Hflag Hoption.
  rewrite (parseLoop_other _ a b name) by auto.
  rewrite Hoption. reflexivity.
Qed.

Lemma appendScripts_nil c : appendScripts [] c = c.
Proof. destruct c. unfold appendScripts. simpl. rewrite app_nil_r. reflexivity. Qed.

Lemma appendScripts_cons s scripts c :
  appendScripts scripts (appendScript s c) = appendScripts (s :: scripts) c.
Proof. unfold appendScripts, appendScript. simpl. rewrite <- app_assoc. reflexivity. Qed.

(** X14: file names among the options become the scripts of the run in the
    order of the command line: tokens that are no flags and that the option
    system does not accept are appended to the list of scripts one after
    the other as file-backed scripts, and the parser goes on behind them in
    the same state. *)
Theorem file_names_become_scripts_in_order
    (names rest : list string) c dumpOptions exitAfter (w : state) :
  Forall (fun token =>
            (token ∉ jscFlags) /\
            exists a b name, token = String a (String b name) /\
                             setOption name (vm_options w) = None) names ->
  parseLoop (names ++ rest) c dumpOptions exitAfter w =
  parseLoop rest
    (appendScripts (map (fun name => {| isFile := true; argument := name |}) names) c)
    dumpOptions exitAfter w.
Proof.
  intros Hnames. revert c.
  induction Hnames as [|token names (Hflag & a & b & name & Htoken & Hoption) _ IH];
    intros c.
  - rewrite appendScripts_nil. reflexivity.
  - change ((token :: names) ++ rest) with (token :: (names ++ rest)).
    rewrite (parseLoop_other token a b name) by assumption.
    rewrite Hoption, IH. simpl map. rewrite appendScripts_cons. reflexivity.
Qed.

(** X15: the parser runs nothing. Whatever the command line is, and whether
    the parser returns or ends the process, the heap, the pending
    exception, the standard input and output and the files are as before:
    it writes to the error stream and sets VM options only; and it ends the
    process with the status 0 or 1 only. *)
Theorem parser_touches_the_error_stream_and_the_options_only
    (argv : list string) c (w : state) :
  nothingExecuted w (finalState (parseArguments argv c w)) /\
  forall status w', parseArguments argv c w = Exit status w' ->
    status = EXIT_SUCCESS \/ status = EXIT_FAILURE.
Proof.
  destruct (parseArguments_invariant argv c w) as [Hnothing Hends].
  split; [exact Hnothing|].
  intros status w' Hrun. rewrite Hrun in Hends. exact Hends.
Qed.

End ParserFacts.

Lemma trailing_arguments_follow_the_separator_witness :
  exists trailing,
    ["x"; "y"] = [] ++ trailing /\
    (trailing = [] \/
     exists before, drop 1 ["jsc"; "-e"; "1"; "--"; "x"; "y"] = before ++ "--" :: trailing) /\
    ("--" ∉ drop 1 ["jsc"; "-e"; "1"; "--"; "x"; "y"] -> ["x"; "y"] = @nil string).
Proof.
  exact (trailing_arguments_follow_the_separator (E := SmallEngine)
           ["jsc"; "-e"; "1"; "--"; "x"; "y"]
           {| m_interactive := false; m_dump := false; m_exitCode := false;
              m_scripts := []; m_arguments := []; m_profile := false;
              m_profilerOutput := "" |}
           small_world
           {| m_interactive := false; m_dump := false; m_exitCode := false;
              m_scripts := [ {| isFile := false; argument := "1" |} ];
              m_arguments := ["x"; "y"]; m_profile := false;
              m_profilerOutput := "" |}
           small_world eq_refl).
Defined.

Lemma parser_ends_the_process_only_when_asked_witness :
  (1%Z = EXIT_SUCCESS /\
   ("-h" ∈ drop 1 ["jsc"; "-e"; "1"; "-f"] \/ "--help" ∈ drop 1 ["jsc"; "-e"; "1"; "-f"] \/
    "--options" ∈ drop 1 ["jsc"; "-e"; "1"; "-f"])) \/
  (1%Z = EXIT_FAILURE /\
   exists before flag, drop 1 ["jsc"; "-e"; "1"; "-f"] = before ++ [flag] /\
                       flag ∈ operandFlags).
Proof.
  exact (parser_ends_the_process_only_when_asked (E := SmallEngine)
           ["jsc"; "-e"; "1"; "-f"]
           {| m_interactive := false; m_dump := false; m_exitCode := false;
              m_scripts := []; m_arguments := []; m_profile := false;
              m_profilerOutput := "" |}
           small_world 1%Z
           (with_stderr (E := SmallEngine) (usage (E := SmallEngine)) small_world)
           eq_refl).
Defined.

Lemma parser_is_defined_on_tokens_of_two_characters_witness :
  (exists options w',
     newCommandLine (E := SmallEngine) ["jsc"; "a.js"; "-x"] small_world = Ret options w') \/
  (exists status w',
     newCommandLine (E := SmallEngine) ["jsc"; "a.js"; "-x"] small_world = Exit status w').
Proof.
  apply (parser_is_defined_on_tokens_of_two_characters (E := SmallEngine)
           ["jsc"; "a.js"; "-x"]).
  simpl. repeat constructor.
Defined.

Lemma token_shorter_than_two_characters_is_read_out_of_bounds_witness :
  newCommandLine (E := SmallEngine) ["jsc"; ""] small_world =
  Fault UndefinedBehaviour small_world.
Proof.
  unfold newCommandLine, parseArguments, bind. simpl drop.
  rewrite (token_shorter_than_two_characters_is_read_out_of_bounds (E := SmallEngine)
             "" [] _ false false small_world ltac:(simpl; lia)).
  reflexivity.
Defined.

Lemma vm_option_is_read_behind_the_first_two_characters_witness :
  newCommandLine (E := SmallEngine) ["jsc"; "a.js"; "xxuseJIT=false"] small_world =
  Ret {| m_interactive := false; m_dump := false; m_exitCode := false;
         m_scripts := [ {| isFile := true; argument := "a.js" |} ];
         m_arguments := []; m_profile := false; m_profilerOutput := "" |}
      (with_vm_options (E := SmallEngine) ["useJIT=false"] small_world).
Proof.
  unfold newCommandLine, parseArguments, bind. simpl drop.
  change (parseLoop (E := SmallEngine) ["a.js"; "xxuseJIT=false"] ?c false false small_world)
    with (parseLoop (E := SmallEngine) ["xxuseJIT=false"]
            (appendScript {| isFile := true; argument := "a.js" |} c) false false small_world).
  rewrite (vm_option_is_read_behind_the_first_two_characters (E := SmallEngine)
             "x" "x" "useJIT=false" [] _ false false small_world ["useJIT=false"]).
  - reflexivity.
  - unfold jscFlags. intros Hin.
    repeat (apply elem_of_cons in Hin as [Hin|Hin]; [discriminate|]). inversion Hin.
  - reflexivity.
Defined.

Lemma file_names_become_scripts_in_order_witness :
  parseLoop (E := SmallEngine) (["a.js"; "b.js"] ++ ["-x"])
    {| m_interactive := false; m_dump := false; m_exitCode := false;
       m_scripts := []; m_arguments := []; m_profile := false;
       m_profilerOutput := "" |} false false small_world =
  Ret {| parsed_options :=
           {| m_interactive := false; m_dump := false; m_exitCode := true;
              m_scripts := [ {| isFile := true; argument := "a.js" |};
                             {| isFile := true; argument := "b.js" |} ];
              m_arguments := []; m_profile := false; m_profilerOutput := "" |};
         needToDumpOptions := false; needToExit := false; remaining := [] |}
      small_world.
Proof.
  rewrite (file_names_become_scripts_in_order (E := SmallEngine) ["a.js"; "b.js"] ["-x"]).
  - reflexivity.
  - repeat constructor.
    + unfold jscFlags. intros Hin.
      repeat (apply elem_of_cons in Hin as [Hin|Hin]; [discriminate|]). inversion Hin.
    + exists "a"%char, "."%char, "js". split; reflexivity.
    + unfold jscFlags. intros Hin.
      repeat (apply elem_of_cons in Hin as [Hin|Hin]; [discriminate|]). inversion Hin.
    + exists "b"%char, "."%char, "js". split; reflexivity.
Defined.

(** ** More on jscmain *)

Section EndOfRun.

Context {E : Engine}.

(** The statements of [jscmain] after the interactive loop: the line of
    [-x] and the saving of the profile of [-p]. *)
Lemma afterScripts_without_loop
    fuel options globalObject success (w : state) :
  m_interactive options && success = false ->
  afterScripts fuel options globalObject success w =
  let printed :=
    if m_exitCode options
    then with_stdout
           (stdout w +:+ ("jsc exiting " +:+ (if success then "0" else "3") +:+ newline)) w
    else w in
  Ret (if success then 0 else 3)%Z
      (if m_profile options then
         let saved := saveProfilerDatabase (m_profilerOutput options) printed in
         if snd saved then fst saved
         else with_stderr
                (stderr (fst saved) +:+ ("could not save profiler output." +:+ newline))
                (fst saved)
       else printed).
Proof.
  intros Hloop. unfold afterScripts, bind. rewrite Hloop.
  unfold ret, printf, fprintf_stderr, modify. cbv zeta.
  destruct success;
    [change (pretty 0%Z) with "0"|change (pretty 3%Z) with "3"];
    destruct (m_exitCode options), (m_profile options); cbv beta iota;
    try reflexivity.
  all: match goal with
       | |- context [saveProfilerDatabase ?o ?w0] =>
         destruct (saveProfilerDatabase o w0) as [saved []]; reflexivity
       end.
Qed.

(** X16: a run that is not interactive, and a run in which a script failed
    (with [-i] or without), end without the interactive loop. Once
    [runWithScripts] has returned, [main] reads no input and prints no
    prompt; it returns 0 or 3; with [-x] it prints the line [jsc exiting]
    with this result; with [-p] it then saves the profile, and a save that
    fails adds a line to the error stream and does not change the result. *)
Theorem run_ends_without_the_interactive_loop
    fuel (argv : list string) (w : state) options w1 globalObject w2 success w3 :
  newCommandLine argv w = Ret options w1 ->
  createGlobalObjectFor options w1 = Ret globalObject w2 ->
  runWithScripts globalObject (m_scripts options) (m_dump options) w2 = Ret success w3 ->
  m_interactive options && success = false ->
  main fuel argv w =
  let printed :=
    if m_exitCode options
    then with_stdout
           (stdout w3 +:+ ("jsc exiting " +:+ (if success then "0" else "3") +:+ newline)) w3
    else w3 in
  Ret (if success then 0 else 3)%Z
      (if m_profile options then
         let saved := saveProfilerDatabase (m_profilerOutput options) printed in
         if snd saved then fst saved
         else with_stderr
                (stderr (fst saved) +:+ ("could not save profiler output." +:+ newline))
                (fst saved)
       else printed).
Proof.
  intros Hparse Hcreate Hrun Hloop.
  rewrite (main_unfold fuel argv w options w1 globalObject w2 Hparse Hcreate), Hrun.
  rewrite afterScripts_without_loop by exact Hloop. reflexivity.
Qed.

Lemma parsed_without_scripts (argv : list string) c (w : state) options w1 :
  parseArguments argv c w = Ret options w1 ->
  m_scripts options = [] ->
  m_interactive options = true.
Proof.
  rewrite parseArguments_unfold.
  destruct (parseLoop (drop 1 argv) c false false w) as [p w0|status w0|a w0];
    try discriminate.
  cbv zeta. destruct (needToExit p); [discriminate|].
  intros [= <- _].
  destruct (bool_decide_reflect (m_scripts (parsed_options p) = [])) as [_|Hsome].
  - reflexivity.
  - simpl. intros Hempty. contradiction.
Qed.

(** X17: a command line without scripts and without [-p], at the end of
    the input. The process prints the prompt once and a newline on the
    standard output, and with [-x] the line [jsc exiting 0]; it evaluates
    nothing and returns 0: the pending exception and the error stream are
    as the parser left them, and only the creation of the global object and
    [dumpSampleData] have worked on the heap. *)
Theorem run_without_scripts_at_the_end_of_input
    fuel (argv : list string) (w : state) options w1 :
  newCommandLine argv w = Ret options w1 ->
  m_scripts options = [] ->
  m_profile options = false ->
  stdin w = [] ->
  exists w',
    main (S fuel) argv w = Ret 0%Z w' /\
    stdout w' =
      (if m_exitCode options
       then ((stdout w +:+ interactivePrompt) +:+ newline) +:+ ("jsc exiting 0" +:+ newline)
       else (stdout w +:+ interactivePrompt) +:+ newline) /\
    stdin w' = [] /\
    stderr w' = stderr w1 /\
    exception w' = exception w /\
    heap w' =
    dumpSampleData (fst (createGlobalObject (m_arguments options) (heap w))).
Proof.
  intros Hparse Hscripts Hprofile Hinput.
  pose proof (parsed_without_scripts _ _ _ _ _ Hparse Hscripts) as Hmode.
  pose proof (parseArguments_invariant argv
                {| m_interactive := false; m_dump := false; m_exitCode := false;
                   m_scripts := []; m_arguments := []; m_profile := false;
                   m_profilerOutput := "" |} w) as [Hnothing _].
  unfold newCommandLine in Hparse. rewrite Hparse in Hnothing. simpl in Hnothing.
  destruct Hnothing as (Hheap & Hexception & Hstdout & Hstdin & _).
  unfold main, jscmain, bind, newCommandLine. rewrite Hparse.
  unfold createGlobalObjectFor, bind. rewrite Hprofile.
  unfold ret, allocating.
  destruct (createGlobalObject (m_arguments options) (heap w1)) as [h globalObject] eqn:Hcreate.
  unfold runWithScripts, bind, beforeScripts. rewrite Hscripts.
  set (w2 := with_heap h w1).
  assert (Hstart : exists w3,
             (if m_dump options then modify (with_dumpGeneratedBytecodes true) else ret tt) w2 =
             Ret tt w3 /\
             stdin w3 = stdin w1 /\ stdout w3 = stdout w1 /\ stderr w3 = stderr w1 /\
             exception w3 = exception w1 /\ heap w3 = h).
  { destruct (m_dump options); eexists; (split; [reflexivity|]); repeat split. }
  destruct Hstart as (w3 & -> & Hin3 & Hout3 & Herr3 & Hexc3 & Hheap3).
  simpl scriptsLoop. unfold ret, onHeap, modify.
  unfold afterScripts, bind. rewrite Hmode, Hprofile.
  change (true && true) with true. cbv iota.
  rewrite runInteractive_empty_line
    by (left; simpl; rewrite Hin3, Hstdin; exact Hinput).
  unfold ret, printf, modify.
  destruct (m_exitCode options); (eexists; split; [reflexivity|]); simpl;
    rewrite Hin3, Hout3, Herr3, Hexc3, Hheap3, Hstdin, Hstdout, Hexception, Hinput;
    rewrite <- Hheap, Hcreate; repeat split.
Qed.

End EndOfRun.

Lemma run_ends_without_the_interactive_loop_witness :
  main (E := SmallEngine) 0 ["jsc"; "-i"; "-x"; "-p"; "profile"; "-e"; "throw 1"]
    small_world =
  Ret 3%Z (with_stdout (E := SmallEngine)
             ("Exception: Error: boom" +:+ newline +:+ "jsc exiting 3" +:+ newline)
             small_world).
Proof.
  exact (run_ends_without_the_interactive_loop (E := SmallEngine) 0
           ["jsc"; "-i"; "-x"; "-p"; "profile"; "-e"; "throw 1"] small_world
           {| m_interactive := true; m_dump := false; m_exitCode := true;
              m_scripts := [ {| isFile := false; argument := "throw 1" |} ];
              m_arguments := []; m_profile := true; m_profilerOutput := "profile" |}
           small_world tt small_world false
           (with_stdout (E := SmallEngine) ("Exception: Error: boom" +:+ newline)
              small_world)
           eq_refl eq_refl eq_refl eq_refl).
Defined.

Lemma run_without_scripts_at_the_end_of_input_witness :
  exists w',
    main (E := SmallEngine) 1 ["jsc"; "-x"; "--"; "x"] small_world = Ret 0%Z w' /\
    stdout w' = "> " +:+ newline +:+ "jsc exiting 0" +:+ newline.
Proof.
  destruct (run_without_scripts_at_the_end_of_input (E := SmallEngine) 0
              ["jsc"; "-x"; "--"; "x"] small_world
              {| m_interactive := true; m_dump := false; m_exitCode := true;
                 m_scripts := []; m_arguments := ["x"]; m_profile := false;
                 m_profilerOutput := "" |}
              small_world eq_refl eq_refl eq_refl eq_refl)
    as (w' & Hrun & Hout & _).
  exists w'. split; [exact Hrun|exact Hout].
Defined.

(** ** More on the natives run and load *)

Section RunAndLoad.

Context {E : Engine}.

(** X18: [run] on a file that opens. The text of the file (shebang
    neutralised, read up to its terminator) is evaluated in a global object
    of its own, created for the call with no script arguments, and not in
    the global object of the caller. When the program ends normally the
    call returns the elapsed milliseconds: the time after the evaluation
    minus the time before it, times 1000, as a [long]. When the program
    raises an exception, the exception is pending for the caller and the
    call returns [undefined]; when it calls [quit], the process ends with
    the status 0; when it runs for ever, so does the call. *)
Theorem run_evaluates_the_file_in_a_global_object_of_its_own
    (exec : ExecState) (w : state) (file : File) :
  files w (toWTFString (heap w) (exec_argument exec 0)) = Some file ->
  exists source,
    jscSource (neutraliseShebang (contents file) ++ [NUL])
      (toWTFString (heap w) (exec_argument exec 0)) = inr source /\
    let created := createGlobalObject [] (heap w) in
    let started := with_heap (fst created) w in
    match interpret (snd created) source started with
    | (w', Normal _) =>
      functionRun exec w =
      Ret (jsNumber
             (double_to_long
                (double_mul (double_sub (currentTime w') (currentTime started))
                   (double_of_int 1000)))) w'
    | (w', Threw e) =>
      functionRun exec w = Ret jsUndefined (with_exception (Some e) w')
    | (w', CalledQuit) => functionRun exec w = Exit EXIT_SUCCESS w'
    | (w', NeverReturns) => functionRun exec w = Fault NoTermination w'
    end.
Proof.
  intros Hfile.
  set (fileName := toWTFString (heap w) (exec_argument exec 0)) in *.
  destruct (fillBuffer_contents w fileName file [] Hfile) as (tail & Hload).
  destruct (jscSource_defined (neutraliseShebang (contents file)) tail fileName)
    as (source & Hsource).
  exists source. split; [rewrite <- jscSource_tail with (tail := tail); exact Hsource|].
  cbv zeta.
  unfold functionRun, bind, argumentFileName, gets. fold fileName.
  rewrite Hload. cbn [negb]. cbv beta iota zeta.
  unfold allocating.
  destruct (createGlobalObject [] (heap w)) as [h globalObject]. simpl fst. simpl snd.
  unfold StopWatch_start, StopWatch_stop, bind, gets, ret, jscSource_.
  rewrite Hsource. unfold ret, evaluate. cbv beta iota zeta.
  destruct (interpret globalObject source (with_heap h w)) as [w' [result|e| |]];
    reflexivity.
Qed.

(** X19: [load] on a file that opens. The text of the file (shebang
    neutralised, read up to its terminator) is evaluated in the global
    object of the caller, in the state of the call. When the program ends
    normally the call returns its value; when it raises an exception, the
    exception is pending for the caller; when it calls [quit], the process
    ends with the status 0; when it runs for ever, so does the call. *)
Theorem load_evaluates_the_file_in_the_global_object_of_the_caller
    (exec : ExecState) (w : state) (file : File) :
  files w (toWTFString (heap w) (exec_argument exec 0)) = Some file ->
  exists source,
    jscSource (neutraliseShebang (contents file) ++ [NUL])
      (toWTFString (heap w) (exec_argument exec 0)) = inr source /\
    match interpret (lexicalGlobalObject exec) source w with
    | (w', Normal result) => functionLoad exec w = Ret result w'
    | (w', Threw e) =>
      functionLoad exec w = Ret jsUndefined (with_exception (Some e) w')
    | (w', CalledQuit) => functionLoad exec w = Exit EXIT_SUCCESS w'
    | (w', NeverReturns) => functionLoad exec w = Fault NoTermination w'
    end.
Proof.
  intros Hfile.
  set (fileName := toWTFString (heap w) (exec_argument exec 0)) in *.
  destruct (fillBuffer_contents w fileName file [] Hfile) as (tail & Hload).
  destruct (jscSource_defined (neutraliseShebang (contents file)) tail fileName)
    as (source & Hsource).
  exists source. split; [rewrite <- jscSource_tail with (tail := tail); exact Hsource|].
  unfold functionLoad, bind, argumentFileName, gets. fold fileName.
  rewrite Hload. cbn [negb]. cbv beta iota zeta.
  unfold jscSource_. rewrite Hsource. unfold ret, evaluate. cbv beta iota zeta.
  destruct (interpret (lexicalGlobalObject exec) source w) as [w' [result|e| |]];
    reflexivity.
Qed.

End RunAndLoad.

Lemma run_evaluates_the_file_in_a_global_object_of_its_own_witness :
  functionRun (E := TickingEngine) (ticking_call "a.js") (ticking_world 5) =
  @Ret TickingEngine _ (SmallNumber 3000) (ticking_world 8).
Proof.
  destruct (run_evaluates_the_file_in_a_global_object_of_its_own (E := TickingEngine)
              (ticking_call "a.js") (ticking_world 5) (small_file "print(1+1)") eq_refl)
    as (source & Hsource & Hrun).
  vm_compute in Hsource. injection Hsource as <-. exact Hrun.
Defined.

Lemma load_evaluates_the_file_in_the_global_object_of_the_caller_witness :
  functionLoad (E := SmallEngine) (small_call "a.js") small_world =
  Ret SmallUndefined small_world.
Proof.
  destruct (load_evaluates_the_file_in_the_global_object_of_the_caller (E := SmallEngine)
              (small_call "a.js") small_world (small_file "print(1+1)") eq_refl)
    as (source & Hsource & Hrun).
  vm_compute in Hsource. injection Hsource as <-. exact Hrun.
Defined.

(** ** The natives print and readline *)

Section ShellFacts.

Context {E : Engine} {ES : EngineStrings E}.

Lemma append_assoc (a b c : string) : (a +:+ b) +:+ c = a +:+ (b +:+ c).
Proof.
  induction a as [|x a IH]; [reflexivity|].
  change (String x ((a +:+ b) +:+ c) = String x (a +:+ (b +:+ c))).
  rewrite IH. reflexivity.
Qed.

Lemma append_nil_r (s : string) : s +:+ "" = s.
Proof.
  induction s as [|x s IH]; [reflexivity|].
  change (String x (s +:+ "") = String x s). rewrite IH. reflexivity.
Qed.

(** What the loop of [functionPrint] prints from the second argument on. *)
Lemma printArguments_later (args : list JSValue) :
  Forall convertsQuietly args ->
  forall i (w : state), i <> 0 ->
  printArguments i args w =
  Ret tt (with_stdout
            (stdout w +:+
             foldr (fun v printed =>
                      " " +:+ beforeNUL (toWTFString (heap w) v) +:+ printed) "" args) w).
Proof.
  induction 1 as [|v rest Hv _ IH]; intros i w Hi.
  - cbn [printArguments foldr]. rewrite append_nil_r. destruct w. reflexivity.
  - cbn [printArguments foldr].
    destruct (Nat.eqb_spec i 0) as [->|_]; [contradiction|].
    unfold bind at 1. unfold printf at 1, modify at 1.
    unfold bind at 1, toStringIn at 1. rewrite Hv.
    unfold bind at 1, printf at 1, modify at 1.
    rewrite IH by lia. simpl. unfold with_stdout. simpl. do 2 f_equal.
    rewrite !append_assoc. reflexivity.
Qed.

Lemma concat_space (text : string) (texts : list string) :
  String.concat " " (text :: texts) =
  text +:+ foldr (fun t printed => " " +:+ t +:+ printed) "" texts.
Proof.
  revert text. induction texts as [|t texts IH]; intros text.
  - simpl. rewrite append_nil_r. reflexivity.
  - change (String.concat " " (text :: t :: texts))
      with (text +:+ " " +:+ String.concat " " (t :: texts)).
    rewrite IH. reflexivity.
Qed.

(** X20: [print] on arguments whose conversion to a string runs no script
    code. It writes the texts of its arguments to the standard output in
    their order, each of them up to its first NUL, one space between two of
    them, and a newline after the last one; without arguments it writes the
    newline alone. It returns [undefined] and changes nothing else. *)
Theorem print_writes_its_arguments_separated_by_spaces (exec : ExecState) (w : state) :
  Forall convertsQuietly (arguments exec) ->
  functionPrint exec w =
  Ret jsUndefined
      (with_stdout
         (stdout w +:+
          (String.concat " "
             (map (fun v => beforeNUL (toWTFString (heap w) v)) (arguments exec)) +:+
           newline))
         w).
Proof.
  unfold functionPrint. destruct (arguments exec) as [|v rest]; intros Hquiet.
  - cbn [printArguments map String.concat]. unfold bind, ret, printf, modify. reflexivity.
  - apply Forall_cons in Hquiet as [Hv Hrest].
    cbn [printArguments]. change (0 =? 0)%nat with true. cbv iota.
    unfold bind at 1. unfold bind at 1, ret at 1.
    unfold bind at 1, toStringIn at 1. rewrite Hv.
    unfold bind at 1, printf at 1, modify at 1.
    rewrite printArguments_later by (try exact Hrest; lia).
    unfold bind, printf, modify, ret. simpl map. rewrite concat_space.
    simpl. unfold with_stdout. simpl. do 2 f_equal.
    assert (Hfold :
      foldr (fun v0 printed =>
               " " +:+ beforeNUL (toWTFString (heap w) v0) +:+ printed) "" rest =
      foldr (fun t printed => " " +:+ t +:+ printed) ""
        (map (fun v0 => beforeNUL (toWTFString (heap w) v0)) rest)).
    { clear. induction rest as [|v' rest IH]; [reflexivity|].
      simpl. rewrite IH. reflexivity. }
    rewrite Hfold. generalize (foldr (fun t printed => " " +:+ t +:+ printed) ""
                                 (map (fun v0 => beforeNUL (toWTFString (heap w) v0)) rest)).
    intros printed. rewrite !append_assoc. reflexivity.
Qed.



End ShellFacts.

Lemma print_writes_its_arguments_separated_by_spaces_witness :
  functionPrint (E := SmallEngine)
    (@Build_ExecState SmallEngine
       [SmallString "a"; SmallNumber 1; SmallString (String "b" (String NUL "c"))] tt)
    small_world =
  Ret SmallUndefined (with_stdout (E := SmallEngine) ("a 1 b" +:+ newline) small_world).
Proof.
  apply (print_writes_its_arguments_separated_by_spaces (E := SmallEngine)
           (@Build_ExecState SmallEngine
              [SmallString "a"; SmallNumber 1; SmallString (String "b" (String NUL "c"))]
              tt) small_world).
  repeat constructor.
Defined.


(** ** GlobalObject::finishCreation *)

Section GlobalObjectFacts.

Context {V : Type}.

Lemma fillArguments_run (fuel : nat) :
  forall i (arguments : list string) (array : list (option string)),
  length array = i ->
  length arguments - i <= fuel ->
  fillArguments fuel i arguments array = Some (array ++ (Some <$> drop i arguments)).
Proof.
  induction fuel as [|fuel IH]; intros i arguments array Harray Hfuel.
  - simpl. destruct (decide (i < length arguments)) as [Hlt|Hge]; [lia|].
    rewrite drop_ge by lia. rewrite app_nil_r. reflexivity.
  - simpl. destruct (decide (i < length arguments)) as [Hlt|Hge].
    + destruct (lookup_lt_is_Some_2 arguments i Hlt) as (argument & Hi).
      rewrite Hi. rewrite IH.
      * unfold putDirectIndex.
        destruct (decide (i < length array)) as [Hbad|_]; [lia|].
        replace (i - length array) with 0 by lia. simpl.
        rewrite <- app_assoc. simpl.
        rewrite (drop_S arguments argument i Hi). rewrite Nat.add_1_r. reflexivity.
      * unfold putDirectIndex.
        destruct (decide (i < length array)) as [Hbad|_]; [lia|].
        rewrite !length_app, length_replicate. simpl. lia.
      * lia.
    + rewrite drop_ge by lia. rewrite app_nil_r. reflexivity.
Qed.

(** X22: the global object of the shell has the property [arguments], an
    array as long as the list of the arguments of the script whose element
    [i] is the argument [i], without holes, whatever the base object
    defines under this name. *)
Theorem arguments_array_holds_the_script_arguments
    (build : Build) (arguments : list string) (base : gmap string (Property V)) :
  exists object elements,
    finishCreation build arguments base = Some object /\
    object !! "arguments" = Some (JSArray elements) /\
    length elements = length arguments /\
    forall i, elements !! i = Some <$> arguments !! i.
Proof.
  unfold finishCreation.
  rewrite fillArguments_run by (simpl; lia).
  eexists _, _. split; [reflexivity|]. split; [apply lookup_insert_eq|].
  rewrite drop_0. simpl. split; [apply length_fmap|].
  intros i. apply list_lookup_fmap.
Qed.

#[local] Ltac in_list :=
  repeat first [apply list_elem_of_here | apply list_elem_of_further].

(** X23: the names of the shell. [finishCreation] leaves every property of
    the base object whose name is not one of the shell as it was; it binds
    every name of the shell, and every one but [arguments] to a function
    that carries the name it is bound to; the natives modelled here are
    bound to [quit], [print], [run], [load], [checkSyntax] and [readline]
    with 0, 1, 1, 1, 1 and 0 declared arguments. *)
Theorem shell_functions_are_bound_under_their_names
    (build : Build) (arguments : list string) (base : gmap string (Property V)) :
  exists object,
    finishCreation build arguments base = Some object /\
    (forall name, name ∉ shellNames build -> object !! name = base !! name) /\
    (forall name, name ∈ shellNames build -> name <> "arguments" ->
       exists length function constructor,
         object !! name = Some (JSFunction length name function constructor)) /\
    object !! "quit" = Some (JSFunction 0 "quit" FunctionQuit None) /\
    object !! "print" = Some (JSFunction 1 "print" FunctionPrint None) /\
    object !! "run" = Some (JSFunction 1 "run" FunctionRun None) /\
    object !! "load" = Some (JSFunction 1 "load" FunctionLoad None) /\
    object !! "checkSyntax" = Some (JSFunction 1 "checkSyntax" FunctionCheckSyntax None) /\
    object !! "readline" = Some (JSFunction 0 "readline" FunctionReadline None).
Proof.
  unfold finishCreation.
  rewrite fillArguments_run by (simpl; lia).
  eexists. split; [reflexivity|].
  unfold addFunction, addConstructableFunction, shellNames.
  destruct build as [[] []]; cbn [NDEBUG ENABLE_SAMPLING_FLAGS app].
  all: split;
    [intros name Hname;
     rewrite !lookup_insert_ne by (intros <-; apply Hname; in_list); reflexivity|].
  all: split;
    [intros name Hin Hne;
     repeat (apply elem_of_cons in Hin as [->|Hin];
             [try contradiction; eexists _, _, _; simplify_map_eq; reflexivity|]);
     inversion Hin|].
  all: repeat split; simplify_map_eq; reflexivity.
Qed.

End GlobalObjectFacts.

(** ** More on runWithScripts *)

Section ScriptsReachTheEngine.

Context {E : Engine}.

(** The loop body up to [evaluate] on a script whose text is the C string
    [bytes]. *)
Lemma evaluateScript_resolved globalObject (s : Script) (scriptBuffer : Vector) (w : state)
    (bytes tail : Vector) fileName (scriptBuffer' : Vector) :
  resolveScript s scriptBuffer w =
    Ret (Some (bytes ++ NUL :: tail, fileName, scriptBuffer')) w ->
  NUL ∉ bytes ->
  evaluateScript globalObject s scriptBuffer w =
  match interpret globalObject
          {| source_text := if forallb positive_char bytes then string_of_list_ascii bytes
                            else fromUTF8WithLatin1Fallback bytes;
             source_url := fileName |}
          (with_heap (startSampling (heap w)) w) with
  | (w', Normal result) => Ret (Some (result, None, scriptBuffer')) w'
  | (w', Threw thrown) => Ret (Some (jsUndefined, Some thrown, scriptBuffer')) w'
  | (w', CalledQuit) => Exit EXIT_SUCCESS w'
  | (w', NeverReturns) => Fault NoTermination w'
  end.
Proof.
  intros Hresolve Hbytes.
  unfold evaluateScript, bind. rewrite Hresolve.
  unfold onHeap, modify, jscSource_.
  rewrite jscSource_text by exact Hbytes.
  unfold ret, evaluate.
  destruct (interpret globalObject _ _) as [w' [result|thrown| |]]; reflexivity.
Qed.

(** X24: the text of a script given with [-e] reaches the engine as it is
    on the command line. The loop body of [runWithScripts] evaluates it
    under the name ["[Command Line]"] after the sampling has started; the
    source is the argument itself when it is ASCII, and what
    [fromUTF8WithLatin1Fallback] decodes its bytes to when it is not; no
    file is opened and the script buffer is left as it was. *)
Theorem inline_script_reaches_the_engine_unchanged
    globalObject (s : Script) (scriptBuffer : Vector) (w : state) :
  isFile s = false ->
  NUL ∉ list_ascii_of_string (argument s) ->
  evaluateScript globalObject s scriptBuffer w =
  match interpret globalObject
          {| source_text :=
               if forallb positive_char (list_ascii_of_string (argument s))
               then argument s
               else fromUTF8WithLatin1Fallback (list_ascii_of_string (argument s));
             source_url := "[Command Line]" |}
          (with_heap (startSampling (heap w)) w) with
  | (w', Normal result) => Ret (Some (result, None, scriptBuffer)) w'
  | (w', Threw thrown) => Ret (Some (jsUndefined, Some thrown, scriptBuffer)) w'
  | (w', CalledQuit) => Exit EXIT_SUCCESS w'
  | (w', NeverReturns) => Fault NoTermination w'
  end.
Proof.
  intros Hinline Hbytes.
  rewrite (evaluateScript_resolved globalObject s scriptBuffer w
             (list_ascii_of_string (argument s)) [] "[Command Line]" scriptBuffer).
  - rewrite string_of_list_ascii_of_string. reflexivity.
  - apply resolveScript_inline. exact Hinline.
  - exact Hbytes.
Qed.

Lemma neutraliseShebang_without_NUL (bytes : list ascii) :
  NUL ∉ bytes -> NUL ∉ neutraliseShebang bytes.
Proof.
  destruct bytes as [|c0 [|c1 rest]]; try (intros H; exact H). simpl.
  destruct (Ascii.eqb c0 "#" && Ascii.eqb c1 "!"); [|intros H; exact H].
  intros Hnul Hin. apply Hnul.
  apply elem_of_cons in Hin as [Hin|Hin]; [discriminate|].
  apply elem_of_cons in Hin as [Hin|Hin]; [discriminate|].
  right. right. exact Hin.
Qed.

(** X25: the bytes of a script file reach the engine as its text. For a
    file that opens and holds no NUL byte, the loop body of
    [runWithScripts] evaluates, under the name of the file, the source
    made of all the bytes of the file with a leading ["#!"] replaced by
    ["//"]: these bytes as they stand when they are ASCII, and what
    [fromUTF8WithLatin1Fallback] decodes them to when they are not. *)
Theorem file_script_reaches_the_engine
    globalObject (s : Script) (scriptBuffer : Vector) (w : state) (file : File) :
  isFile s = true ->
  files w (argument s) = Some file ->
  NUL ∉ contents file ->
  exists scriptBuffer',
    evaluateScript globalObject s scriptBuffer w =
    match interpret globalObject
            {| source_text :=
                 if forallb positive_char (neutraliseShebang (contents file))
                 then string_of_list_ascii (neutraliseShebang (contents file))
                 else fromUTF8WithLatin1Fallback (neutraliseShebang (contents file));
               source_url := argument s |}
            (with_heap (startSampling (heap w)) w) with
    | (w', Normal result) => Ret (Some (result, None, scriptBuffer')) w'
    | (w', Threw thrown) => Ret (Some (jsUndefined, Some thrown, scriptBuffer')) w'
    | (w', CalledQuit) => Exit EXIT_SUCCESS w'
    | (w', NeverReturns) => Fault NoTermination w'
    end.
Proof.
  intros Hfile Hopen Hbytes.
  destruct (fillBuffer_contents w (argument s) file scriptBuffer Hopen) as (tail & Hload).
  exists (neutraliseShebang (contents file) ++ NUL :: tail).
  apply (evaluateScript_resolved globalObject s scriptBuffer w
           (neutraliseShebang (contents file)) tail).
  - unfold resolveScript, bind. rewrite Hfile, Hload. reflexivity.
  - apply neutraliseShebang_without_NUL. exact Hbytes.
Qed.

(** X26: a run without [-p] whose first script is a file that cannot be
    opened. After the line of the loader on the error stream the process
    returns 3: it has evaluated nothing, it has not come to the scripts
    behind the file, and with [-i] it has not entered the interactive loop;
    the standard input is as it was, and the standard output has got the
    line [jsc exiting 3] of [-x] and nothing else. *)
Theorem run_on_a_missing_first_file
    fuel (argv : list string) (w : state) options w1 path later :
  newCommandLine argv w = Ret options w1 ->
  m_scripts options = {| isFile := true; argument := path |} :: later ->
  m_profile options = false ->
  files w path = None ->
  exists w',
    main fuel argv w = Ret 3%Z w' /\
    stderr w' = stderr w1 +:+ ("Could not open file: " +:+ path +:+ newline) /\
    stdout w' =
      (if m_exitCode options then stdout w +:+ ("jsc exiting 3" +:+ newline)
       else stdout w) /\
    stdin w' = stdin w /\ exception w' = exception w /\
    heap w' = fst (createGlobalObject (m_arguments options) (heap w)).
Proof.
  intros Hparse Hscripts Hprofile Hmissing.
  pose proof (parseArguments_invariant argv
                {| m_interactive := false; m_dump := false; m_exitCode := false;
                   m_scripts := []; m_arguments := []; m_profile := false;
                   m_profilerOutput := "" |} w) as [Hnothing _].
  unfold newCommandLine in Hparse. rewrite Hparse in Hnothing. simpl in Hnothing.
  destruct Hnothing as (Hheap & Hexception & Hstdout & Hstdin & Hfiles).
  unfold main, jscmain, bind, newCommandLine. rewrite Hparse.
  unfold createGlobalObjectFor, bind. rewrite Hprofile.
  unfold ret, allocating.
  destruct (createGlobalObject (m_arguments options) (heap w1)) as [h globalObject] eqn:Hcreate.
  unfold runWithScripts, bind, beforeScripts. rewrite Hscripts.
  set (w2 := with_heap h w1).
  assert (Hstart : exists w3,
             (if m_dump options then modify (with_dumpGeneratedBytecodes true) else ret tt) w2 =
             Ret tt w3 /\
             stdin w3 = stdin w1 /\ stdout w3 = stdout w1 /\ stderr w3 = stderr w1 /\
             exception w3 = exception w1 /\ heap w3 = h /\ files w3 = files w1).
  { destruct (m_dump options); eexists; (split; [reflexivity|]); repeat split. }
  destruct Hstart as (w3 & -> & Hin3 & Hout3 & Herr3 & Hexc3 & Hheap3 & Hfiles3).
  rewrite scriptsLoop_cons, scriptsLoopBody_unfold.
  rewrite evaluateScript_missing
    by (split; [reflexivity|]; simpl; rewrite Hfiles3, Hfiles; exact Hmissing).
  unfold ret.
  rewrite afterScripts_without_loop by apply andb_false_r.
  rewrite Hprofile. cbv zeta.
  destruct (m_exitCode options); (eexists; split; [reflexivity|]); simpl;
    rewrite Hin3, Hout3, Herr3, Hexc3, Hheap3, Hstdin, Hstdout, Hexception;
    rewrite <- Hheap, Hcreate; repeat split.
Qed.

End ScriptsReachTheEngine.

Lemma inline_script_reaches_the_engine_unchanged_witness :
  evaluateScript (E := SmallEngine) tt {| isFile := false; argument := "throw 1" |}
    [] small_world =
  Ret (Some (SmallUndefined, Some (SmallError "boom"), [])) small_world.
Proof.
  rewrite (inline_script_reaches_the_engine_unchanged (E := SmallEngine) tt
             {| isFile := false; argument := "throw 1" |} [] small_world eq_refl).
  - reflexivity.
  - vm_compute. intros Hin.
    repeat (apply elem_of_cons in Hin as [Hin|Hin]; [discriminate|]). inversion Hin.
Defined.

Lemma file_script_reaches_the_engine_witness :
  exists scriptBuffer',
    evaluateScript (E := SmallEngine) tt {| isFile := true; argument := "b.js" |}
      [] small_world =
    Ret (Some (SmallUndefined, None, scriptBuffer')) small_world.
Proof.
  destruct (file_script_reaches_the_engine (E := SmallEngine) tt
              {| isFile := true; argument := "b.js" |} [] small_world
              (small_file "#!/usr/bin/jsc") eq_refl eq_refl)
    as (scriptBuffer' & Hrun).
  - vm_compute. intros Hin.
    repeat (apply elem_of_cons in Hin as [Hin|Hin]; [discriminate|]). inversion Hin.
  - exists scriptBuffer'. rewrite Hrun. reflexivity.
Defined.

Lemma run_on_a_missing_first_file_witness :
  exists w',
    main (E := SmallEngine) 0 ["jsc"; "-i"; "-x"; "missing.js"; "a.js"] small_world =
    Ret 3%Z w' /\
    stderr w' = "Could not open file: missing.js" +:+ newline /\
    stdout w' = "jsc exiting 3" +:+ newline.
Proof.
  destruct (run_on_a_missing_first_file (E := SmallEngine) 0
              ["jsc"; "-i"; "-x"; "missing.js"; "a.js"] small_world
              {| m_interactive := true; m_dump := false; m_exitCode := true;
                 m_scripts := [ {| isFile := true; argument := "missing.js" |};
                                {| isFile := true; argument := "a.js" |} ];
                 m_arguments := []; m_profile := false; m_profilerOutput := "" |}
              small_world "missing.js" [ {| isFile := true; argument := "a.js" |} ]
              eq_refl eq_refl eq_refl eq_refl)
    as (w' & Hrun & Herr & Hout & _).
  exists w'. split; [exact Hrun|]. split; [exact Herr|exact Hout].
Defined.

(** ** The run as a whole *)

Section WholeRun.

Context {E : Engine}.

(** The report of an evaluation prints on the standard output and does
    nothing else. *)
Lemma reportEvaluation_prints globalObject dump returnValue evaluationException
    (w w' : state) :
  reportEvaluation globalObject dump returnValue evaluationException w = Ret tt w' ->
  stdin w' = stdin w /\ heap w' = heap w.
Proof.
  unfold reportEvaluation, bind, gets, printf, modify, ret.
  destruct (dump && negb (hasException evaluationException));
    destruct evaluationException as [e|]; simpl;
    try destruct (negb (isUndefinedOrNull _));
    intros [= <-]; split; reflexivity.
Qed.

(** What one pass through the loop of [runWithScripts] leaves. *)
Lemma scriptsLoopBody_leaves globalObject dump (s : Script) carried (w : state) r w' :
  scriptsLoopBody globalObject dump s carried w = Ret r w' ->
  (exception w = None -> exception w' = None) /\
  (inputIsOnlyRead -> length (stdin w') <= length (stdin w)).
Proof.
  destruct carried as [success scriptBuffer].
  rewrite scriptsLoopBody_unfold.
  destruct (evaluateScript globalObject s scriptBuffer w)
    as [[[[returnValue evaluationException] scriptBuffer']|] w1|status w1|a w1] eqn:Hevaluate;
    try discriminate.
  - destruct (reportEvaluation globalObject dump returnValue evaluationException w1)
      as [[] w2|status w2|a w2] eqn:Hreport; try discriminate.
    intros [= _ <-].
    apply reportEvaluation_prints in Hreport as [Hin _].
    split; [intros _; apply endOfIteration_exception|].
    intros Hengine.
    change (stdin (endOfIteration w2)) with (stdin w2). rewrite Hin.
    assert (Hloaded : ~ loadFails s w).
    { intros Hfails. rewrite evaluateScript_missing in Hevaluate by exact Hfails.
      discriminate. }
    destruct (evaluateScript_loaded globalObject s scriptBuffer w Hloaded)
      as (script & fileName & buffer & source & _ & _ & Hrun).
    rewrite Hrun in Hevaluate.
    pose proof (Hengine globalObject source (with_heap (startSampling (heap w)) w)) as Hkept.
    destruct (interpret globalObject source _) as [w0 [result|thrown| |]];
      try discriminate; injection Hevaluate as _ _ _ <-; exact Hkept.
  - intros [= _ <-]. apply evaluateScript_None in Hevaluate as [_ ->].
    split; [intros H; exact H|reflexivity].
Qed.

Lemma scriptsLoop_leaves globalObject dump (scripts : list Script) :
  forall carried (w : state) r w',
  scriptsLoop globalObject dump scripts carried w = Ret r w' ->
  (exception w = None -> exception w' = None) /\
  (inputIsOnlyRead -> length (stdin w') <= length (stdin w)).
Proof.
  induction scripts as [|s rest IH]; intros carried w r w'.
  - intros [= _ <-]. split; [intros H; exact H|reflexivity].
  - rewrite scriptsLoop_cons.
    destruct (scriptsLoopBody globalObject dump s carried w)
      as [[carried'|b] w1|status w1|a w1] eqn:Hbody; try discriminate.
    + intros Hrest.
      destruct (scriptsLoopBody_leaves _ _ _ _ _ _ _ Hbody) as [Hexc Hin].
      destruct (IH _ _ _ _ Hrest) as [Hexc' Hin'].
      split; [auto|]. intros Hengine. specialize (Hin Hengine). specialize (Hin' Hengine).
      lia.
    + intros [= _ <-]. exact (scriptsLoopBody_leaves _ _ _ _ _ _ _ Hbody).
Qed.

Lemma runWithScripts_leaves globalObject (scripts : list Script) dump (w : state) b w' :
  runWithScripts globalObject scripts dump w = Ret b w' ->
  (exception w = None -> exception w' = None) /\
  (inputIsOnlyRead -> length (stdin w') <= length (stdin w)).
Proof.
  destruct (runWithScripts_unfold globalObject scripts dump w) as (w0 & Hbefore & ->).
  assert (Hw0 : stdin w0 = stdin w /\ exception w0 = exception w).
  { unfold beforeScripts in Hbefore. destruct dump; injection Hbefore as <-; auto. }
  destruct Hw0 as [Hin0 Hexc0].
  destruct (scriptsLoop globalObject dump scripts (true, []) w0)
    as [[[success buffer]|b0] w1|status w1|a w1] eqn:Hloop; try discriminate.
  - intros [= _ <-].
    destruct (scriptsLoop_leaves _ _ _ _ _ _ _ Hloop) as [Hexc Hin].
    simpl. rewrite <- Hin0, <- Hexc0. auto.
  - intros [= _ <-].
    destruct (scriptsLoop_leaves _ _ _ _ _ _ _ Hloop) as [Hexc Hin].
    rewrite <- Hin0, <- Hexc0. auto.
Qed.

(** X27: [runWithScripts] leaves no exception pending. When none is pending
    at its start, none is pending when it returns, whatever the scripts
    raised and whether it returns [true] or [false]. *)
Theorem run_leaves_no_exception_pending
    globalObject (scripts : list Script) dump (w : state) b w' :
  exception w = None ->
  runWithScripts globalObject scripts dump w = Ret b w' ->
  exception w' = None.
Proof.
  intros Hnone Hrun.
  destruct (runWithScripts_leaves _ _ _ _ _ _ Hrun) as [Hexc _]. auto.
Qed.

(** X28: the exit status of jsc. Whatever the command line and the input
    are, [main] returns 0 or 3 only, and the process ends in [exit] with
    the status 0 (from [quit], the help and [--options]) or 1 (from a flag
    without its operand) only. Nothing is said of a run that does not come
    to an end. *)
Theorem exit_status_is_0_1_or_3 (fuel : nat) (argv : list string) (w : state) :
  match main fuel argv w with
  | Ret status _ => status = 0%Z \/ status = 3%Z
  | Exit status _ => status = 0%Z \/ status = 1%Z
  | Fault _ _ => True
  end.
Proof.
  pose proof (parseArguments_invariant argv
                {| m_interactive := false; m_dump := false; m_exitCode := false;
                   m_scripts := []; m_arguments := []; m_profile := false;
                   m_profilerOutput := "" |} w) as [_ Hparser].
  unfold main, jscmain, bind, newCommandLine.
  destruct (parseArguments argv _ w) as [options w1|status w1|a w1];
    [|exact Hparser|exact I].
  destruct (createGlobalObjectFor_returns options w1) as (globalObject & w2 & ->).
  pose proof (runWithScripts_endsWell globalObject (m_scripts options)
                (m_dump options) w2) as Hends.
  destruct (runWithScripts globalObject (m_scripts options) (m_dump options) w2)
    as [success w3|status w3|a w3]; [|left; exact Hends|exact I].
  destruct ((if m_interactive options && success then runInteractive fuel globalObject
             else ret tt) w3) as [[] w4|status w4|a w4] eqn:Hloop.
  - destruct (afterScripts_returns fuel options globalObject success w3 w4 Hloop)
      as (w5 & ->).
    unfold ret. destruct success; auto.
  - unfold afterScripts, bind. rewrite Hloop. left.
    destruct (m_interactive options && success); [|discriminate].
    apply (runInteractive_exit fuel globalObject w3 status w4 Hloop).
  - unfold afterScripts, bind. rewrite Hloop. exact I.
Qed.


End WholeRun.

Lemma run_leaves_no_exception_pending_witness :
  runWithScripts (E := SmallEngine) tt
    [ {| isFile := false; argument := "throw 1" |};
      {| isFile := true; argument := "a.js" |} ] false small_world =
  Ret false (with_stdout (E := SmallEngine)
               ("Exception: Error: boom" +:+ newline) small_world) /\
  exception (with_stdout (E := SmallEngine)
               ("Exception: Error: boom" +:+ newline) small_world) = None.
Proof.
  assert (Hrun :
    runWithScripts (E := SmallEngine) tt
      [ {| isFile := false; argument := "throw 1" |};
        {| isFile := true; argument := "a.js" |} ] false small_world =
    Ret false (with_stdout (E := SmallEngine)
                 ("Exception: Error: boom" +:+ newline) small_world))
    by (vm_compute; reflexivity).
  split; [exact Hrun|].
  exact (run_leaves_no_exception_pending (E := SmallEngine) tt _ false small_world false _
           eq_refl Hrun).
Defined.

